(** * ZedStore per-attribute B-tree: a shallow embedding of
      [src/backend/access/zedstore/zedstore_btree.c]

    Pages, items and the metapage are explicit data; every C function
    of the file becomes a function over that data.  Buffers are block
    numbers into the relation's page store, [elog(ERROR, ...)] becomes
    the [Err] outcome, and loops whose termination depends on the
    contents of the pages take a fuel argument.  Latches and pins are
    not modelled: all functions run to completion one at a time. *)

From Stdlib Require Import ZArith Lia Strings.Byte.
From stdpp Require Import base option list gmap strings sorting.
From Equations Require Import Equations.

Local Open Scope Z_scope.

(* ===================================================================== *)
(** * Machine integers *)
(* ===================================================================== *)

(** [uint32] and [uint16] arithmetic wraps around. *)
Definition wrap32 (x : Z) : Z := x mod 2 ^ 32.
Definition wrap16 (x : Z) : Z := x mod 2 ^ 16.

(** The C integer types of the file; all are read as integers. *)
Abbreviation BlockNumber := Z (only parsing).
Abbreviation OffsetNumber := Z (only parsing).
Abbreviation AttrNumber := Z (only parsing).
Abbreviation Buffer := Z (only parsing).

Definition InvalidBlockNumber : BlockNumber := 0xFFFFFFFF.
Definition MaxBlockNumber : BlockNumber := 0xFFFFFFFE.
Definition InvalidOffsetNumber : OffsetNumber := 0.
Definition FirstOffsetNumber : OffsetNumber := 1.
Definition InvalidAttrNumber : AttrNumber := 0.

(* ===================================================================== *)
(** * Tuple identifiers *)
(* ===================================================================== *)

Record ItemPointerData : Type := ItemPointerSet {
  ip_blkid : BlockNumber;
  ip_posid : OffsetNumber
}.

Global Instance ItemPointerData_eq_dec : EqDecision ItemPointerData.
Proof. solve_decision. Defined.

(** Modelled from the spec: [ItemPointerCompare] is declared outside
    this file; a TID is "a totally ordered 48-bit identifier viewed as
    (block_u32, offset_u16) with lexicographic order".  The result is
    negative, zero or positive. *)
Definition ItemPointerCompare (a b : ItemPointerData) : Z :=
  if ip_blkid a <? ip_blkid b then -1
  else if ip_blkid b <? ip_blkid a then 1
  else if ip_posid a <? ip_posid b then -1
  else if ip_posid b <? ip_posid a then 1
  else 0.

Definition ItemPointerEquals (a b : ItemPointerData) : bool :=
  (ip_blkid a =? ip_blkid b) && (ip_posid a =? ip_posid b).

(** Modelled from the spec: [ItemPointerIncrement] is declared outside
    this file; "increment is lexicographic (offset rolls into block)". *)
Definition ItemPointerIncrement (t : ItemPointerData) : ItemPointerData :=
  if ip_posid t =? 0xFFFF
  then ItemPointerSet (wrap32 (ip_blkid t + 1)) 0
  else ItemPointerSet (ip_blkid t) (ip_posid t + 1).

Definition tid_lt (a b : ItemPointerData) : Prop := ItemPointerCompare a b < 0.
Definition tid_le (a b : ItemPointerData) : Prop := ItemPointerCompare b a >= 0.

Global Instance tid_lt_dec a b : Decision (tid_lt a b).
Proof. unfold tid_lt. apply _. Defined.
Global Instance tid_le_dec a b : Decision (tid_le a b).
Proof. unfold tid_le. apply _. Defined.

(** A TID whose two halves are in range for their C types. *)
Definition tid_wf (t : ItemPointerData) : Prop :=
  0 <= ip_blkid t < 2 ^ 32 /\ 0 <= ip_posid t < 2 ^ 16.

(** The reserved keys. *)
Definition MinTid : ItemPointerData := ItemPointerSet 0 1.
Definition MaxTid : ItemPointerData := ItemPointerSet MaxBlockNumber 0xFFFF.
Definition rightmostkey : ItemPointerData := ItemPointerSet MaxBlockNumber 0xfffe.

(* ===================================================================== *)
(** * Internal-page items and their binary search *)
(* ===================================================================== *)

Record ZSBtreeInternalPageItem : Type := MkInternalItem {
  tid : ItemPointerData;
  childblk : BlockNumber
}.

Global Instance ZSBtreeInternalPageItem_eq_dec : EqDecision ZSBtreeInternalPageItem.
Proof. solve_decision. Defined.

Global Instance ZSBtreeInternalPageItem_inhabited : Inhabited ZSBtreeInternalPageItem :=
  populate (MkInternalItem (ItemPointerSet 0 0) 0).

(** [arr[i]] for a C [int] index.  A read outside the array is outside
    the C semantics; the model then reads the zero item.  No theorem
    below depends on such a read. *)
Definition arr_get (arr : list ZSBtreeInternalPageItem) (i : Z) : ZSBtreeInternalPageItem :=
  if i <? 0 then inhabitant else arr !!! Z.to_nat i.

(** The [while (high > low)] loop of [zsbt_binsrch_internal]. *)
Equations? binsrch_loop (key : ItemPointerData) (arr : list ZSBtreeInternalPageItem)
    (low high : Z) : Z by wf (Z.to_nat (high - low)) lt :=
  binsrch_loop key arr low high with decide (high > low) => {
    | left _ =>
        let mid := low + (high - low) ÷ 2 in
        let cmp := ItemPointerCompare key (tid (arr_get arr mid)) in
        if cmp >=? 0 then binsrch_loop key arr (mid + 1) high
        else binsrch_loop key arr low mid;
    | right _ => low }.
Proof.
  all: subst mid; pose proof (Z.quot_pos (high - low) 2);
    pose proof (Z.quot_lt (high - low) 2); lia.
Qed.

Definition zsbt_binsrch_internal (key : ItemPointerData)
    (arr : list ZSBtreeInternalPageItem) (arr_elems : Z) : Z :=
  binsrch_loop key arr 0 arr_elems - 1.

Definition key_le (a b : ZSBtreeInternalPageItem) : Prop := tid_le (tid a) (tid b).
Definition key_lt (a b : ZSBtreeInternalPageItem) : Prop := tid_lt (tid a) (tid b).

(** [items[k]] and everything after it moved up by one, and [x]
    written at [k]. *)
Definition insert_at {A : Type} (k : nat) (x : A) (l : list A) : list A :=
  take k l ++ x :: drop k l.

(** Downlink keys in non-decreasing order. *)
Definition items_sorted (arr : list ZSBtreeInternalPageItem) : Prop :=
  forall (i j : nat) (x y : ZSBtreeInternalPageItem),
    arr !! i = Some x -> arr !! j = Some y -> (i <= j)%nat -> tid_le (tid x) (tid y).

(** Downlink keys in strictly increasing order. *)
Definition items_strictly_sorted (arr : list ZSBtreeInternalPageItem) : Prop :=
  forall (i j : nat) (x y : ZSBtreeInternalPageItem),
    arr !! i = Some x -> arr !! j = Some y -> (i < j)%nat -> tid_lt (tid x) (tid y).

(* ===================================================================== *)
(** * Outcomes *)
(* ===================================================================== *)

(** [Ok] is a normal return, [Err] an [elog(ERROR, ...)] with its
    message, [OutOfFuel] a loop that was cut off by the model. *)
Inductive result (A : Type) : Type :=
  | Ok (a : A)
  | Err (msg : string)
  | OutOfFuel.
Arguments Ok {A} a.
Arguments Err {A} msg.
Arguments OutOfFuel {A}.

Definition bind {A B : Type} (m : result A) (k : A -> result B) : result B :=
  match m with
  | Ok a => k a
  | Err msg => Err msg
  | OutOfFuel => OutOfFuel
  end.

Notation "'let*' x ':=' m 'in' k" := (bind m (fun x => k))
  (at level 10, x binder, m at level 200, k at level 200).

(* ===================================================================== *)
(** * Leaf items *)
(* ===================================================================== *)

(** A leaf item.  For a compressed run [t_tid] is the first TID of the
    run and [t_lasttid] its last; [t_payload] holds the bytes after the
    fixed part.  The struct is declared in a header outside this file:
    the field widths are not known here, so sizes are kept as integers
    without wrap-around. *)
Record ZSBtreeItem : Type := MkItem {
  t_tid : ItemPointerData;
  t_size : Z;
  t_flags : Z;
  t_lasttid : ItemPointerData;
  t_payload : list byte
}.

(** Modelled from the spec: the flag bits, the page magic and the
    struct sizes come from headers outside this file ("flags (bit
    COMPRESSED)", "bit FOLLOW_RIGHT", "page_id: magic tag"). *)
Definition ZSBT_COMPRESSED : Z := 0x0001.
Definition ZS_FOLLOW_RIGHT : Z := 0x0002.
Definition ZS_BTREE_PAGE_ID : Z := 0xF083.
Definition ZS_META_BLK : BlockNumber := 0.
Definition InvalidBuffer : Buffer := -1.

Definition BLCKSZ : Z := 8192.
Definition SizeOfPageHeaderData : Z := 24.
Definition sizeof_ItemIdData : Z := 4.
Definition sizeof_ZSBtreePageOpaque : Z := 24.
Definition sizeof_ZSBtreeInternalPageItem : Z := 10.
Definition offsetof_t_payload : Z := 16.
Definition SizeofHeapTupleHeader : Z := 23.

(** [MAXALIGN(x)]: round up to the next multiple of 8. *)
Definition MAXALIGN (x : Z) : Z := Z.land (x + 7) (Z.lnot 7).

Definition item_is_compressed (item : ZSBtreeItem) : bool :=
  negb (Z.land (t_flags item) ZSBT_COMPRESSED =? 0).

(* ===================================================================== *)
(** * Pages *)
(* ===================================================================== *)

Record ZSBtreePageOpaque : Type := MkOpaque {
  zs_next : BlockNumber;
  zs_lokey : ItemPointerData;
  zs_hikey : ItemPointerData;
  zs_level : Z;
  zs_flags : Z;
  zs_page_id : Z
}.

(** A page: the line-pointer array with the items it points to (used by
    leaves), the flat downlink array that starts right after the header
    (used by internal pages), and the opaque trailer. *)
Record Page : Type := MkPage {
  pd_linp : list ZSBtreeItem;
  pd_downlinks : list ZSBtreeInternalPageItem;
  pd_opaque : ZSBtreePageOpaque
}.

Definition set_opaque (page : Page) (o : ZSBtreePageOpaque) : Page :=
  MkPage (pd_linp page) (pd_downlinks page) o.
Definition set_downlinks (page : Page) (l : list ZSBtreeInternalPageItem) : Page :=
  MkPage (pd_linp page) l (pd_opaque page).
Definition set_flags (o : ZSBtreePageOpaque) (f : Z) : ZSBtreePageOpaque :=
  MkOpaque (zs_next o) (zs_lokey o) (zs_hikey o) (zs_level o) f (zs_page_id o).

Definition ZSBtreePageGetOpaque (page : Page) : ZSBtreePageOpaque := pd_opaque page.

(** Modelled from the spec: the page service ([PageInit],
    [PageGetFreeSpace], [PageAddItemExtended], [PageGetMaxOffsetNumber],
    [PageGetTempPageCopySpecial], [PageRestoreTempPage]) is outside this
    file.  "Free space on a page is computed by the external page
    service"; the accounting below is the slotted-page one: the header
    and the line pointers (or the downlink array) grow from the front,
    the aligned items from the back, the trailer sits at the end. *)
Definition items_bytes (l : list ZSBtreeItem) : Z :=
  foldr (fun item acc => MAXALIGN (t_size item) + acc) 0 l.

Definition pd_lower (page : Page) : Z :=
  SizeOfPageHeaderData
  + sizeof_ItemIdData * Z.of_nat (length (pd_linp page))
  + sizeof_ZSBtreeInternalPageItem * Z.of_nat (length (pd_downlinks page)).

Definition pd_upper (page : Page) : Z :=
  BLCKSZ - MAXALIGN sizeof_ZSBtreePageOpaque - items_bytes (pd_linp page).

Definition PageGetFreeSpace (page : Page) : Z :=
  let space := pd_upper page - pd_lower page in
  if space <? sizeof_ItemIdData then 0 else space - sizeof_ItemIdData.

Definition PageGetMaxOffsetNumber (page : Page) : OffsetNumber :=
  Z.of_nat (length (pd_linp page)).

Definition zero_opaque : ZSBtreePageOpaque :=
  MkOpaque 0 (ItemPointerSet 0 0) (ItemPointerSet 0 0) 0 0 0.

Definition PageInit : Page := MkPage [] [] zero_opaque.

Definition PageGetTempPageCopySpecial (page : Page) : Page :=
  MkPage [] [] (pd_opaque page).

(** [PageAddItemExtended(page, item, size, offnum, PAI_OVERWRITE)];
    [None] is [InvalidOffsetNumber].  Every line pointer of a modelled
    page is in use, so an offset below the end is refused, as is one
    past the end, or an item that does not fit. *)
Definition PageAddItemExtended (page : Page) (item : ZSBtreeItem) (size : Z)
    (offnum : OffsetNumber) : option Page :=
  let limit := PageGetMaxOffsetNumber page + 1 in
  if offnum <? limit then None
  else if limit <? offnum then None
  else
    let lower := pd_lower page + sizeof_ItemIdData in
    let upper := pd_upper page - MAXALIGN size in
    if upper <? lower then None
    else Some (MkPage (pd_linp page ++ [item]) (pd_downlinks page) (pd_opaque page)).

Global Instance ZSBtreeItem_inhabited : Inhabited ZSBtreeItem :=
  populate (MkItem (ItemPointerSet 0 0) 0 0 (ItemPointerSet 0 0) []).

(** [PageGetItem(page, PageGetItemId(page, off))]; offsets count from
    1.  As for [arr_get], a read outside the line-pointer array is
    outside the C semantics and yields the zero item in the model. *)
Definition PageGetItem (page : Page) (off : OffsetNumber) : ZSBtreeItem :=
  if off <? FirstOffsetNumber then inhabitant else pd_linp page !!! Z.to_nat (off - 1).

Definition ZSBtreeInternalPageGetItems (page : Page) : list ZSBtreeInternalPageItem :=
  pd_downlinks page.
Definition ZSBtreeInternalPageGetNumItems (page : Page) : Z :=
  Z.of_nat (length (pd_downlinks page)).
Definition ZSBtreeInternalPageIsFull (page : Page) : bool :=
  pd_upper page - pd_lower page <? sizeof_ZSBtreeInternalPageItem.

(* ===================================================================== *)
(** * The relation: page store, allocator and metapage *)
(* ===================================================================== *)

(** The blocks of the relation that hold B-tree pages, the number of
    blocks allocated so far, and the metapage's root pointer for each
    attribute (absent: [InvalidBlockNumber]). *)
Record Relation : Type := MkRel {
  rel_pages : gmap Z Page;
  rel_nblocks : Z;
  rel_roots : gmap Z BlockNumber
}.

Definition write_page (rel : Relation) (blk : BlockNumber) (page : Page) : Relation :=
  MkRel (<[blk := page]> (rel_pages rel)) (rel_nblocks rel) (rel_roots rel).

(** Modelled from the spec: the buffer manager is outside this file
    ("read(block) -> buf_handle").  A buffer handle is identified with
    the block it holds; reading a block that holds no B-tree page is an
    error. *)
Definition ReadBuffer (rel : Relation) (blk : BlockNumber) : result Page :=
  match rel_pages rel !! blk with
  | Some page => Ok page
  | None => Err "could not read block"
  end.

(** Modelled from the spec: [zs_getnewbuf] is outside this file ("the
    block allocator that hands out fresh pages").  It extends the
    relation by one block. *)
Definition zs_getnewbuf (rel : Relation) : Buffer * Relation :=
  (rel_nblocks rel, MkRel (rel_pages rel) (rel_nblocks rel + 1) (rel_roots rel)).

(** The page a tree starts with: "the initial root is a leaf with
    lokey=(0,1), hikey=MaxSentinel, level=0, next=invalid". *)
Definition initial_root_page : Page :=
  MkPage [] [] (MkOpaque InvalidBlockNumber MinTid MaxTid 0 0 ZS_BTREE_PAGE_ID).

(** Modelled from the spec: [zsmeta_get_root_for_attribute] is outside
    this file ("get_root(attno, create_if_missing) -> block | invalid";
    "a tree is created lazily": with [forupdate] a missing root is
    allocated, initialised as an empty leaf and recorded). *)
Definition zsmeta_get_root_for_attribute (rel : Relation) (attno : AttrNumber)
    (forupdate : bool) : BlockNumber * Relation :=
  match rel_roots rel !! attno with
  | Some blk => (blk, rel)
  | None =>
      if forupdate then
        let '(rootblk, rel1) := zs_getnewbuf rel in
        (rootblk, MkRel (<[rootblk := initial_root_page]> (rel_pages rel1))
                        (rel_nblocks rel1)
                        (<[attno := rootblk]> (rel_roots rel1)))
      else (InvalidBlockNumber, rel)
  end.

(** Modelled from the spec: [zsmeta_update_root_for_attribute] is
    outside this file ("update_root(attno, metabuf, new_root_block)"). *)
Definition zsmeta_update_root_for_attribute (rel : Relation) (attno : AttrNumber)
    (rootblk : BlockNumber) : Relation :=
  MkRel (rel_pages rel) (rel_nblocks rel) (<[attno := rootblk]> (rel_roots rel)).

(** A relation with nothing but its metapage. *)
Definition empty_relation : Relation := MkRel ∅ 1 ∅.

(* ===================================================================== *)
(** * The codec and the MVCC oracle *)
(* ===================================================================== *)

(** Modelled from the spec: the codec is outside this file; the core
    "only obeys its begin / add / finish / rejected? contract".  The
    compressor threads a context; the decompressor turns a compressed
    run into the stream of items that [zs_decompress_read_item] hands
    out one at a time. *)
Class ZSCodec : Type := {
  ZSCompressContext : Type;
  zs_compress_init : ZSCompressContext;
  zs_compress_begin : ZSCompressContext -> Z -> ZSCompressContext;
  zs_compress_add : ZSCompressContext -> ZSBtreeItem -> bool * ZSCompressContext;
  zs_compress_finish : ZSCompressContext -> ZSBtreeItem * ZSCompressContext;
  zs_decompress_chunk : ZSBtreeItem -> list ZSBtreeItem
}.

(** Modelled from the spec: the MVCC oracle is outside this file
    ("tuple_satisfies_visibility(row_header, tid, snapshot, buf) ->
    bool"). *)
Class ZSMvcc : Type := {
  Snapshot : Type;
  zs_tuple_satisfies_visibility : list byte -> ItemPointerData -> option Snapshot -> bool
}.

(* ===================================================================== *)
(** * Leaf compression: [zsbt_compress_leaf] *)
(* ===================================================================== *)

(** The variables the [for] loop of [zsbt_compress_leaf] updates. *)
Record CompressLoop `{ZSCodec} : Type := MkCompressLoop {
  cl_i : Z;
  cl_compressed_items : Z;
  cl_compressor : ZSCompressContext;
  cl_page : Page
}.

(** What one pass through the loop body leads to: the next iteration,
    [success = false; break], or an [elog(ERROR)]. *)
Inductive compress_outcome `{ZSCodec} : Type :=
  | CNext (st : CompressLoop)
  | CBreak
  | CError (msg : string).

Arguments MkCompressLoop {_} _ _ _ _.

(** The [if (newitem) { ... }] blocks at the end of the loop body: the
    item is added to the scratch page, or does not fit ([success =
    false; break]), or [PageAddItemExtended] refuses it. *)
Inductive repack_outcome : Type :=
  | Repacked (page : Page)
  | RepackNoSpace
  | RepackRefused.

Definition repack_item (page : Page) (newitem : option ZSBtreeItem) : repack_outcome :=
  match newitem with
  | None => Repacked page
  | Some it =>
      if PageGetFreeSpace page <? MAXALIGN (t_size it) then RepackNoSpace
      else
        match PageAddItemExtended page it (t_size it) (PageGetMaxOffsetNumber page + 1) with
        | None => RepackRefused
        | Some page' => Repacked page'
        end
  end.

(** The tail of the loop body: emit [newitem1], then [newitem2], then
    [i++]. *)
Definition compress_emit `{ZSCodec} (page : Page) (newitem1 newitem2 : option ZSBtreeItem)
    (i compressed_items : Z) (compressor : ZSCompressContext) : compress_outcome :=
  match repack_item page newitem1 with
  | RepackRefused => CError "could not add item to page while repacking"
  | RepackNoSpace => CBreak
  | Repacked page1 =>
      match repack_item page1 newitem2 with
      | RepackRefused => CError "could not add item to page while repacking"
      | RepackNoSpace => CBreak
      | Repacked page2 => CNext (MkCompressLoop (i + 1) compressed_items compressor page2)
      end
  end.

(** The head of the loop body decides [newitem1] and [newitem2] and
    updates [i], [compressed_items] and the compressor. *)
Definition compress_body `{ZSCodec} (origpage : Page) (st : CompressLoop) : compress_outcome :=
  let i := cl_i st in
  let item := PageGetItem origpage i in
  if item_is_compressed item then
    (* Add compressed items as is. *)
    if decide (cl_compressed_items st > 0) then
      let '(run, c) := zs_compress_finish (cl_compressor st) in
      compress_emit (cl_page st) (Some run) (Some item) i 0 c
    else
      compress_emit (cl_page st) None (Some item) i (cl_compressed_items st)
        (cl_compressor st)
  else
    (* try to add this item to the compressor *)
    let c0 :=
      if decide (cl_compressed_items st = 0)
      then zs_compress_begin (cl_compressor st) (PageGetFreeSpace (cl_page st))
      else cl_compressor st in
    let '(accepted, c1) := zs_compress_add c0 item in
    if accepted then
      compress_emit (cl_page st) None None i (cl_compressed_items st + 1) c1
    else if decide (cl_compressed_items st > 0) then
      let '(run, c2) := zs_compress_finish c1 in
      compress_emit (cl_page st) (Some run) None (i - 1) 0 c2
    else
      (* could not compress, even on its own. Store it uncompressed, then *)
      compress_emit (cl_page st) (Some item) None i (cl_compressed_items st) c1.

(** A value together with the equation that it is the value of the
    expression inspected; it lets the termination proof see which way
    the loop body went. *)
Definition inspect {A : Type} (a : A) : {b : A | a = b} := exist _ a eq_refl.

(** Each pass either moves on to the next item, or flushes the pending
    run and retries the same item with [compressed_items = 0]. *)
Definition compress_measure `{ZSCodec} (maxoff : Z) (st : CompressLoop) : nat :=
  Z.to_nat (2 * (maxoff + 1 - cl_i st)
            + (if decide (cl_compressed_items st > 0) then 1 else 0)).

Equations? compress_loop `{ZSCodec} (origpage : Page) (maxoff : Z) (st : CompressLoop)
    : result (bool * CompressLoop) by wf (compress_measure maxoff st) lt :=
  compress_loop origpage maxoff st with decide (cl_i st <= maxoff) => {
    | right _ => Ok (true, st)
    | left _ with inspect (compress_body origpage st) => {
        | exist _ (CError msg) _ => Err msg
        | exist _ CBreak _ => Ok (false, st)
        | exist _ (CNext st') Hbody => compress_loop origpage maxoff st' } }.
Proof.
  unfold compress_measure. unfold compress_body in Hbody.
  assert (forall page n1 n2 i ci c,
             compress_emit page n1 n2 i ci c = CNext st' ->
             cl_i st' = i + 1 /\ cl_compressed_items st' = ci) as Hemit.
  { intros page n1 n2 i ci c. unfold compress_emit.
    do 2 (destruct (repack_item _ _); try discriminate). by intros [= <-]. }
  destruct (item_is_compressed _).
  - destruct (decide (cl_compressed_items st > 0)).
    + destruct (zs_compress_finish _).
      apply Hemit in Hbody as [-> ->]. repeat case_decide; lia.
    + apply Hemit in Hbody as [-> ->]. repeat case_decide; lia.
  - destruct (zs_compress_add _ _) as [[] ?].
    + apply Hemit in Hbody as [-> ->]. repeat case_decide; lia.
    + destruct (decide (cl_compressed_items st > 0)).
      * destruct (zs_compress_finish _).
        apply Hemit in Hbody as [-> ->]. repeat case_decide; lia.
      * apply Hemit in Hbody as [-> ->]. repeat case_decide; lia.
Qed.

(** The block after the loop: [if (success && compressed_items > 0)],
    which flushes the last pending run. *)
Definition compress_flush `{ZSCodec} (success : bool) (st : CompressLoop)
    : result (bool * Page) :=
  if success && bool_decide (cl_compressed_items st > 0) then
    let '(item, _) := zs_compress_finish (cl_compressor st) in
    if PageGetFreeSpace (cl_page st) <? MAXALIGN (t_size item) then
      Ok (false, cl_page st)
    else
      match PageAddItemExtended (cl_page st) item (t_size item)
              (PageGetMaxOffsetNumber (cl_page st) + 1) with
      | None => Err "could not add item to page while repacking"
      | Some page' => Ok (success, page')
      end
  else Ok (success, cl_page st).

(** [zsbt_compress_leaf(buf)]: the flag it returns, and the relation
    with the live page replaced when the flag is [true]. *)
Definition zsbt_compress_leaf `{ZSCodec} (rel : Relation) (buf : Buffer)
    : result (bool * Relation) :=
  let* origpage := ReadBuffer rel buf in
  let compressor := zs_compress_init in
  let page := PageGetTempPageCopySpecial origpage in
  let maxoff := PageGetMaxOffsetNumber origpage in
  let* '(success, st) := compress_loop origpage maxoff
                           (MkCompressLoop FirstOffsetNumber 0 compressor page) in
  let* '(success, page) := compress_flush success st in
  if success then
    (* PageRestoreTempPage(page, origpage); MarkBufferDirty(buf) *)
    Ok (true, write_page rel buf page)
  else Ok (false, rel).

(* ===================================================================== *)
(** * Descending the tree: [zsbt_descend], [zsbt_find_downlink] *)
(* ===================================================================== *)

(** The level check at the top of both descent loops; it yields the
    value of [nextlevel] after the check. *)
Definition check_level (opaque : ZSBtreePageOpaque) (nextlevel : Z) : result Z :=
  if nextlevel =? -1 then Ok (zs_level opaque)
  else if negb (zs_level opaque =? nextlevel)
       then Err "unexpected level encountered when descending tree"
       else Ok nextlevel.

(** The [for (;;)] loop of [zsbt_descend]; [next] and [nextlevel] are
    the loop variables. *)
Fixpoint descend_loop (fuel : nat) (rel : Relation) (key : ItemPointerData)
    (next : BlockNumber) (nextlevel : Z) : result Buffer :=
  match fuel with
  | O => OutOfFuel
  | S fuel =>
      let buf := next in
      let* page := ReadBuffer rel next in
      let opaque := ZSBtreePageGetOpaque page in
      let* nextlevel := check_level opaque nextlevel in
      if zs_level opaque =? 0 then Ok buf
      else if ItemPointerCompare key (zs_hikey opaque) >=? 0 then
        (* follow the right-link *)
        let next := zs_next opaque in
        if next =? InvalidBlockNumber then Err "fell off the end of btree"
        else descend_loop fuel rel key next nextlevel
      else
        (* follow the downlink *)
        let items := ZSBtreeInternalPageGetItems page in
        let nitems := ZSBtreeInternalPageGetNumItems page in
        let itemno := zsbt_binsrch_internal key items nitems in
        if itemno <? 0 then Err "could not descend tree for tid"
        else descend_loop fuel rel key (childblk (arr_get items itemno)) (nextlevel - 1)
  end.

Definition zsbt_descend (fuel : nat) (rel : Relation) (rootblk : BlockNumber)
    (key : ItemPointerData) : result Buffer :=
  descend_loop fuel rel key rootblk (-1).

(** The [for (;;)] loop of [zsbt_find_downlink]; it returns the parent
    buffer and [*itemno_p]. *)
Fixpoint find_downlink_loop (fuel : nat) (rel : Relation) (key : ItemPointerData)
    (childblkno : BlockNumber) (level : Z) (next : BlockNumber) (nextlevel : Z)
    : result (Buffer * Z) :=
  match fuel with
  | O => OutOfFuel
  | S fuel =>
      let buf := next in
      let* page := ReadBuffer rel next in
      let opaque := ZSBtreePageGetOpaque page in
      let* nextlevel := check_level opaque nextlevel in
      if zs_level opaque <=? level then Err "unexpected page level encountered"
      else if ItemPointerCompare key (zs_hikey opaque) >=? 0 then
        let next := zs_next opaque in
        if next =? InvalidBlockNumber then Err "fell off the end of btree"
        else find_downlink_loop fuel rel key childblkno level next nextlevel
      else
        let items := ZSBtreeInternalPageGetItems page in
        let nitems := ZSBtreeInternalPageGetNumItems page in
        let itemno := zsbt_binsrch_internal key items nitems in
        if itemno <? 0 then Err "could not descend tree for tid"
        else if zs_level opaque =? level + 1 then
          if negb (childblk (arr_get items itemno) =? childblkno)
          then Err "could not re-find downlink for block"
          else Ok (buf, itemno)
        else find_downlink_loop fuel rel key childblkno level
               (childblk (arr_get items itemno)) (nextlevel - 1)
  end.

(** [zsbt_find_downlink]: [InvalidBuffer] when [childblk] is the root. *)
Definition zsbt_find_downlink (fuel : nat) (rel : Relation) (attno : AttrNumber)
    (key : ItemPointerData) (childblkno : BlockNumber) (level : Z)
    : result (Buffer * Z * Relation) :=
  let '(rootblk, rel) := zsmeta_get_root_for_attribute rel attno true in
  if rootblk =? childblkno then Ok (InvalidBuffer, 0, rel)
  else
    let* '(buf, itemno) := find_downlink_loop fuel rel key childblkno level rootblk (-1) in
    Ok (buf, itemno, rel).

(* ===================================================================== *)
(** * Splits: [zsbt_newroot], [zsbt_insert_downlink], [zsbt_split_internal] *)
(* ===================================================================== *)

(** [zsbt_newroot].  The [Assert] on the key order is compiled out of
    production builds and is not modelled. *)
Definition zsbt_newroot (rel : Relation) (attno : AttrNumber) (level : Z)
    (key1 : ItemPointerData) (blk1 : BlockNumber)
    (key2 : ItemPointerData) (blk2 : BlockNumber)
    (leftchildbuf : Buffer) : result Relation :=
  let '(buf, rel) := zs_getnewbuf rel in
  let opaque := MkOpaque InvalidBlockNumber (ItemPointerSet 0 1)
                  (ItemPointerSet MaxBlockNumber 0xFFFF) level 0 ZS_BTREE_PAGE_ID in
  let items := [MkInternalItem key1 blk1; MkInternalItem key2 blk2] in
  let page := MkPage [] items opaque in
  (* clear the follow-right flag on left child *)
  let* leftchildpage := ReadBuffer rel leftchildbuf in
  let leftchildopaque := ZSBtreePageGetOpaque leftchildpage in
  let leftchildopaque :=
    set_flags leftchildopaque (Z.land (zs_flags leftchildopaque) ZS_FOLLOW_RIGHT) in
  let rel := write_page rel buf page in
  let rel := write_page rel leftchildbuf (set_opaque leftchildpage leftchildopaque) in
  (* Before exiting, update the metapage *)
  Ok (zsmeta_update_root_for_attribute rel attno buf).

(** [flags & ~ZS_FOLLOW_RIGHT] on a 16-bit field. *)
Definition clear_follow_right (flags : Z) : Z :=
  Z.land flags (Z.lnot ZS_FOLLOW_RIGHT).

(** The copy loop of [zsbt_split_internal] as it runs over
    [origitems[i ..]]; it returns [leftitems] and [rightitems]. *)
Fixpoint split_internal_copy (origitems : list ZSBtreeInternalPageItem) (i : Z)
    (newoff : Z) (newitemonleft : bool) (splitpoint : Z)
    (newitem : ZSBtreeInternalPageItem)
    (leftitems rightitems : list ZSBtreeInternalPageItem)
    : list ZSBtreeInternalPageItem * list ZSBtreeInternalPageItem :=
  match origitems with
  | [] =>
      (* cope with possibility that newitem goes at the end *)
      if i <=? newoff then (leftitems, rightitems ++ [newitem])
      else (leftitems, rightitems)
  | item :: rest =>
      let '(leftitems, rightitems) :=
        if i =? newoff then
          if newitemonleft then (leftitems ++ [newitem], rightitems)
          else (leftitems, rightitems ++ [newitem])
        else (leftitems, rightitems) in
      let '(leftitems, rightitems) :=
        if i <? splitpoint then (leftitems ++ [item], rightitems)
        else (leftitems, rightitems ++ [item]) in
      split_internal_copy rest (i + 1) newoff newitemonleft splitpoint newitem
        leftitems rightitems
  end.

(** [splitpoint = orignitems * 0.9]: the product is taken in double
    precision and truncated.  The double nearest to 0.9 exceeds it by
    less than 2.3e-17, so for every count an [int] can hold the
    truncated product is the integer part of [9 * orignitems / 10]. *)
Definition split_internal_point (orignitems : Z) : Z := (orignitems * 9) ÷ 10.

(** What [zsbt_split_internal] does to the two pages before it
    recurses: the new left and right pages and the split TID. *)
Definition split_internal_pages (origpage : Page) (rightblkno : BlockNumber)
    (newoff : Z) (newkey : ItemPointerData) (childblkno : BlockNumber)
    : Page * Page * ItemPointerData :=
  let leftpage := PageGetTempPageCopySpecial origpage in
  let leftopaque := ZSBtreePageGetOpaque leftpage in
  let origitems := ZSBtreeInternalPageGetItems origpage in
  let orignitems := ZSBtreeInternalPageGetNumItems origpage in
  let splitpoint := split_internal_point orignitems in
  let splittid := tid (arr_get origitems splitpoint) in
  let newitemonleft := ItemPointerCompare newkey splittid <? 0 in
  let rightopaque := MkOpaque (zs_next leftopaque) splittid (zs_hikey leftopaque)
                       (zs_level leftopaque) 0 ZS_BTREE_PAGE_ID in
  let leftopaque := MkOpaque rightblkno (zs_lokey leftopaque) splittid
                      (zs_level leftopaque)
                      (Z.lor (zs_flags leftopaque) ZS_FOLLOW_RIGHT)
                      (zs_page_id leftopaque) in
  let newitem := MkInternalItem newkey childblkno in
  let '(leftitems, rightitems) :=
    split_internal_copy origitems 0 newoff newitemonleft splitpoint newitem [] [] in
  (MkPage [] leftitems leftopaque, MkPage [] rightitems rightopaque, splittid).

(** [zsbt_split_internal], with the recursive call to
    [zsbt_insert_downlink] passed in as [insert_downlink]. *)
Definition zsbt_split_internal
    (insert_downlink : Relation -> AttrNumber -> Buffer -> ItemPointerData ->
                       BlockNumber -> result Relation)
    (rel : Relation) (attno : AttrNumber) (leftbuf childbuf : Buffer)
    (newoff : OffsetNumber) (newkey : ItemPointerData) (childblkno : BlockNumber)
    : result Relation :=
  let* origpage := ReadBuffer rel leftbuf in
  let '(rightblkno, rel) := zs_getnewbuf rel in
  let '(leftpage, rightpage, splittid) :=
    split_internal_pages origpage rightblkno newoff newkey childblkno in
  (* PageRestoreTempPage(leftpage, origpage) *)
  let rel := write_page rel leftbuf leftpage in
  let rel := write_page rel rightblkno rightpage in
  let* childpage := ReadBuffer rel childbuf in
  let childopaque := ZSBtreePageGetOpaque childpage in
  let rel := write_page rel childbuf
               (set_opaque childpage
                  (set_flags childopaque (clear_follow_right (zs_flags childopaque)))) in
  (* recurse to insert downlink *)
  insert_downlink rel attno leftbuf splittid rightblkno.

(** [zsbt_insert_downlink]; the fuel bounds the recursion through
    [zsbt_split_internal] and the descents of [zsbt_find_downlink]. *)
Fixpoint zsbt_insert_downlink (fuel : nat) (rel : Relation) (attno : AttrNumber)
    (leftbuf : Buffer) (rightlokey : ItemPointerData) (rightblkno : BlockNumber)
    : result Relation :=
  match fuel with
  | O => OutOfFuel
  | S fuel' =>
      let leftblkno := leftbuf in
      let* leftpage := ReadBuffer rel leftbuf in
      let leftopaque := ZSBtreePageGetOpaque leftpage in
      let leftlokey := zs_lokey leftopaque in
      (* re-find parent *)
      let* '(parentbuf, itemno, rel) :=
        zsbt_find_downlink fuel rel attno leftlokey leftblkno (zs_level leftopaque) in
      if parentbuf =? InvalidBuffer then
        zsbt_newroot rel attno (zs_level leftopaque + 1)
          leftlokey leftbuf rightlokey rightblkno leftbuf
      else
        let* parentpage := ReadBuffer rel parentbuf in
        (* Find the position in the parent for the downlink *)
        let items := ZSBtreeInternalPageGetItems parentpage in
        let nitems := ZSBtreeInternalPageGetNumItems parentpage in
        let itemno := zsbt_binsrch_internal rightlokey items nitems in
        (* sanity checks *)
        if (itemno <? 1)
           || negb (ItemPointerEquals (tid (arr_get items itemno)) leftlokey)
           || negb (childblk (arr_get items itemno) =? leftblkno)
        then Err "could not find downlink"
        else
          let itemno := itemno + 1 in
          if ZSBtreeInternalPageIsFull parentpage then
            (* split internal page *)
            zsbt_split_internal (zsbt_insert_downlink fuel') rel attno parentbuf leftbuf
              itemno rightlokey rightblkno
          else
            (* insert the new downlink for the right page. *)
            let items := take (Z.to_nat itemno) items
                         ++ MkInternalItem rightlokey rightblkno
                         :: drop (Z.to_nat itemno) items in
            let leftopaque := set_flags leftopaque (clear_follow_right (zs_flags leftopaque)) in
            let rel := write_page rel leftbuf (set_opaque leftpage leftopaque) in
            let rel := write_page rel parentbuf (set_downlinks parentpage items) in
            Ok rel
  end.

(* ===================================================================== *)
(** * Leaf split and insertion: [zsbt_split_leaf], [zsbt_insert_to_leaf] *)
(* ===================================================================== *)

(** Context passed around when inserting a new tuple.  The relation
    itself is threaded separately.  A datum is the bytes the attribute
    metadata says it occupies ([datumGetSize] is their number); the
    tuple header is only looked at for attribute 1. *)
Record ZSInsertState : Type := MkInsertState {
  attno : AttrNumber;
  datum : list byte;
  tuple_header : list byte
}.

(** The [for] loop of [zsbt_split_leaf] that copies all the tuples, as
    it runs over the items at offsets [i ..] of the original page. *)
Fixpoint split_leaf_copy (origitems : list ZSBtreeItem) (i : OffsetNumber)
    (lastleftoff : OffsetNumber) (newitem : ZSBtreeItem) (newitemonleft : bool)
    (newitemoff : OffsetNumber) (leftpage rightpage : Page)
    : result (Page * Page) :=
  match origitems with
  | [] =>
      if i =? newitemoff then
        match PageAddItemExtended rightpage newitem (t_size newitem) FirstOffsetNumber with
        | None => Err "could not add new item to page on split"
        | Some rightpage => Ok (leftpage, rightpage)
        end
      else Ok (leftpage, rightpage)
  | item :: rest =>
      let* '(leftpage, rightpage) :=
        (if i =? newitemoff then
           if newitemonleft then
             match PageAddItemExtended leftpage newitem (t_size newitem)
                     (PageGetMaxOffsetNumber leftpage + 1) with
             | None => Err "could not add new item to page on split"
             | Some leftpage => Ok (leftpage, rightpage)
             end
           else
             match PageAddItemExtended rightpage newitem (t_size newitem)
                     (PageGetMaxOffsetNumber rightpage + 1) with
             | None => Err "could not add new item to page on split"
             | Some rightpage => Ok (leftpage, rightpage)
             end
         else Ok (leftpage, rightpage)) in
      let* '(leftpage, rightpage) :=
        (if i <=? lastleftoff then
           match PageAddItemExtended leftpage item (t_size item)
                   (PageGetMaxOffsetNumber leftpage + 1) with
           | None => Err "could not add item to page on split"
           | Some leftpage => Ok (leftpage, rightpage)
           end
         else
           match PageAddItemExtended rightpage item (t_size item)
                   (PageGetMaxOffsetNumber rightpage + 1) with
           | None => Err "could not add item to page on split"
           | Some rightpage => Ok (leftpage, rightpage)
           end) in
      split_leaf_copy rest (i + 1) lastleftoff newitem newitemonleft newitemoff
        leftpage rightpage
  end.

(** What [zsbt_split_leaf] does to the two pages before it inserts the
    downlink: the new left and right pages and the split TID.  The two
    [Assert]s are compiled out of production builds and are not
    modelled. *)
Definition split_leaf_pages (origpage : Page) (rightblkno : BlockNumber)
    (lastleftoff : OffsetNumber) (newitem : ZSBtreeItem) (newitemonleft : bool)
    (newitemoff : OffsetNumber) : result (Page * Page * ItemPointerData) :=
  let leftpage := PageGetTempPageCopySpecial origpage in
  let leftopaque := ZSBtreePageGetOpaque leftpage in
  let rightpage := PageInit in
  (* Figure out the split point TID. *)
  let splittid := ItemPointerSet (wrap32 (ip_blkid (zs_lokey leftopaque) + 1)) 1 in
  (* Set up the page headers *)
  let rightopaque := MkOpaque (zs_next leftopaque) splittid (zs_hikey leftopaque)
                       0 0 ZS_BTREE_PAGE_ID in
  let leftopaque := MkOpaque rightblkno (zs_lokey leftopaque) splittid
                      (zs_level leftopaque)
                      (Z.lor (zs_flags leftopaque) ZS_FOLLOW_RIGHT)
                      (zs_page_id leftopaque) in
  let leftpage := set_opaque leftpage leftopaque in
  let rightpage := set_opaque rightpage rightopaque in
  (* Copy all the tuples *)
  let* '(leftpage, rightpage) :=
    split_leaf_copy (pd_linp origpage) FirstOffsetNumber lastleftoff newitem
      newitemonleft newitemoff leftpage rightpage in
  Ok (leftpage, rightpage, splittid).

Definition zsbt_split_leaf (fuel : nat) (rel : Relation) (buf : Buffer)
    (lastleftoff : OffsetNumber) (state : ZSInsertState) (newitem : ZSBtreeItem)
    (newitemonleft : bool) (newitemoff : OffsetNumber) : result Relation :=
  let leftbuf := buf in
  let* origpage := ReadBuffer rel buf in
  let '(rightblkno, rel) := zs_getnewbuf rel in
  let* '(leftpage, rightpage, splittid) :=
    split_leaf_pages origpage rightblkno lastleftoff newitem newitemonleft newitemoff in
  (* PageRestoreTempPage(leftpage, origpage) *)
  let rel := write_page rel leftbuf leftpage in
  let rel := write_page rel rightblkno rightpage in
  zsbt_insert_downlink fuel rel (attno state) leftbuf splittid rightblkno.

(** The TID [zsbt_insert_to_leaf] and [zsbt_get_last_tid] pick: they
    look at the last item, for its tid. *)
Definition next_tid_on_leaf (page : Page) : ItemPointerData :=
  let maxoff := PageGetMaxOffsetNumber page in
  if maxoff >=? FirstOffsetNumber then
    let hitup := PageGetItem page maxoff in
    ItemPointerIncrement (t_tid hitup)
  else zs_lokey (ZSBtreePageGetOpaque page).

(** The item [zsbt_insert_to_leaf] forms.  [palloc] leaves [t_lasttid]
    unset; nothing reads it on an uncompressed item, and the model
    stores the item's own TID there. *)
Definition form_item (state : ZSInsertState) (tid : ItemPointerData) : ZSBtreeItem :=
  let datumsz := Z.of_nat (length (datum state)) in
  let itemsz := offsetof_t_payload + datumsz in
  (* for first column header needs to be stored as well *)
  let itemsz := if attno state =? 1 then itemsz + SizeofHeapTupleHeader else itemsz in
  let payload :=
    if attno state =? 1
    then take (Z.to_nat SizeofHeapTupleHeader) (tuple_header state) ++ datum state
    else datum state in
  MkItem tid itemsz 0 tid payload.

(** The first [if] of [zsbt_insert_to_leaf]: when the item does not
    fit, try to compress the leaf.  The flag [zsbt_compress_leaf]
    returns is dropped. *)
Definition insert_try_compress `{ZSCodec} (rel : Relation) (buf : Buffer) (itemsz : Z)
    : result Relation :=
  let* page := ReadBuffer rel buf in
  if PageGetFreeSpace page <? MAXALIGN itemsz then
    let* '(_, rel) := zsbt_compress_leaf rel buf in
    Ok rel
  else Ok rel.

(** [zsbt_insert_to_leaf]: the TID of the new item and the relation
    after the insertion. *)
Definition zsbt_insert_to_leaf `{ZSCodec} (fuel : nat) (rel : Relation) (buf : Buffer)
    (state : ZSInsertState) : result (ItemPointerData * Relation) :=
  let* page := ReadBuffer rel buf in
  (* Look at the last item, for its tid. *)
  let tid := next_tid_on_leaf page in
  (* Form a ZSBtreeItem to insert. *)
  let item := form_item state tid in
  let itemsz := t_size item in
  let* rel := insert_try_compress rel buf itemsz in
  let* page := ReadBuffer rel buf in
  let maxoff := PageGetMaxOffsetNumber page in
  if PageGetFreeSpace page >=? MAXALIGN itemsz then
    match PageAddItemExtended page item itemsz (maxoff + 1) with
    | None => Err "didn't fit, after all?"
    | Some page => Ok (tid, write_page rel buf page)
    end
  else
    let maxoff := PageGetMaxOffsetNumber page in
    let* rel := zsbt_split_leaf fuel rel buf maxoff state item false (maxoff + 1) in
    Ok (tid, rel).

(** [zsbt_find_insertion_target]: descend to the rightmost leaf. *)
Definition zsbt_find_insertion_target (fuel : nat) (rel : Relation)
    (rootblk : BlockNumber) : result Buffer :=
  let rightmostkey := ItemPointerSet MaxBlockNumber 0xfffe in
  zsbt_descend fuel rel rootblk rightmostkey.

(** [zsbt_insert]: the TID of the new tuple and the relation after. *)
Definition zsbt_insert `{ZSCodec} (fuel : nat) (rel : Relation) (attno : AttrNumber)
    (datum : list byte) (tupleheader : list byte)
    : result (ItemPointerData * Relation) :=
  let '(rootblk, rel) := zsmeta_get_root_for_attribute rel attno true in
  let state := MkInsertState attno datum tupleheader in
  let* buf := zsbt_find_insertion_target fuel rel rootblk in
  zsbt_insert_to_leaf fuel rel buf state.

(* ===================================================================== *)
(** * The last-TID probe: [zsbt_get_last_tid] *)
(* ===================================================================== *)

Definition zsbt_get_last_tid (fuel : nat) (rel : Relation) (attno : AttrNumber)
    : result (ItemPointerData * Relation) :=
  (* Find the rightmost leaf *)
  let '(rootblk, rel) := zsmeta_get_root_for_attribute rel attno true in
  let rightmostkey := ItemPointerSet MaxBlockNumber 0xfffe in
  let* buf := zsbt_descend fuel rel rootblk rightmostkey in
  let* page := ReadBuffer rel buf in
  Ok (next_tid_on_leaf page, rel).

(* ===================================================================== *)
(** * Scans: [zsbt_begin_scan], [zsbt_end_scan], [zsbt_scan_next] *)
(* ===================================================================== *)

(** The scan cursor.  A [NULL] snapshot is [None]; the decompressor
    holds the items it has not handed out yet. *)
Record ZSBtreeScan `{ZSMvcc} : Type := MkScan {
  scan_attno : AttrNumber;
  scan_snapshot : option Snapshot;
  scan_active : bool;
  scan_lastbuf : Buffer;
  scan_lastoff : OffsetNumber;
  scan_nexttid : ItemPointerData;
  scan_has_decompressed : bool;
  scan_decompressor : list ZSBtreeItem
}.
Arguments MkScan {_} _ _ _ _ _ _ _ _.

Definition zsbt_begin_scan `{ZSMvcc} (fuel : nat) (rel : Relation) (attno : AttrNumber)
    (starttid : ItemPointerData) (snapshot : option Snapshot) (scan : ZSBtreeScan)
    : result (ZSBtreeScan * Relation) :=
  let '(rootblk, rel) := zsmeta_get_root_for_attribute rel attno false in
  if rootblk =? InvalidBlockNumber then
    (* completely empty tree *)
    Ok (MkScan InvalidAttrNumber None false InvalidBuffer InvalidOffsetNumber
          (ItemPointerSet InvalidBlockNumber InvalidOffsetNumber)
          (scan_has_decompressed scan) (scan_decompressor scan), rel)
  else
    let* buf := zsbt_descend fuel rel rootblk starttid in
    Ok (MkScan attno snapshot true buf InvalidOffsetNumber starttid
          false (scan_decompressor scan), rel).

Definition zsbt_end_scan `{ZSMvcc} (scan : ZSBtreeScan) : ZSBtreeScan :=
  if negb (scan_active scan) then scan
  else MkScan (scan_attno scan) (scan_snapshot scan) false (scan_lastbuf scan)
         (scan_lastoff scan) (scan_nexttid scan) (scan_has_decompressed scan)
         (scan_decompressor scan).

(** A scan cursor before [zsbt_begin_scan] has filled it in. *)
Definition blank_scan `{ZSMvcc} : ZSBtreeScan :=
  MkScan 0 None false 0 0 (ItemPointerSet 0 0) false [].

(** What [zsbt_scan_next] hands back through [*datum], [*tid] and
    [*visible] when it returns true. *)
Record ScanTuple : Type := MkScanTuple {
  st_datum : list byte;
  st_tid : ItemPointerData;
  st_visible : bool
}.

(** Decoding an uncompressed item: the first column stores the MVCC
    information in front of the datum. *)
Definition scan_decode `{ZSMvcc} (attno : AttrNumber) (snapshot : option Snapshot)
    (item : ZSBtreeItem) : ScanTuple :=
  let ptr := t_payload item in
  if attno =? 1 then
    MkScanTuple (drop (Z.to_nat SizeofHeapTupleHeader) ptr) (t_tid item)
      (zs_tuple_satisfies_visibility (take (Z.to_nat SizeofHeapTupleHeader) ptr)
         (t_tid item) snapshot)
  else MkScanTuple ptr (t_tid item) true.

(** The [while (scan->has_decompressed)] loop: read items off the
    decompressor until one at or after [nexttid] comes out; [None]
    when the stream runs dry. *)
Fixpoint scan_read_decompressed (stream : list ZSBtreeItem) (nexttid : ItemPointerData)
    : option (ZSBtreeItem * list ZSBtreeItem) :=
  match stream with
  | [] => None
  | item :: stream =>
      if ItemPointerCompare (t_tid item) nexttid >=? 0 then Some (item, stream)
      else scan_read_decompressed stream nexttid
  end.

(** The walk over one page's items, from offset [off] on. *)
Inductive page_hit : Type :=
  | HitCompressed (item : ZSBtreeItem)
  | HitItem (off : OffsetNumber) (item : ZSBtreeItem)
  | NoHit.

Fixpoint scan_page_items (items : list ZSBtreeItem) (off : OffsetNumber)
    (nexttid : ItemPointerData) : page_hit :=
  match items with
  | [] => NoHit
  | item :: items =>
      if item_is_compressed item then
        if ItemPointerCompare (t_lasttid item) nexttid >=? 0 then HitCompressed item
        else scan_page_items items (off + 1) nexttid
      else
        if ItemPointerCompare (t_tid item) nexttid >=? 0 then HitItem off item
        else scan_page_items items (off + 1) nexttid
  end.

(** The loops of [zsbt_scan_next].  The inner [for (;;)] over pages
    never falls through, and [has_decompressed] is false whenever it
    starts another pass, so the two nested loops are one loop whose
    every pass first drains the decompressor and then walks the page;
    [goto loop] is the recursive call. *)
Fixpoint scan_next_loop `{ZSMvcc} `{ZSCodec} (fuel : nat) (rel : Relation)
    (scan : ZSBtreeScan) : result (ZSBtreeScan * option ScanTuple) :=
  match fuel with
  | O => OutOfFuel
  | S fuel =>
      let drained :=
        if scan_has_decompressed scan
        then scan_read_decompressed (scan_decompressor scan) (scan_nexttid scan)
        else None in
      match drained with
      | Some (item, stream) =>
          let tuple := scan_decode (scan_attno scan) (scan_snapshot scan) item in
          Ok (MkScan (scan_attno scan) (scan_snapshot scan) (scan_active scan)
                (scan_lastbuf scan) (scan_lastoff scan)
                (ItemPointerIncrement (st_tid tuple)) true stream,
              Some tuple)
      | None =>
          let decompressor :=
            if scan_has_decompressed scan then [] else scan_decompressor scan in
          let buf := scan_lastbuf scan in
          let* page := ReadBuffer rel buf in
          let opaque := ZSBtreePageGetOpaque page in
          match scan_page_items (pd_linp page) FirstOffsetNumber (scan_nexttid scan) with
          | HitCompressed item =>
              scan_next_loop fuel rel
                (MkScan (scan_attno scan) (scan_snapshot scan) (scan_active scan)
                   buf (scan_lastoff scan) (scan_nexttid scan)
                   true (zs_decompress_chunk item))
          | HitItem off item =>
              let tuple := scan_decode (scan_attno scan) (scan_snapshot scan) item in
              Ok (MkScan (scan_attno scan) (scan_snapshot scan) (scan_active scan)
                    buf off (ItemPointerIncrement (st_tid tuple)) false decompressor,
                  Some tuple)
          | NoHit =>
              (* No more items on this page. Walk right, if possible *)
              let next := zs_next opaque in
              if next =? buf then Err "btree page next-pointer points to itself"
              else if next =? InvalidBlockNumber then
                Ok (MkScan (scan_attno scan) (scan_snapshot scan) false
                      InvalidBuffer (scan_lastoff scan) (scan_nexttid scan)
                      false decompressor,
                    None)
              else
                let* _ := ReadBuffer rel next in
                scan_next_loop fuel rel
                  (MkScan (scan_attno scan) (scan_snapshot scan) (scan_active scan)
                     next (scan_lastoff scan) (scan_nexttid scan)
                     false decompressor)
          end
      end
  end.

(** [zsbt_scan_next]: the cursor afterwards, and the tuple when the
    function returns true ([None] when it returns false). *)
Definition zsbt_scan_next `{ZSMvcc} `{ZSCodec} (fuel : nat) (rel : Relation)
    (scan : ZSBtreeScan) : result (ZSBtreeScan * option ScanTuple) :=
  if negb (scan_active scan) then Ok (scan, None)
  else scan_next_loop fuel rel scan.

(* ===================================================================== *)
(** * The delete probe: [zsbt_scan_for_tuple_delete] *)
(* ===================================================================== *)

(** How [zsbt_scan_for_tuple_delete] returns: true, after it has
    called [zs_tuple_delete] on the row header of the item at [off] of
    [buf], or false. *)
Inductive delete_outcome : Type :=
  | TupleDeleteCalled (buf : Buffer) (off : OffsetNumber) (item : ZSBtreeItem)
  | TupleNotFound.

(** The walk over one page's items in the delete probe. *)
Fixpoint delete_page_items (items : list ZSBtreeItem) (off : OffsetNumber)
    (tid : ItemPointerData) : page_hit :=
  match items with
  | [] => NoHit
  | item :: items =>
      if item_is_compressed item then
        if ItemPointerCompare (t_lasttid item) tid >=? 0 then HitCompressed item
        else delete_page_items items (off + 1) tid
      else
        if ItemPointerCompare (t_tid item) tid >=? 0 then HitItem off item
        else delete_page_items items (off + 1) tid
  end.

(** The loops of [zsbt_scan_for_tuple_delete]; [buf] is the one loop
    variable.  As in the scan, the inner loop never falls through, so
    [goto loop] starts the next pass of the same loop, on the same
    buffer. *)
Fixpoint delete_loop (fuel : nat) (rel : Relation) (buf : Buffer)
    (tid : ItemPointerData) : result delete_outcome :=
  match fuel with
  | O => OutOfFuel
  | S fuel =>
      let* page := ReadBuffer rel buf in
      let opaque := ZSBtreePageGetOpaque page in
      match delete_page_items (pd_linp page) FirstOffsetNumber tid with
      | HitCompressed item =>
          (* TODO: lets deal with compressed items for delete later *)
          delete_loop fuel rel buf tid
      | HitItem off item => Ok (TupleDeleteCalled buf off item)
      | NoHit =>
          (* No more items on this page. Walk right, if possible *)
          let next := zs_next opaque in
          if next =? buf then Err "btree page next-pointer points to itself"
          else if next =? InvalidBlockNumber then Ok TupleNotFound
          else delete_loop fuel rel next tid
      end
  end.

Definition zsbt_scan_for_tuple_delete (fuel : nat) (rel : Relation)
    (tid : ItemPointerData) : result (delete_outcome * Relation) :=
  let attno := 1 in (* for delete scan only first column *)
  let '(rootblk, rel) := zsmeta_get_root_for_attribute rel attno false in
  if rootblk =? InvalidBlockNumber then Ok (TupleNotFound, rel)
  else
    let* buf := zsbt_descend fuel rel rootblk tid in
    let* outcome := delete_loop fuel rel buf tid in
    Ok (outcome, rel).

(* ===================================================================== *)
(** * Sequences of operations *)
(* ===================================================================== *)

(** Insert the datums one after the other under one attribute; each
    comes with the row header [zsbt_insert] stores for attribute 1.  The
    result is the list of TIDs assigned and the final relation. *)
Fixpoint insert_all `{ZSCodec} (fuel : nat) (rel : Relation) (attno : AttrNumber)
    (rows : list (list byte * list byte)) : result (list ItemPointerData * Relation) :=
  match rows with
  | [] => Ok ([], rel)
  | (datum, tupleheader) :: rows =>
      let* '(tid, rel) := zsbt_insert fuel rel attno datum tupleheader in
      let* '(tids, rel) := insert_all fuel rel attno rows in
      Ok (tid :: tids, rel)
  end.

(** Call [zsbt_scan_next] until it returns false, at most [calls]
    times, and collect what it hands back. *)
Fixpoint scan_all `{ZSMvcc} `{ZSCodec} (calls fuel : nat) (rel : Relation)
    (scan : ZSBtreeScan) : result (list ScanTuple) :=
  match calls with
  | O => OutOfFuel
  | S calls =>
      let* '(scan, out) := zsbt_scan_next fuel rel scan in
      match out with
      | None => Ok []
      | Some tuple =>
          let* tuples := scan_all calls fuel rel scan in
          Ok (tuple :: tuples)
      end
  end.

(** Begin a scan at [starttid] and run it to its end. *)
Definition scan_from `{ZSMvcc} `{ZSCodec} (calls fuel : nat) (rel : Relation)
    (attno : AttrNumber) (starttid : ItemPointerData) (snapshot : option Snapshot)
    : result (list ScanTuple) :=
  let* '(scan, rel) := zsbt_begin_scan fuel rel attno starttid snapshot blank_scan in
  scan_all calls fuel rel scan.

(* ===================================================================== *)
(** * Predicates on relations and pages *)
(* ===================================================================== *)

(** The allocator has handed out every block that holds a page; block
    0 is the metapage. *)
Definition blocks_allocated (rel : Relation) : Prop :=
  0 < rel_nblocks rel /\
  forall blk page, rel_pages rel !! blk = Some page -> 0 < blk < rel_nblocks rel.

(** Two versions of a page that differ at most in the flags of the
    trailer. *)
Definition same_but_flags (page page' : Page) : Prop :=
  pd_linp page' = pd_linp page /\
  pd_downlinks page' = pd_downlinks page /\
  zs_next (pd_opaque page') = zs_next (pd_opaque page) /\
  zs_lokey (pd_opaque page') = zs_lokey (pd_opaque page) /\
  zs_hikey (pd_opaque page') = zs_hikey (pd_opaque page) /\
  zs_level (pd_opaque page') = zs_level (pd_opaque page) /\
  zs_page_id (pd_opaque page') = zs_page_id (pd_opaque page).

(** Every leaf of [rel] is still there in [rel'], with the same items
    and the same trailer up to its flags. *)
Definition leaves_kept (rel rel' : Relation) : Prop :=
  forall blk page,
    rel_pages rel !! blk = Some page -> zs_level (pd_opaque page) = 0 ->
    exists page', rel_pages rel' !! blk = Some page' /\ same_but_flags page page'.

(** The split TID [zsbt_split_leaf] picks for a leaf. *)
Definition leaf_split_tid (page : Page) : ItemPointerData :=
  ItemPointerSet (wrap32 (ip_blkid (zs_lokey (pd_opaque page)) + 1)) 1.

(** The page invariant of the data model: "within a page, item TIDs
    are strictly increasing (for compressed runs, each run's
    [first_tid, last_tid] is disjoint from neighbors and the sequence of
    ranges is increasing)", and "every item TID t satisfies
    lokey <= t < hikey". *)
Definition item_last_tid (item : ZSBtreeItem) : ItemPointerData :=
  if item_is_compressed item then t_lasttid item else t_tid item.

Definition page_items_ordered (page : Page) : Prop :=
  (forall item, item ∈ pd_linp page -> tid_le (t_tid item) (item_last_tid item)) /\
  forall (i j : nat) x y,
    pd_linp page !! i = Some x -> pd_linp page !! j = Some y -> (i < j)%nat ->
    tid_lt (item_last_tid x) (t_tid y).

Definition page_items_in_range (page : Page) : Prop :=
  forall item, item ∈ pd_linp page ->
    tid_le (zs_lokey (pd_opaque page)) (t_tid item) /\
    tid_lt (item_last_tid item) (zs_hikey (pd_opaque page)).

(** The largest TID present on a page, as the claim about TID
    assignment words it: a compressed run counts with its last TID. *)
Definition tid_max (a b : ItemPointerData) : ItemPointerData :=
  if ItemPointerCompare a b >=? 0 then a else b.

Definition page_max_tid (page : Page) : option ItemPointerData :=
  match pd_linp page with
  | [] => None
  | item :: items => Some (foldl (fun m it => tid_max m (item_last_tid it))
                             (item_last_tid item) items)
  end.

(* ===================================================================== *)
(** * The codec contract and the contents of a tree *)
(* ===================================================================== *)

(** The items a compressor context holds: those it has accepted since
    the last [zs_compress_begin]. *)
Inductive compressor_holds `{ZSCodec} : ZSCompressContext -> list ZSBtreeItem -> Prop :=
  | holds_begin c free : compressor_holds (zs_compress_begin c free) []
  | holds_accept c items item c' :
      compressor_holds c items ->
      zs_compress_add c item = (true, c') ->
      compressor_holds c' (items ++ [item])
  | holds_reject c items item c' :
      compressor_holds c items ->
      zs_compress_add c item = (false, c') ->
      compressor_holds c' items.

(** Modelled from the spec: the codec is outside this file, and the
    core "only obeys its begin / add / finish / rejected? contract"; "a
    compressed run item carries (first_tid, last_tid)".  What the core
    relies on: finishing a run of uncompressed items gives a compressed
    item, of positive size, that carries the TID of its last item and
    decompresses to exactly the items put in. *)
Class ZSCodecLaws `{ZSCodec} : Prop := {
  zs_compress_finish_run : forall c items,
    compressor_holds c items -> items <> [] ->
    Forall (fun it => item_is_compressed it = false) items ->
    item_is_compressed (zs_compress_finish c).1 = true /\
    0 < t_size (zs_compress_finish c).1 /\
    zs_decompress_chunk (zs_compress_finish c).1 = items /\
    (t_tid <$> last items) = Some (t_lasttid (zs_compress_finish c).1)
}.

(** The uncompressed items a leaf item stands for, and those of a
    whole page. *)
Definition expand `{ZSCodec} (item : ZSBtreeItem) : list ZSBtreeItem :=
  if item_is_compressed item then zs_decompress_chunk item else [item].

Fixpoint items_contents `{ZSCodec} (items : list ZSBtreeItem) : list ZSBtreeItem :=
  match items with
  | [] => []
  | item :: items => expand item ++ items_contents items
  end.

Definition page_contents `{ZSCodec} (page : Page) : list ZSBtreeItem :=
  items_contents (pd_linp page).

(** The [k]-th TID a tree hands out. *)
Definition nth_tid (k : nat) : ItemPointerData := Nat.iter k ItemPointerIncrement MinTid.

(** A leaf item the scan can work with: of positive size, and if it is
    a run, with the TID of its last item in [t_lasttid]. *)
Definition item_ok `{ZSCodec} (item : ZSBtreeItem) : Prop :=
  0 < t_size item /\
  (item_is_compressed item = true ->
   (t_tid <$> last (zs_decompress_chunk item)) = Some (t_lasttid item)).

(** The items and line pointers of the page do not overlap. *)
Definition page_fits (page : Page) : Prop := pd_lower page <= pd_upper page.

Definition leaf_ok `{ZSCodec} (page : Page) : Prop :=
  zs_level (pd_opaque page) = 0 /\
  pd_downlinks page = [] /\
  Forall item_ok (pd_linp page) /\
  page_fits page.

(** The leaves from left to right: the [i]-th starts at (i,1) and
    links to the next; blocks were allocated in that order. *)
Definition leaf_chain `{ZSCodec} (rel : Relation) (leaves : list Z) : Prop :=
  (forall (i j : nat) a b, leaves !! i = Some a -> leaves !! j = Some b ->
     (i < j)%nat -> a < b) /\
  forall (i : nat) blk, leaves !! i = Some blk ->
    exists page,
      rel_pages rel !! blk = Some page /\ leaf_ok page /\
      zs_lokey (pd_opaque page) = ItemPointerSet (Z.of_nat i) 1 /\
      zs_next (pd_opaque page) = default InvalidBlockNumber (leaves !! S i).

Fixpoint tree_contents `{ZSCodec} (rel : Relation) (leaves : list Z) : list ZSBtreeItem :=
  match leaves with
  | [] => []
  | blk :: leaves =>
      match rel_pages rel !! blk with
      | Some page => page_contents page
      | None => []
      end ++ tree_contents rel leaves
  end.

(** A page of the right spine, at [level], above the page [child] whose
    low key is [child_lokey]. *)
Definition rpage_ok (page : Page) (level : Z) (child_lokey : ItemPointerData)
    (child : Z) : Prop :=
  zs_level (pd_opaque page) = level /\
  pd_linp page = [] /\
  items_strictly_sorted (pd_downlinks page) /\
  (2 <= length (pd_downlinks page))%nat /\
  last (pd_downlinks page) = Some (MkInternalItem child_lokey child) /\
  (tid <$> head (pd_downlinks page)) = Some (zs_lokey (pd_opaque page)) /\
  zs_hikey (pd_opaque page) = MaxTid.

(** The rightmost pages above [child], bottom up; the topmost is the
    root and starts at (0,1). *)
Fixpoint rspine (rel : Relation) (child : Z) (child_lokey : ItemPointerData)
    (level : Z) (up : list Z) : Prop :=
  match up with
  | [] => child_lokey = MinTid
  | b :: up =>
      exists page,
        rel_pages rel !! b = Some page /\
        rpage_ok page (level + 1) child_lokey child /\
        rspine rel b (zs_lokey (pd_opaque page)) (level + 1) up
  end.

(** A page of the left spine, at [level], above the page [child]. *)
Definition lpage_ok (page : Page) (level : Z) (child : Z) : Prop :=
  zs_level (pd_opaque page) = level /\
  pd_linp page = [] /\
  head (pd_downlinks page) = Some (MkInternalItem MinTid child) /\
  (forall (i : nat) item, pd_downlinks page !! S i = Some item -> tid_lt MinTid (tid item)) /\
  tid_lt MinTid (zs_hikey (pd_opaque page)).

Fixpoint lspine (rel : Relation) (child : Z) (level : Z) (lup : list Z) : Prop :=
  match lup with
  | [] => True
  | b :: lup =>
      exists page,
        rel_pages rel !! b = Some page /\
        lpage_ok page (level + 1) child /\
        lspine rel b (level + 1) lup
  end.

(** The topmost block of a spine that starts at [child]. *)
Definition spine_top (child : Z) (up : list Z) : Z := default child (last up).

(** Room left on the pages of the right spine, counted in downlinks
    beyond the two a new root starts with. *)
Fixpoint spine_slack (rel : Relation) (up : list Z) : Z :=
  match up with
  | [] => 0
  | b :: up =>
      match rel_pages rel !! b with
      | Some page => Z.of_nat (length (pd_downlinks page)) - 2
      | None => 0
      end + spine_slack rel up
  end.

(** The shape of a tree that has only ever been appended to, holding
    the items [G] in its leaves. *)
Record tree_inv `{ZSCodec} (rel : Relation) (attno : Z) (G : list ZSBtreeItem)
    (leaves up lup : list Z) : Prop := {
  ti_alloc : blocks_allocated rel;
  ti_leaves : leaf_chain rel leaves;
  ti_contents : tree_contents rel leaves = G;
  ti_tids : forall (k : nat) x, G !! k = Some x ->
              t_tid x = nth_tid k /\ item_is_compressed x = false;
  ti_last : exists lastblk lastpage,
              last leaves = Some lastblk /\
              rel_pages rel !! lastblk = Some lastpage /\
              (forall x, last (pd_linp lastpage) = Some x -> item_is_compressed x = false) /\
              (pd_linp lastpage = [] -> G = []) /\
              rspine rel lastblk (zs_lokey (pd_opaque lastpage)) 0 up /\
              rel_roots rel !! attno = Some (spine_top lastblk up);
  ti_first : exists firstblk,
               head leaves = Some firstblk /\
               lspine rel firstblk 0 lup /\
               rel_roots rel !! attno = Some (spine_top firstblk lup);
  ti_height : length lup = length up /\ (length up < length leaves)%nat;
  ti_count : rel_nblocks rel + spine_slack rel up <= 2 * Z.of_nat (length leaves);
  ti_leafcount : (length leaves <= Nat.max 1 (length G))%nat
}.

(** A row that fits on an empty leaf, with a full row header when the
    attribute stores one. *)
Definition row_fits (attno : Z) (row : list byte * list byte) : Prop :=
  MAXALIGN (t_size (form_item (MkInsertState attno row.1 row.2) MinTid))
    <= PageGetFreeSpace initial_root_page /\
  (attno = 1 -> (Z.to_nat SizeofHeapTupleHeader <= length row.2)%nat).

(** The items the rows become, the first at the [k]-th TID. *)
Fixpoint rows_items (attno : Z) (k : nat) (rows : list (list byte * list byte))
    : list ZSBtreeItem :=
  match rows with
  | [] => []
  | row :: rows =>
      form_item (MkInsertState attno row.1 row.2) (nth_tid k) :: rows_items attno (S k) rows
  end.

(** What the loop of [zsbt_compress_leaf] maintains: the scratch page
    and the run the compressor holds stand for the items of the live
    page before offset [cl_i]. *)
Definition compress_inv `{ZSCodec} (origpage : Page) (st : CompressLoop)
    (pending : list ZSBtreeItem) : Prop :=
  1 <= cl_i st /\ 0 <= cl_compressed_items st /\
  items_contents (pd_linp (cl_page st)) ++ pending
    = items_contents (take (Z.to_nat (cl_i st - 1)) (pd_linp origpage)) /\
  Forall (fun it => item_is_compressed it = false) pending /\
  (if decide (cl_compressed_items st > 0)
   then compressor_holds (cl_compressor st) pending /\ pending <> []
   else pending = []) /\
  Forall item_ok (pd_linp (cl_page st)) /\
  pd_downlinks (cl_page st) = [] /\
  pd_opaque (cl_page st) = pd_opaque origpage /\
  page_fits (cl_page st).

(** Where a scan stands that has handed out the first [k] items of
    [G]: it waits for the [k]-th TID on a leaf with nothing but
    handed-out items to its left, and the decompressor holds a stretch
    of [G] that starts at or before the [k]-th item. *)
Definition scan_inv `{ZSMvcc} `{ZSCodec} (rel : Relation) (leaves : list Z)
    (G : list ZSBtreeItem) (attno : Z) (snapshot : option Snapshot)
    (k : nat) (scan : ZSBtreeScan) : Prop :=
  scan_active scan = true /\
  scan_attno scan = attno /\
  scan_snapshot scan = snapshot /\
  scan_nexttid scan = nth_tid k /\
  (exists j : nat,
     leaves !! j = Some (scan_lastbuf scan) /\
     (length (tree_contents rel (take j leaves)) <= k)%nat) /\
  (scan_has_decompressed scan = true ->
   exists a : nat,
     (a <= k)%nat /\
     forall (i : nat) x, scan_decompressor scan !! i = Some x -> G !! (a + i)%nat = Some x).

(* ===================================================================== *)
(** * Sample data *)
(* ===================================================================== *)

(** Three downlinks, as an internal page holds them after two leaf
    splits. *)
Definition sample_downlinks : list ZSBtreeInternalPageItem :=
  [ MkInternalItem (ItemPointerSet 0 1) 1;
    MkInternalItem (ItemPointerSet 1 1) 2;
    MkInternalItem (ItemPointerSet 2 1) 3 ].

(** An internal page with ten downlinks, to leaves 1 to 10. *)
Definition sample_internal_page : Page :=
  MkPage []
    (map (fun b => MkInternalItem (ItemPointerSet (b - 1) 1) b) [1; 2; 3; 4; 5; 6; 7; 8; 9; 10])
    (MkOpaque InvalidBlockNumber MinTid MaxTid 1 0 ZS_BTREE_PAGE_ID).

(** A codec that takes every item and always hands back a run as large
    as a whole block, so that no run ever fits on the scratch page. *)
Definition bloating_codec : ZSCodec := {|
  ZSCompressContext := unit;
  zs_compress_init := tt;
  zs_compress_begin := fun c _ => c;
  zs_compress_add := fun c _ => (true, c);
  zs_compress_finish := fun c =>
    (MkItem (ItemPointerSet 0 1) BLCKSZ ZSBT_COMPRESSED (ItemPointerSet 0 1) [], c);
  zs_decompress_chunk := fun _ => []
|}.

(** A codec that always refuses: every item stays uncompressed. *)
Definition refusing_codec : ZSCodec := {|
  ZSCompressContext := unit;
  zs_compress_init := tt;
  zs_compress_begin := fun c _ => c;
  zs_compress_add := fun c _ => (false, c);
  zs_compress_finish := fun c =>
    (MkItem (ItemPointerSet 0 0) 0 ZSBT_COMPRESSED (ItemPointerSet 0 0) [], c);
  zs_decompress_chunk := fun _ => []
|}.

(** A codec that packs each item into a run of its own: it takes an
    item when it holds none, and the run is that item with the
    compressed flag set. *)
Definition marking_codec : ZSCodec := {|
  ZSCompressContext := option ZSBtreeItem;
  zs_compress_init := None;
  zs_compress_begin := fun _ _ => None;
  zs_compress_add := fun c item =>
    match c with
    | None =>
        if (t_flags item =? 0) && ItemPointerEquals (t_lasttid item) (t_tid item)
           && (0 <? t_size item)
        then (true, Some item) else (false, c)
    | Some _ => (false, c)
    end;
  zs_compress_finish := fun c =>
    match c with
    | Some item =>
        (MkItem (t_tid item) (t_size item) ZSBT_COMPRESSED (t_tid item) (t_payload item), None)
    | None => (MkItem (ItemPointerSet 0 0) 0 ZSBT_COMPRESSED (ItemPointerSet 0 0) [], None)
    end;
  zs_decompress_chunk := fun item =>
    [MkItem (t_tid item) (t_size item) 0 (t_lasttid item) (t_payload item)]
|}.

(** An uncompressed item of attribute 2 holding the given datum. *)
Definition sample_item (off : Z) (datum : list byte) : ZSBtreeItem :=
  form_item (MkInsertState 2 datum []) (ItemPointerSet 0 off).

(** A relation whose tree for attribute 2 is one root leaf, at block 1,
    with two items. *)
Definition sample_leaf : Page :=
  MkPage [sample_item 1 [x01]; sample_item 2 [x02]] []
    (MkOpaque InvalidBlockNumber MinTid MaxTid 0 0 ZS_BTREE_PAGE_ID).

Definition sample_relation : Relation :=
  MkRel {[ 1 := sample_leaf ]} 2 {[ 2 := 1 ]}.

(** A datum of 4000 bytes: two of them fill a leaf. *)
Definition big_datum : list byte := replicate 4000 x00.

(** Three rows for attribute 2, of 4000 bytes each. *)
Definition sample_rows : list (list byte * list byte) :=
  [(big_datum, []); (big_datum, []); (big_datum, [])].

(** A relation whose tree for attribute 2 is one root leaf, at block 1,
    filled by two large items: the next insertion splits it. *)
Definition full_leaf : Page :=
  MkPage [sample_item 1 big_datum; sample_item 2 big_datum] []
    (MkOpaque InvalidBlockNumber MinTid MaxTid 0 0 ZS_BTREE_PAGE_ID).

Definition full_relation : Relation :=
  MkRel {[ 1 := full_leaf ]} 2 {[ 2 := 1 ]}.

(** The relation right after [zsbt_split_leaf] has split the full root
    leaf of [full_relation] for a third large item and before it
    inserts the downlink: the left page carries [ZS_FOLLOW_RIGHT]. *)
Definition after_leaf_split : Relation :=
  MkRel
    (<[ 2 := MkPage [sample_item 3 big_datum] []
               (MkOpaque InvalidBlockNumber (ItemPointerSet 1 1) MaxTid 0 0 ZS_BTREE_PAGE_ID) ]>
     {[ 1 := MkPage (pd_linp full_leaf) []
               (MkOpaque 2 MinTid (ItemPointerSet 1 1) 0 ZS_FOLLOW_RIGHT ZS_BTREE_PAGE_ID) ]})
    3 {[ 2 := 1 ]}.

(** A compressed run that stands for the items (0,1) to (0,5). *)
Definition sample_run : ZSBtreeItem :=
  MkItem (ItemPointerSet 0 1) 64 ZSBT_COMPRESSED (ItemPointerSet 0 5) [].

(** A relation whose trees for attributes 1 and 2 are one root leaf
    each, at blocks 1 and 2, holding that run and nothing else. *)
Definition run_leaf : Page :=
  MkPage [sample_run] [] (MkOpaque InvalidBlockNumber MinTid MaxTid 0 0 ZS_BTREE_PAGE_ID).

Definition run_relation : Relation :=
  MkRel (<[ 2 := run_leaf ]> {[ 1 := run_leaf ]}) 3 (<[ 2 := 2 ]> {[ 1 := 1 ]}).

(** A visibility oracle that sees every tuple. *)
Definition all_visible : ZSMvcc := {|
  Snapshot := unit;
  zs_tuple_satisfies_visibility := fun _ _ _ => true
|}.

(** A relation whose tree for attribute 2 has two leaves, at blocks 1
    and 2, under a root at block 3, as two leaf splits' worth of
    insertions would leave it. *)
Definition two_leaf_root : Page :=
  MkPage [] [MkInternalItem MinTid 1; MkInternalItem (ItemPointerSet 1 1) 2]
    (MkOpaque InvalidBlockNumber MinTid MaxTid 1 0 ZS_BTREE_PAGE_ID).

Definition two_leaf_relation : Relation :=
  MkRel
    (<[ 3 := two_leaf_root ]>
     (<[ 2 := MkPage [sample_item 3 big_datum] []
                (MkOpaque InvalidBlockNumber (ItemPointerSet 1 1) MaxTid 0 0 ZS_BTREE_PAGE_ID) ]>
      {[ 1 := MkPage (pd_linp full_leaf) []
                (MkOpaque 2 MinTid (ItemPointerSet 1 1) 0 0 ZS_BTREE_PAGE_ID) ]}))
    4 {[ 2 := 3 ]}.

(** A datum that does not fit on a page. *)
Definition huge_datum : list byte := replicate 9000 x00.

(** A row header of 23 bytes, and a relation whose tree for attribute 1
    is one root leaf with the items (0,1) and (0,3). *)
Definition sample_header : list byte := replicate 23 x00.

Definition gap_leaf : Page :=
  MkPage [form_item (MkInsertState 1 [x01] sample_header) (ItemPointerSet 0 1);
          form_item (MkInsertState 1 [x03] sample_header) (ItemPointerSet 0 3)] []
    (MkOpaque InvalidBlockNumber MinTid MaxTid 0 0 ZS_BTREE_PAGE_ID).

Definition gap_relation : Relation :=
  MkRel {[ 1 := gap_leaf ]} 2 {[ 1 := 1 ]}.

(** A relation whose tree for attribute 2 has [sample_internal_page] as
    its root, at block 12, when the tenth leaf, block 10, has just been
    split and its new right sibling, block 11, waits for its downlink.
    Only these three pages are spelled out. *)
Definition ten_leaf_relation : Relation :=
  MkRel (<[ 12 := sample_internal_page ]>
         (<[ 11 := MkPage [] [] (MkOpaque InvalidBlockNumber (ItemPointerSet 10 1) MaxTid
                                   0 0 ZS_BTREE_PAGE_ID) ]>
          {[ 10 := MkPage [] [] (MkOpaque 11 (ItemPointerSet 9 1) (ItemPointerSet 10 1)
                                   0 ZS_FOLLOW_RIGHT ZS_BTREE_PAGE_ID) ]}))
        13 {[ 2 := 12 ]}.

(* ===================================================================== *)
(** * Properties of the TID order *)
(* ===================================================================== *)

Ltac tid_cases :=
  unfold tid_lt, tid_le, ItemPointerCompare in *;
  repeat match goal with
         | |- context [?a <? ?b] => destruct (Z.ltb_spec a b)
         | H : context [?a <? ?b] |- _ => destruct (Z.ltb_spec a b)
         end.

Ltac tid_order := tid_cases; try lia.

Lemma tid_le_refl a : tid_le a a.
Proof. tid_order. Qed.

Lemma tid_lt_irrefl a : ~ tid_lt a a.
Proof. tid_order. Qed.

Lemma tid_lt_le a b : tid_lt a b -> tid_le a b.
Proof. tid_order. Qed.

Lemma tid_le_lt_trans a b c : tid_le a b -> tid_lt b c -> tid_lt a c.
Proof. tid_order. Qed.

Lemma tid_lt_le_trans a b c : tid_lt a b -> tid_le b c -> tid_lt a c.
Proof. tid_order. Qed.

Lemma tid_lt_trans a b c : tid_lt a b -> tid_lt b c -> tid_lt a c.
Proof. tid_order. Qed.

Lemma tid_le_trans a b c : tid_le a b -> tid_le b c -> tid_le a c.
Proof. tid_order. Qed.

Lemma tid_le_or_lt a b : tid_le a b \/ tid_lt b a.
Proof. tid_order. Qed.

Lemma tid_le_not_lt a b : tid_le a b <-> ~ tid_lt b a.
Proof. tid_order. Qed.

Lemma tid_lt_not_le a b : tid_lt a b <-> ~ tid_le b a.
Proof. tid_order. Qed.

Lemma tid_le_antisym a b : tid_le a b -> tid_le b a -> a = b.
Proof. destruct a, b; simpl. tid_cases; simpl in *; intros; try lia. f_equal; lia. Qed.

Lemma tid_compare_ge a b : (ItemPointerCompare a b >=? 0) = true <-> tid_le b a.
Proof. unfold tid_le. rewrite Z.geb_le. lia. Qed.

Lemma tid_compare_ge_false a b : (ItemPointerCompare a b >=? 0) = false <-> tid_lt a b.
Proof.
  unfold tid_lt. destruct (ItemPointerCompare a b >=? 0) eqn:E.
  - apply Z.geb_le in E. split; [discriminate | lia].
  - split; [|done]. intros _. rewrite Z.geb_leb in E. apply Z.leb_gt in E. lia.
Qed.

Lemma tid_compare_lt a b : (ItemPointerCompare a b <? 0) = true <-> tid_lt a b.
Proof. unfold tid_lt. apply Z.ltb_lt. Qed.

Lemma ItemPointerEquals_eq a b : ItemPointerEquals a b = true <-> a = b.
Proof.
  destruct a, b; unfold ItemPointerEquals; simpl.
  rewrite andb_true_iff, !Z.eqb_eq. split; [intros []; congruence | intros [= -> ->]; done].
Qed.

(* ===================================================================== *)
(** * Binary search on an internal page *)
(* ===================================================================== *)

Lemma arr_get_lookup (arr : list ZSBtreeInternalPageItem) (i : nat) x :
  arr !! i = Some x -> arr_get arr (Z.of_nat i) = x.
Proof.
  intros H. unfold arr_get.
  destruct (Z.ltb_spec (Z.of_nat i) 0); [lia|].
  rewrite Nat2Z.id. by apply list_lookup_total_correct.
Qed.

Lemma arr_get_in_range (arr : list ZSBtreeInternalPageItem) (i : Z) :
  0 <= i < Z.of_nat (length arr) -> arr !! Z.to_nat i = Some (arr_get arr i).
Proof.
  intros H. destruct (lookup_lt_is_Some_2 arr (Z.to_nat i)) as [x Hx]; [lia|].
  rewrite Hx. f_equal. rewrite <- (arr_get_lookup arr (Z.to_nat i) x Hx).
  f_equal. lia.
Qed.

Lemma items_sorted_get arr i j :
  items_sorted arr -> 0 <= i <= j -> j < Z.of_nat (length arr) ->
  tid_le (tid (arr_get arr i)) (tid (arr_get arr j)).
Proof.
  intros Hs Hi Hj.
  apply (Hs (Z.to_nat i) (Z.to_nat j)); try apply arr_get_in_range; lia.
Qed.

Lemma items_strictly_sorted_sorted arr : items_strictly_sorted arr -> items_sorted arr.
Proof.
  intros Hs i j x y Hi Hj Hle.
  destruct (decide (i = j)) as [->|].
  - assert (x = y) as -> by congruence. apply tid_le_refl.
  - apply tid_lt_le, (Hs i j); auto. lia.
Qed.

(** The loop invariant: everything left of [low] is at most the key,
    everything from [high] on is above it. *)
Lemma binsrch_loop_spec key arr low high :
  items_sorted arr ->
  0 <= low <= high -> high <= Z.of_nat (length arr) ->
  (forall i, 0 <= i < low -> tid_le (tid (arr_get arr i)) key) ->
  (forall i, high <= i < Z.of_nat (length arr) -> tid_lt key (tid (arr_get arr i))) ->
  let r := binsrch_loop key arr low high in
  low <= r <= high /\
  (forall i, 0 <= i < r -> tid_le (tid (arr_get arr i)) key) /\
  (forall i, r <= i < Z.of_nat (length arr) -> tid_lt key (tid (arr_get arr i))).
Proof.
  intros Hs. funelim (binsrch_loop key arr low high); intros Hlh Hn Hlo Hhi; cbv zeta.
  - (* high > low *)
    clear Heqcall Heq.
    set (mid := low + (high - low) ÷ 2) in *.
    assert (low <= mid < high) as Hmid.
    { pose proof (Z.quot_pos (high - low) 2). pose proof (Z.quot_lt (high - low) 2).
      subst mid. lia. }
    destruct (ItemPointerCompare key (tid (arr_get arr mid)) >=? 0) eqn:Hc.
    + apply tid_compare_ge in Hc.
      destruct (H Hs) as (? & ? & ?); try lia.
      * intros i Hi. apply tid_le_trans with (tid (arr_get arr mid)); [|done].
        apply items_sorted_get; auto; lia.
      * done.
      * repeat split; auto; lia.
    + apply tid_compare_ge_false in Hc.
      destruct (H0 Hs) as (? & ? & ?); try lia.
      * done.
      * intros i Hi. apply tid_lt_le_trans with (tid (arr_get arr mid)); [done|].
        apply items_sorted_get; auto; lia.
      * repeat split; auto; lia.
  - (* high <= low *)
    assert (low = high) as -> by lia. repeat split; auto; lia.
Qed.

(** The result of the search, characterised: it is the one index [r]
    in [-1 .. n-1] with every key up to [r] at most [key] and every key
    after [r] above [key]. *)
Lemma binsrch_internal_char key arr :
  items_sorted arr ->
  let r := zsbt_binsrch_internal key arr (Z.of_nat (length arr)) in
  -1 <= r < Z.of_nat (length arr) /\
  (forall i, 0 <= i <= r -> tid_le (tid (arr_get arr i)) key) /\
  (forall i, r < i < Z.of_nat (length arr) -> tid_lt key (tid (arr_get arr i))).
Proof.
  intros Hs. unfold zsbt_binsrch_internal.
  destruct (binsrch_loop_spec key arr 0 (Z.of_nat (length arr)) Hs) as (? & ? & ?);
    try lia.
  repeat split; try lia; intros; auto with lia.
Qed.

Lemma binsrch_internal_unique key arr r :
  items_sorted arr ->
  -1 <= r < Z.of_nat (length arr) ->
  (forall i, 0 <= i <= r -> tid_le (tid (arr_get arr i)) key) ->
  (forall i, r < i < Z.of_nat (length arr) -> tid_lt key (tid (arr_get arr i))) ->
  zsbt_binsrch_internal key arr (Z.of_nat (length arr)) = r.
Proof.
  intros Hs Hr Hle Hgt.
  destruct (binsrch_internal_char key arr Hs) as (Hr' & Hle' & Hgt').
  set (r' := zsbt_binsrch_internal _ _ _) in *.
  destruct (Z.lt_trichotomy r' r) as [Hlt | [-> | Hlt]]; [|done|].
  - exfalso. apply (tid_lt_irrefl key).
    apply tid_lt_le_trans with (tid (arr_get arr r)); [apply Hgt'|apply Hle]; lia.
  - exfalso. apply (tid_lt_irrefl key).
    apply tid_lt_le_trans with (tid (arr_get arr r')); [apply Hgt|apply Hle']; lia.
Qed.

(** The search finds the partition point of any array that has one,
    sorted or not. *)
Lemma binsrch_loop_partition key arr low high r :
  (forall i, 0 <= i <= r -> tid_le (tid (arr_get arr i)) key) ->
  (forall i, r < i < Z.of_nat (length arr) -> tid_lt key (tid (arr_get arr i))) ->
  0 <= low <= r + 1 -> r + 1 <= high <= Z.of_nat (length arr) ->
  binsrch_loop key arr low high = r + 1.
Proof.
  intros Hle Hgt. funelim (binsrch_loop key arr low high); intros Hlow Hhigh; cbv zeta.
  - clear Heqcall Heq.
    set (mid := low + (high - low) ÷ 2) in *.
    assert (low <= mid < high) as Hmid.
    { pose proof (Z.quot_pos (high - low) 2). pose proof (Z.quot_lt (high - low) 2).
      subst mid. lia. }
    destruct (ItemPointerCompare key (tid (arr_get arr mid)) >=? 0) eqn:Hc.
    + apply tid_compare_ge in Hc. apply H; auto; try lia.
      destruct (Z.le_gt_cases mid r); [lia|]. exfalso.
      apply (tid_lt_irrefl key). eapply tid_lt_le_trans; [apply Hgt|exact Hc]. lia.
    + apply tid_compare_ge_false in Hc. apply H0; auto; try lia.
      destruct (Z.le_gt_cases mid r); [|lia]. exfalso.
      apply (tid_lt_irrefl key). eapply tid_lt_le_trans; [exact Hc|apply Hle]. lia.
  - lia.
Qed.

Lemma binsrch_internal_partition key arr r :
  -1 <= r < Z.of_nat (length arr) ->
  (forall i, 0 <= i <= r -> tid_le (tid (arr_get arr i)) key) ->
  (forall i, r < i < Z.of_nat (length arr) -> tid_lt key (tid (arr_get arr i))) ->
  zsbt_binsrch_internal key arr (Z.of_nat (length arr)) = r.
Proof.
  intros Hr Hle Hgt. unfold zsbt_binsrch_internal.
  rewrite (binsrch_loop_partition key arr 0 _ r); auto; lia.
Qed.

(** C9.  On a sorted array, [zsbt_binsrch_internal] returns the index
    of the rightmost element whose TID is at most the key: an element
    is at most the key exactly when its index is at most the result.
    The result is -1 exactly when the array is empty or the key is below
    the first element.  A key equal to an element and any larger key
    that is still below the next element get the same index. *)
Theorem zsbt_binsrch_internal_rightmost key (arr : list ZSBtreeInternalPageItem) :
  items_sorted arr ->
  let r := zsbt_binsrch_internal key arr (Z.of_nat (length arr)) in
  -1 <= r < Z.of_nat (length arr) /\
  (forall (i : nat) x, arr !! i = Some x -> tid_le (tid x) key <-> Z.of_nat i <= r) /\
  (r = -1 <-> arr = [] \/ exists x, arr !! 0%nat = Some x /\ tid_lt key (tid x)) /\
  (forall (i : nat) x, arr !! i = Some x -> tid x = key ->
     (forall y, arr !! S i = Some y -> tid_lt key (tid y)) -> r = Z.of_nat i) /\
  (forall key', tid_le key key' ->
     (forall y, arr !! Z.to_nat (r + 1) = Some y -> tid_lt key' (tid y)) ->
     zsbt_binsrch_internal key' arr (Z.of_nat (length arr)) = r).
Proof.
  intros Hs r.
  destruct (binsrch_internal_char key arr Hs) as (Hr & Hle & Hgt). fold r in Hr, Hle, Hgt.
  split; [done|]. split; [|split; [|split]].
  - intros i x Hx. pose proof (lookup_lt_Some _ _ _ Hx) as Hlen.
    rewrite <- (arr_get_lookup _ _ _ Hx). split.
    + intros Hk. destruct (Z.le_gt_cases (Z.of_nat i) r) as [|Hlt]; [done|].
      exfalso. apply (tid_lt_irrefl key).
      apply tid_lt_le_trans with (tid (arr_get arr (Z.of_nat i))); [apply Hgt; lia|done].
    + intros Hi. apply Hle. lia.
  - split.
    + intros Hm1. destruct arr as [|x arr']; [by left|right].
      exists x. split; [done|]. specialize (Hgt 0). simpl in Hgt.
      apply Hgt. simpl. lia.
    + intros [-> | (x & Hx & Hlt)]; [simpl in Hr; lia|].
      destruct (Z.eq_dec r (-1)) as [|Hne]; [done|]. exfalso.
      apply (tid_lt_irrefl key). apply tid_lt_le_trans with (tid x); [done|].
      rewrite <- (arr_get_lookup _ _ _ Hx). apply Hle. lia.
  - intros i x Hx Hk Hnext. pose proof (lookup_lt_Some _ _ _ Hx) as Hlen.
    apply (binsrch_internal_unique key arr (Z.of_nat i) Hs); [lia| |].
    + intros j Hj. subst key. rewrite <- (arr_get_lookup _ _ _ Hx).
      apply items_sorted_get; auto; lia.
    + intros j Hj.
      destruct (lookup_lt_is_Some_2 arr (S i)) as [y Hy]; [lia|].
      apply tid_lt_le_trans with (tid y); [by apply Hnext|].
      rewrite <- (arr_get_lookup _ _ _ Hy). apply items_sorted_get; auto; lia.
  - intros key' Hkk Hnext.
    apply (binsrch_internal_unique key' arr r Hs); [done| |].
    + intros i Hi. apply tid_le_trans with key; auto.
    + intros i Hi.
      assert (arr !! Z.to_nat (r + 1) = Some (arr_get arr (r + 1))) as Hy
        by (apply arr_get_in_range; lia).
      apply tid_lt_le_trans with (tid (arr_get arr (r + 1))); [by apply Hnext|].
      apply items_sorted_get; auto; lia.
Qed.

(** A checker for sortedness of a concrete downlink array. *)
Lemma items_sorted_cons x arr :
  items_sorted arr ->
  (forall y, y ∈ arr -> tid_le (tid x) (tid y)) ->
  items_sorted (x :: arr).
Proof.
  intros Hs Hx [|i] [|j] a b Ha Hb Hij; simpl in Ha, Hb.
  - injection Ha as <-. injection Hb as <-. apply tid_le_refl.
  - injection Ha as <-. apply Hx. by eapply list_elem_of_lookup_2.
  - lia.
  - apply (Hs i j); auto. lia.
Qed.

Lemma items_sorted_nil : items_sorted [].
Proof. intros i j x y Hi. by rewrite lookup_nil in Hi. Qed.

Ltac items_sorted_by_cases :=
  repeat apply items_sorted_cons; try apply items_sorted_nil;
  intros ? Hy; repeat (apply elem_of_cons in Hy as [-> | Hy]);
  try (by apply elem_of_nil in Hy); vm_compute; congruence.

Lemma sample_downlinks_sorted : items_sorted sample_downlinks.
Proof. items_sorted_by_cases. Qed.

(** The search on a three-element array with the key on the middle
    element. *)
Lemma zsbt_binsrch_internal_rightmost_witness :
  items_sorted sample_downlinks /\
  zsbt_binsrch_internal (ItemPointerSet 1 1) sample_downlinks 3 = 1.
Proof.
  split; [exact sample_downlinks_sorted|].
  pose proof (zsbt_binsrch_internal_rightmost (ItemPointerSet 1 1) sample_downlinks
                sample_downlinks_sorted) as (_ & _ & _ & Heq & _).
  apply (Heq 1%nat (MkInternalItem (ItemPointerSet 1 1) 2)); [reflexivity|reflexivity|].
  intros y [= <-]. vm_compute. reflexivity.
Defined.


(* ===================================================================== *)
(** * The internal split distributes the downlinks 90/10 *)
(* ===================================================================== *)

(** The split point is the integer part of nine tenths of the count. *)
Lemma split_internal_point_floor n : 0 <= n -> split_internal_point n = 9 * n / 10.
Proof.
  intros Hn. unfold split_internal_point.
  rewrite Z.quot_div_nonneg by lia. f_equal. lia.
Qed.

Lemma split_internal_point_range n :
  0 < n -> 0 <= split_internal_point n < n.
Proof.
  intros Hn. rewrite split_internal_point_floor by lia. split.
  - apply Z.div_pos; lia.
  - apply Z.div_lt_upper_bound; lia.
Qed.

Ltac list_norm := rewrite <- ?app_assoc, ?app_nil_r; simpl; rewrite <- ?app_assoc, ?app_nil_r; reflexivity.

(** Once the loop index is past [newoff], the loop only distributes
    what is left of the original array around the split point. *)
Lemma split_internal_copy_after rest : forall i newoff onleft sp new L R,
  newoff < i ->
  split_internal_copy rest i newoff onleft sp new L R
  = (L ++ take (Z.to_nat (sp - i)) rest, R ++ drop (Z.to_nat (sp - i)) rest).
Proof.
  induction rest as [|item rest IH]; intros i newoff onleft sp new L R Hi; simpl.
  - destruct (Z.leb_spec i newoff); [lia|]. rewrite take_nil, drop_nil. list_norm.
  - destruct (Z.eqb_spec i newoff); [lia|].
    destruct (Z.ltb_spec i sp).
    + rewrite IH by lia.
      replace (Z.to_nat (sp - i)) with (S (Z.to_nat (sp - (i + 1)))) by lia.
      list_norm.
    + rewrite IH by lia.
      replace (Z.to_nat (sp - i)) with 0%nat by lia.
      replace (Z.to_nat (sp - (i + 1))) with 0%nat by lia.
      list_norm.
Qed.

(** Up to [newoff], the loop distributes the original items and drops
    the new one in front of [origitems[newoff]], or after the last item
    when [newoff] is the count. *)
Lemma split_internal_copy_before rest : forall i newoff onleft sp new L R,
  i <= newoff ->
  split_internal_copy rest i newoff onleft sp new L R
  = let k := Z.to_nat (newoff - i) in
    let s := Z.to_nat (sp - i) in
    if decide (k < length rest)%nat then
      if onleft
      then (L ++ take s (take k rest) ++ new :: take (s - k) (drop k rest),
            R ++ drop s (take k rest) ++ drop (s - k) (drop k rest))
      else (L ++ take s (take k rest) ++ take (s - k) (drop k rest),
            R ++ drop s (take k rest) ++ new :: drop (s - k) (drop k rest))
    else (L ++ take s rest, R ++ drop s rest ++ [new]).
Proof.
  induction rest as [|item rest IH]; intros i newoff onleft sp new L R Hi; cbv zeta.
  - cbn [split_internal_copy]. destruct (Z.leb_spec i newoff); [|lia].
    destruct (decide _) as [Hk|Hk]; [simpl in Hk; lia|].
    rewrite take_nil, drop_nil. list_norm.
  - cbn [split_internal_copy]. destruct (Z.eqb_spec i newoff) as [->|Hne].
    + (* the new item goes in here *)
      replace (Z.to_nat (newoff - newoff)) with 0%nat by lia.
      destruct (decide _) as [Hk|Hk]; [|simpl in Hk; lia].
      rewrite take_0, drop_0, Nat.sub_0_r, take_nil, drop_nil.
      destruct onleft; destruct (Z.ltb_spec newoff sp);
        rewrite split_internal_copy_after by lia;
        [ replace (Z.to_nat (sp - newoff)) with (S (Z.to_nat (sp - (newoff + 1)))) by lia
        | replace (Z.to_nat (sp - newoff)) with 0%nat by lia;
          replace (Z.to_nat (sp - (newoff + 1))) with 0%nat by lia
        | replace (Z.to_nat (sp - newoff)) with (S (Z.to_nat (sp - (newoff + 1)))) by lia
        | replace (Z.to_nat (sp - newoff)) with 0%nat by lia;
          replace (Z.to_nat (sp - (newoff + 1))) with 0%nat by lia ];
        list_norm.
    + (* not yet *)
      assert (i + 1 <= newoff) as Hi' by lia.
      replace (Z.to_nat (newoff - i)) with (S (Z.to_nat (newoff - (i + 1)))) by lia.
      set (k := Z.to_nat (newoff - (i + 1))).
      destruct (Z.ltb_spec i sp).
      * rewrite IH by lia. cbv zeta. fold k.
        replace (Z.to_nat (sp - i)) with (S (Z.to_nat (sp - (i + 1)))) by lia.
        set (s := Z.to_nat (sp - (i + 1))).
        replace (S s - S k)%nat with (s - k)%nat by lia.
        destruct (decide (k < length rest)%nat);
          (destruct (decide (S k < length (item :: rest))%nat) as [Hk|Hk];
           simpl in Hk; try lia).
        -- destruct onleft; list_norm.
        -- list_norm.
      * rewrite IH by lia. cbv zeta. fold k.
        replace (Z.to_nat (sp - i)) with 0%nat by lia.
        replace (Z.to_nat (sp - (i + 1))) with 0%nat by lia.
        rewrite !take_0, !drop_0. simpl Nat.sub.
        destruct (decide (k < length rest)%nat);
          (destruct (decide (S k < length (item :: rest))%nat) as [Hk|Hk];
           simpl in Hk; try lia).
        -- rewrite ?take_0, ?drop_0. destruct onleft; list_norm.
        -- list_norm.
Qed.

(** Sortedness by positions is the standard library's strong
    sortedness. *)
Lemma sorted_by_index_strict {A} (R : relation A) (l : list A) :
  (forall (i j : nat) x y, l !! i = Some x -> l !! j = Some y -> (i < j)%nat -> R x y)
  <-> StronglySorted R l.
Proof.
  induction l as [|a l IH].
  - split; [constructor|]. intros _ i j x y Hi. by rewrite lookup_nil in Hi.
  - rewrite StronglySorted_cons, Forall_forall, <- IH. split.
    + intros H. split.
      * intros y Hy. apply list_elem_of_lookup_1 in Hy as [j Hj].
        apply (H 0%nat (S j)); auto. lia.
      * intros i j x y Hi Hj Hij. apply (H (S i) (S j)); auto. lia.
    + intros [Ha Hl] [|i] [|j] x y Hi Hj Hij; simpl in Hi, Hj; try lia.
      * injection Hi as <-. apply Ha. by eapply list_elem_of_lookup_2.
      * apply (Hl i j); auto. lia.
Qed.

Lemma items_strictly_sorted_iff arr :
  items_strictly_sorted arr <-> StronglySorted key_lt arr.
Proof. apply (sorted_by_index_strict key_lt). Qed.

Lemma items_sorted_iff arr : items_sorted arr <-> StronglySorted key_le arr.
Proof.
  rewrite <- (sorted_by_index_strict key_le). split.
  - intros H i j x y Hi Hj Hij. apply (H i j); auto. lia.
  - intros H i j x y Hi Hj Hij. destruct (decide (i = j)) as [->|].
    + assert (x = y) as -> by congruence. apply tid_le_refl.
    + apply (H i j); auto. lia.
Qed.

Lemma items_sorted_insert_at arr (k : nat) new :
  items_sorted arr ->
  (forall x, x ∈ take k arr -> key_le x new) ->
  (forall y, y ∈ drop k arr -> key_le new y) ->
  items_sorted (insert_at k new arr).
Proof.
  rewrite !items_sorted_iff. intros Hs Hlo Hhi. unfold insert_at.
  rewrite <- (take_drop k arr) in Hs.
  apply StronglySorted_app in Hs as (Hx & Hl & Hr).
  apply StronglySorted_app_2; [|done|].
  - intros x1 x2 H1 H2. apply elem_of_cons in H2 as [->|H2]; [by apply Hlo|].
    by apply Hx.
  - apply StronglySorted_cons. split; [|done]. by apply Forall_forall.
Qed.

(** The two halves [zsbt_split_internal] hands out, when it is called
    the way [zsbt_insert_downlink] calls it: on a sorted array, with
    [newoff] one past the search result for [newkey]. *)
Lemma split_internal_copy_sorted origitems newkey childblkno :
  let n := Z.of_nat (length origitems) in
  let newoff := zsbt_binsrch_internal newkey origitems n + 1 in
  let splitpoint := split_internal_point n in
  let splittid := tid (arr_get origitems splitpoint) in
  let newitem := MkInternalItem newkey childblkno in
  let k := Z.to_nat newoff in
  let s := Z.to_nat splitpoint in
  items_sorted origitems -> 0 < n ->
  split_internal_copy origitems 0 newoff (ItemPointerCompare newkey splittid <? 0)
    splitpoint newitem [] []
  = if decide (tid_lt newkey splittid)
    then (insert_at k newitem (take s origitems), drop s origitems)
    else (take s origitems, insert_at (k - s) newitem (drop s origitems)).
Proof.
  intros n newoff splitpoint splittid newitem k s Hs Hn.
  destruct (binsrch_internal_char newkey origitems Hs) as (Hr & Hle & Hgt).
  fold n in Hr, Hle, Hgt.
  pose proof (split_internal_point_range n Hn) as Hsp. fold splitpoint in Hsp.
  assert (tid_lt newkey splittid <-> newoff <= splitpoint) as Hside.
  { subst splittid newoff. split.
    - intros Hlt. destruct (Z.le_gt_cases (zsbt_binsrch_internal newkey origitems n + 1)
                              splitpoint) as [|Hgt']; [done|].
      exfalso. apply (tid_lt_irrefl newkey).
      eapply tid_lt_le_trans; [exact Hlt|]. apply Hle. lia.
    - intros Hle'. apply Hgt. lia. }
  rewrite split_internal_copy_before by (subst newoff; lia). cbv zeta.
  replace (Z.to_nat (newoff - 0)) with k by lia.
  replace (Z.to_nat (splitpoint - 0)) with s by lia.
  assert (k <= length origitems)%nat as Hk by (subst k newoff n; lia).
  assert (s < length origitems)%nat as Hs' by (subst s n; lia).
  unfold insert_at.
  destruct (decide (tid_lt newkey splittid)) as [Hlt|Hnlt].
  - pose proof (proj2 (tid_compare_lt _ _) Hlt) as ->.
    apply Hside in Hlt. assert (k <= s)%nat by lia.
    rewrite decide_True by lia.
    rewrite !take_take. replace (s `min` k)%nat with k by lia.
    replace (k `min` s)%nat with k by lia.
    rewrite (drop_ge (take k origitems)) by (rewrite length_take; lia).
    rewrite drop_drop. replace (k + (s - k))%nat with s by lia.
    rewrite take_drop_commute. replace (k + (s - k))%nat with s by lia.
    done.
  - assert (splitpoint < newoff) as Hlt by (destruct (Z.le_gt_cases newoff splitpoint); [tauto|lia]).
    assert (s < k)%nat by lia.
    destruct (ItemPointerCompare newkey splittid <? 0) eqn:Hc;
      [apply tid_compare_lt in Hc; tauto|].
    replace (s - k)%nat with 0%nat by lia. rewrite !take_0, !drop_0.
    destruct (decide (k < length origitems)%nat).
    + rewrite take_take. replace (s `min` k)%nat with s by lia. rewrite app_nil_r.
      rewrite take_drop_commute, drop_drop.
      replace (s + (k - s))%nat with k by lia. done.
    + assert (k = length origitems) as Hkn by lia.
      rewrite (take_ge (drop s origitems)) by (rewrite length_drop; lia).
      rewrite (drop_ge (drop s origitems)) by (rewrite length_drop; lia).
      done.
Qed.

Lemma insert_at_length {A} (k : nat) (x : A) l : length (insert_at k x l) = S (length l).
Proof.
  unfold insert_at. rewrite length_app. simpl. rewrite length_take, length_drop. lia.
Qed.

(** The two pages the split builds, on a sorted array with [newoff]
    one past the search result for [newkey]: the halves, their
    concatenation, their sizes and their order. *)
Lemma split_internal_pages_90_10 origpage rightblkno newkey childblkno :
  let origitems := ZSBtreeInternalPageGetItems origpage in
  let n := ZSBtreeInternalPageGetNumItems origpage in
  let newoff := zsbt_binsrch_internal newkey origitems n + 1 in
  let sp := 9 * n / 10 in
  let splittid := tid (arr_get origitems sp) in
  let newitem := MkInternalItem newkey childblkno in
  items_sorted origitems -> 0 < n ->
  exists leftpage rightpage,
    split_internal_pages origpage rightblkno newoff newkey childblkno
      = (leftpage, rightpage, splittid) /\
    (tid_lt newkey splittid ->
       pd_downlinks leftpage
         = insert_at (Z.to_nat newoff) newitem (take (Z.to_nat sp) origitems) /\
       pd_downlinks rightpage = drop (Z.to_nat sp) origitems) /\
    (~ tid_lt newkey splittid ->
       pd_downlinks leftpage = take (Z.to_nat sp) origitems /\
       pd_downlinks rightpage
         = insert_at (Z.to_nat newoff - Z.to_nat sp) newitem (drop (Z.to_nat sp) origitems)) /\
    pd_downlinks leftpage ++ pd_downlinks rightpage
      = insert_at (Z.to_nat newoff) newitem origitems /\
    Z.of_nat (length (pd_downlinks leftpage)) + Z.of_nat (length (pd_downlinks rightpage))
      = n + 1 /\
    items_sorted (pd_downlinks leftpage ++ pd_downlinks rightpage).
Proof.
  intros origitems n newoff sp splittid newitem Hs Hn.
  assert (n = Z.of_nat (length origitems)) as Hlen by reflexivity.
  assert (split_internal_point n = sp) as Hsp
    by (apply split_internal_point_floor; lia).
  pose proof (split_internal_point_range n Hn) as Hrange. rewrite Hsp in Hrange.
  pose proof (split_internal_copy_sorted origitems newkey childblkno Hs Hn) as Hcopy.
  cbv zeta in Hcopy. change (Z.of_nat (length origitems)) with n in Hcopy.
  rewrite Hsp in Hcopy.
  change (zsbt_binsrch_internal newkey origitems n + 1) with newoff in Hcopy.
  change (tid (arr_get origitems sp)) with splittid in Hcopy.
  change (MkInternalItem newkey childblkno) with newitem in Hcopy.
  destruct (binsrch_internal_char newkey origitems Hs) as (Hr & Hle & Hgt).
  change (Z.of_nat (length origitems)) with n in Hr, Hle, Hgt.
  assert (newoff = zsbt_binsrch_internal newkey origitems n + 1) as Hnewoff by reflexivity.
  clearbody newoff n.
  assert (Z.to_nat newoff <= length origitems)%nat as Hk by (lia).
  assert (Z.to_nat sp < length origitems)%nat as Hs' by lia.
  assert (tid_lt newkey splittid -> newoff <= sp) as Hside.
  { intros Hlt. destruct (Z.le_gt_cases newoff sp) as [|Hgt']; [done|].
    exfalso. apply (tid_lt_irrefl newkey).
    eapply tid_lt_le_trans; [exact Hlt|]. apply Hle. lia. }
  assert (~ tid_lt newkey splittid -> sp < newoff) as Hside'.
  { intros Hnlt. destruct (Z.le_gt_cases newoff sp) as [Hle'|]; [|lia].
    exfalso. apply Hnlt. apply Hgt. lia. }
  assert (insert_at (Z.to_nat newoff) newitem origitems
          = (if decide (tid_lt newkey splittid)
             then insert_at (Z.to_nat newoff) newitem (take (Z.to_nat sp) origitems)
                  ++ drop (Z.to_nat sp) origitems
             else take (Z.to_nat sp) origitems
                  ++ insert_at (Z.to_nat newoff - Z.to_nat sp) newitem
                       (drop (Z.to_nat sp) origitems))) as Hjoin.
  { unfold insert_at. destruct (decide _) as [Hlt|Hnlt].
    - apply Hside in Hlt.
      rewrite take_take. replace (Z.to_nat newoff `min` Z.to_nat sp)%nat
        with (Z.to_nat newoff) by lia.
      rewrite <- app_assoc. simpl. do 2 f_equal.
      rewrite drop_take_drop by lia. done.
    - apply Hside' in Hnlt.
      rewrite take_drop_commute, drop_drop.
      replace (Z.to_nat sp + (Z.to_nat newoff - Z.to_nat sp))%nat
        with (Z.to_nat newoff) by lia.
      rewrite app_assoc. f_equal.
      rewrite <- (take_drop (Z.to_nat sp) (take (Z.to_nat newoff) origitems)) at 1.
      f_equal. rewrite take_take. f_equal. lia. }
  unfold split_internal_pages. cbv zeta.
  change (ZSBtreeInternalPageGetItems origpage) with origitems.
  change (ZSBtreeInternalPageGetNumItems origpage) with (Z.of_nat (length origitems)).
  rewrite <- Hlen.
  rewrite Hsp.
  change (tid (arr_get origitems sp)) with splittid.
  change (MkInternalItem newkey childblkno) with newitem.
  rewrite Hcopy.
  destruct (decide (tid_lt newkey splittid)) as [Hlt|Hnlt].
  - eexists _, _. split; [reflexivity|]. simpl. rewrite <- Hjoin.
    split; [done|]. split; [tauto|]. split; [done|]. split.
    + rewrite <- Nat2Z.inj_add, <- length_app, <- Hjoin, insert_at_length. lia.
    + apply items_sorted_insert_at; [done| |].
      * intros x Hx. apply list_elem_of_lookup_1 in Hx as [i Hi].
        apply lookup_take_Some in Hi as [Hi Hik].
        unfold key_le. simpl. rewrite <- (arr_get_lookup _ _ _ Hi). apply Hle.
        lia.
      * intros y Hy. apply list_elem_of_lookup_1 in Hy as [i Hi].
        rewrite lookup_drop in Hi. pose proof (lookup_lt_Some _ _ _ Hi).
        unfold key_le. simpl. rewrite <- (arr_get_lookup _ _ _ Hi).
        apply tid_lt_le, Hgt. lia.
  - eexists _, _. split; [reflexivity|]. simpl. rewrite <- Hjoin.
    split; [tauto|]. split; [done|]. split; [done|]. split.
    + rewrite <- Nat2Z.inj_add, <- length_app, <- Hjoin, insert_at_length. lia.
    + apply items_sorted_insert_at; [done| |].
      * intros x Hx. apply list_elem_of_lookup_1 in Hx as [i Hi].
        apply lookup_take_Some in Hi as [Hi Hik].
        unfold key_le. simpl. rewrite <- (arr_get_lookup _ _ _ Hi). apply Hle.
        lia.
      * intros y Hy. apply list_elem_of_lookup_1 in Hy as [i Hi].
        rewrite lookup_drop in Hi. pose proof (lookup_lt_Some _ _ _ Hi).
        unfold key_le. simpl. rewrite <- (arr_get_lookup _ _ _ Hi).
        apply tid_lt_le, Hgt. lia.
Qed.

Lemma sample_internal_page_sorted : items_sorted (pd_downlinks sample_internal_page).
Proof. items_sorted_by_cases. Qed.

Lemma ten_leaf_relation_allocated : blocks_allocated ten_leaf_relation.
Proof.
  split; [vm_compute; reflexivity|]. intros blk page Hp.
  unfold ten_leaf_relation in *. cbn [rel_pages rel_nblocks] in *.
  apply lookup_insert_Some in Hp as [[<- _]|[_ Hp]]; [lia|].
  apply lookup_insert_Some in Hp as [[<- _]|[_ Hp]]; [lia|].
  apply lookup_singleton_Some in Hp as [<- _]. lia.
Qed.

(** C8.  [zsbt_split_internal] on an internal page with [n] downlinks,
    called the way [zsbt_insert_downlink] calls it (sorted downlinks,
    [newoff] one past the search result for the new key, a child that
    is another page): it allocates the next block for the right page,
    installs both pages, and goes on to insert the downlink for the
    right page, under the split TID, in the relation that holds them;
    this is all it does, whatever that continuation is.  The split
    point is index [9 * n / 10] and the split TID the key found
    there.  When the new key is below the split TID the page left in
    the buffer holds the first [9 * n / 10] downlinks with the new one
    put in at [newoff], and the page on the new block the rest;
    otherwise the left page holds the first [9 * n / 10] unchanged and
    the right page the rest with the new one put in.  Both pages
    together are the old array with the new downlink at [newoff]:
    [n + 1] downlinks, in key order. *)
Theorem zsbt_split_internal_90_10
    (rec : Relation -> AttrNumber -> Buffer -> ItemPointerData -> BlockNumber
           -> result Relation)
    rel att leftbuf childbuf origpage childpage newkey childblkno :
  let origitems := ZSBtreeInternalPageGetItems origpage in
  let n := ZSBtreeInternalPageGetNumItems origpage in
  let newoff := zsbt_binsrch_internal newkey origitems n + 1 in
  let sp := 9 * n / 10 in
  let splittid := tid (arr_get origitems sp) in
  let newitem := MkInternalItem newkey childblkno in
  let rightblkno := rel_nblocks rel in
  blocks_allocated rel ->
  rel_pages rel !! leftbuf = Some origpage ->
  rel_pages rel !! childbuf = Some childpage ->
  childbuf <> leftbuf ->
  items_sorted origitems -> 0 < n ->
  exists leftpage rightpage rel',
    zsbt_split_internal rec rel att leftbuf childbuf newoff newkey childblkno
      = rec rel' att leftbuf splittid rightblkno /\
    rel_nblocks rel' = rel_nblocks rel + 1 /\
    rel_pages rel' !! leftbuf = Some leftpage /\
    rel_pages rel' !! rightblkno = Some rightpage /\
    (tid_lt newkey splittid ->
       pd_downlinks leftpage
         = insert_at (Z.to_nat newoff) newitem (take (Z.to_nat sp) origitems) /\
       pd_downlinks rightpage = drop (Z.to_nat sp) origitems) /\
    (~ tid_lt newkey splittid ->
       pd_downlinks leftpage = take (Z.to_nat sp) origitems /\
       pd_downlinks rightpage
         = insert_at (Z.to_nat newoff - Z.to_nat sp) newitem (drop (Z.to_nat sp) origitems)) /\
    pd_downlinks leftpage ++ pd_downlinks rightpage
      = insert_at (Z.to_nat newoff) newitem origitems /\
    Z.of_nat (length (pd_downlinks leftpage)) + Z.of_nat (length (pd_downlinks rightpage))
      = n + 1 /\
    items_sorted (pd_downlinks leftpage ++ pd_downlinks rightpage).
Proof.
  intros origitems n newoff sp splittid newitem rightblkno Ha Hleft Hchild Hne Hs Hn.
  destruct (split_internal_pages_90_10 origpage rightblkno newkey childblkno Hs Hn)
    as (leftpage & rightpage & Hpages & Hhalves).
  fold origitems n newoff sp splittid newitem in Hpages, Hhalves.
  assert (0 < leftbuf < rightblkno /\ 0 < childbuf < rightblkno) as [Hlb Hcb].
  { destruct Ha as [_ Ha]. split; [exact (Ha _ _ Hleft)|exact (Ha _ _ Hchild)]. }
  exists leftpage, rightpage.
  unfold zsbt_split_internal, ReadBuffer. rewrite Hleft. cbn [bind zs_getnewbuf].
  fold rightblkno. rewrite Hpages.
  cbn [write_page rel_pages rel_nblocks].
  rewrite (lookup_insert_ne _ rightblkno childbuf) by lia.
  rewrite (lookup_insert_ne _ leftbuf childbuf) by done.
  rewrite Hchild. cbn [bind].
  eexists. split; [reflexivity|]. cbn [write_page rel_pages rel_nblocks].
  split; [done|]. split.
  { rewrite lookup_insert_ne by done. rewrite lookup_insert_ne by lia.
    by rewrite lookup_insert_eq. }
  split; [|exact Hhalves].
  rewrite lookup_insert_ne by lia. by rewrite lookup_insert_eq.
Qed.

(** The split of the ten-downlink root of [ten_leaf_relation] by the
    key of leaf 10's new right sibling, a key beyond its last one:
    nine downlinks stay on block 12, the tenth and the new one go to
    the new block 13, and the downlink to insert next is
    ((9,1), 13). *)
Lemma zsbt_split_internal_90_10_witness :
  exists leftpage rightpage rel',
    zsbt_split_internal (fun rel _ _ _ _ => Ok rel) ten_leaf_relation 2 12 10 10
      (ItemPointerSet 10 1) 11 = Ok rel' /\
    rel_pages rel' !! 12 = Some leftpage /\
    rel_pages rel' !! 13 = Some rightpage /\
    Z.of_nat (length (pd_downlinks leftpage)) + Z.of_nat (length (pd_downlinks rightpage))
      = 11.
Proof.
  destruct (zsbt_split_internal_90_10 (fun rel _ _ _ _ => Ok rel) ten_leaf_relation 2 12 10
              sample_internal_page
              (MkPage [] [] (MkOpaque 11 (ItemPointerSet 9 1) (ItemPointerSet 10 1)
                               0 ZS_FOLLOW_RIGHT ZS_BTREE_PAGE_ID))
              (ItemPointerSet 10 1) 11
              ten_leaf_relation_allocated ltac:(vm_compute; reflexivity)
              ltac:(vm_compute; reflexivity) ltac:(lia)
              sample_internal_page_sorted eq_refl)
    as (leftpage & rightpage & rel' & Hrun & _ & Hl & Hr & _ & _ & _ & Hlen & _).
  exists leftpage, rightpage, rel'.
  split; [exact Hrun|]. split; [exact Hl|]. split; [exact Hr|exact Hlen].
Defined.


(* ===================================================================== *)
(** * Leaf compression leaves the live page alone when it fails *)
(* ===================================================================== *)

Lemma bind_Ok {A B} (m : result A) (k : A -> result B) b :
  bind m k = Ok b -> exists a, m = Ok a /\ k a = Ok b.
Proof. destruct m; simpl; [eauto|discriminate|discriminate]. Qed.

Lemma ReadBuffer_Ok rel blk page :
  ReadBuffer rel blk = Ok page <-> rel_pages rel !! blk = Some page.
Proof.
  unfold ReadBuffer. destruct (rel_pages rel !! blk); split; intros H; congruence.
Qed.

(** The scratch page is built from an empty page with the live page's
    trailer, and items are only ever appended to it. *)
Lemma PageAddItemExtended_Some page item size off page' :
  PageAddItemExtended page item size off = Some page' ->
  page' = MkPage (pd_linp page ++ [item]) (pd_downlinks page) (pd_opaque page)
  /\ off = PageGetMaxOffsetNumber page + 1
  /\ pd_lower page + sizeof_ItemIdData <= pd_upper page - MAXALIGN size.
Proof.
  unfold PageAddItemExtended. cbv zeta.
  repeat match goal with |- context [?a <? ?b] => destruct (Z.ltb_spec a b) end;
    intros [= <-]. repeat split; lia.
Qed.

Lemma repack_item_opaque page newitem page' :
  repack_item page newitem = Repacked page' -> pd_opaque page' = pd_opaque page.
Proof.
  unfold repack_item. destruct newitem as [it|]; [|by intros [= <-]].
  destruct (_ <? _); [discriminate|].
  destruct (PageAddItemExtended _ _ _ _) eqn:E; [|discriminate].
  intros [= <-]. by apply PageAddItemExtended_Some in E as (-> & _).
Qed.

Lemma compress_emit_opaque `{ZSCodec} page n1 n2 i ci c st' :
  compress_emit page n1 n2 i ci c = CNext st' ->
  pd_opaque (cl_page st') = pd_opaque page.
Proof.
  unfold compress_emit.
  destruct (repack_item page n1) eqn:E1; try discriminate.
  destruct (repack_item _ n2) eqn:E2; try discriminate.
  intros [= <-]. simpl. apply repack_item_opaque in E1, E2. congruence.
Qed.

Lemma compress_body_opaque `{ZSCodec} origpage st st' :
  compress_body origpage st = CNext st' ->
  pd_opaque (cl_page st') = pd_opaque (cl_page st).
Proof.
  unfold compress_body.
  repeat match goal with
         | |- context [if ?b then _ else _] => destruct b
         | |- context [let '(_, _) := ?x in _] => destruct x
         end; apply compress_emit_opaque.
Qed.

Lemma compress_loop_opaque `{ZSCodec} origpage maxoff st success st' :
  compress_loop origpage maxoff st = Ok (success, st') ->
  pd_opaque (cl_page st') = pd_opaque (cl_page st).
Proof.
  funelim (compress_loop origpage maxoff st); clear Heqcall.
  - by intros [= <- <-].
  - intros Hrec. rewrite (H0 _ _ Hrec). by apply compress_body_opaque with origpage.
  - by intros [= <- <-].
  - discriminate.
Qed.

Lemma compress_flush_opaque `{ZSCodec} success st success' page :
  compress_flush success st = Ok (success', page) ->
  pd_opaque page = pd_opaque (cl_page st).
Proof.
  unfold compress_flush. destruct (_ && _); [|by intros [= <- <-]].
  destruct (zs_compress_finish _). destruct (_ <? _); [by intros [= <- <-]|].
  destruct (PageAddItemExtended _ _ _ _) eqn:E; [|discriminate].
  intros [= <- <-]. by apply PageAddItemExtended_Some in E as (-> & _).
Qed.

Lemma zsbt_compress_leaf_effect `{ZSCodec} rel buf success rel' :
  zsbt_compress_leaf rel buf = Ok (success, rel') ->
  exists origpage, rel_pages rel !! buf = Some origpage /\
    if success
    then exists scratch, rel' = write_page rel buf scratch
                         /\ pd_opaque scratch = pd_opaque origpage
    else rel' = rel.
Proof.
  unfold zsbt_compress_leaf. intros Hrun.
  apply bind_Ok in Hrun as (origpage & Hread & Hrun).
  apply ReadBuffer_Ok in Hread. exists origpage. split; [done|].
  apply bind_Ok in Hrun as ([success1 st] & Hloop & Hrun).
  apply bind_Ok in Hrun as ([success2 page] & Hflush & Hrun).
  apply compress_loop_opaque in Hloop. apply compress_flush_opaque in Hflush.
  simpl in Hloop. destruct success2; injection Hrun as <- <-.
  - exists page. split; [done|]. congruence.
  - done.
Qed.

(** C7.  When [zsbt_compress_leaf] returns false the relation, and so
    the live page, is exactly what it was; when it returns true the
    live page has been replaced by the scratch page, which carries the
    live page's trailer. *)
Theorem zsbt_compress_leaf_failure_keeps_page `{ZSCodec} rel buf success rel' :
  zsbt_compress_leaf rel buf = Ok (success, rel') ->
  exists origpage, rel_pages rel !! buf = Some origpage /\
    if success
    then exists scratch, rel' = write_page rel buf scratch
                         /\ pd_opaque scratch = pd_opaque origpage
    else rel' = rel /\ rel_pages rel' !! buf = Some origpage.
Proof.
  intros Hrun. destruct (zsbt_compress_leaf_effect _ _ _ _ Hrun) as (origpage & Hlive & Heff).
  exists origpage. split; [done|]. destruct success; [done|]. by subst.
Qed.

(** With a codec whose runs never fit, compressing the sample leaf
    fails and the relation stays as it was. *)
Lemma zsbt_compress_leaf_failure_keeps_page_witness :
  @zsbt_compress_leaf bloating_codec sample_relation 1 = Ok (false, sample_relation) /\
  exists origpage, rel_pages sample_relation !! 1 = Some origpage.
Proof.
  assert (@zsbt_compress_leaf bloating_codec sample_relation 1 = Ok (false, sample_relation))
    as Hrun by (vm_compute; reflexivity).
  split; [exact Hrun|].
  destruct (@zsbt_compress_leaf_failure_keeps_page bloating_codec _ _ _ _ Hrun)
    as (origpage & Hlive & _ & Hsame).
  exists origpage. exact Hsame.
Defined.


(* ===================================================================== *)
(** * What a leaf split does to the leaves *)
(* ===================================================================== *)

Lemma same_but_flags_refl page : same_but_flags page page.
Proof. by repeat split. Qed.

Lemma same_but_flags_trans p1 p2 p3 :
  same_but_flags p1 p2 -> same_but_flags p2 p3 -> same_but_flags p1 p3.
Proof. unfold same_but_flags. intros (?&?&?&?&?&?&?) (?&?&?&?&?&?&?). repeat split; congruence. Qed.

Lemma same_but_flags_set_flags page f :
  same_but_flags page (set_opaque page (set_flags (pd_opaque page) f)).
Proof. by repeat split. Qed.

Lemma leaves_kept_refl rel : leaves_kept rel rel.
Proof. intros blk page Hp _. exists page. split; [done|apply same_but_flags_refl]. Qed.

Lemma leaves_kept_trans r1 r2 r3 :
  leaves_kept r1 r2 -> leaves_kept r2 r3 -> leaves_kept r1 r3.
Proof.
  intros H12 H23 blk page Hp Hl.
  destruct (H12 blk page Hp Hl) as (p2 & Hp2 & Hs2).
  destruct (H23 blk p2 Hp2) as (p3 & Hp3 & Hs3).
  { destruct Hs2 as (_&_&_&_&_&->&_). done. }
  exists p3. split; [done|]. by eapply same_but_flags_trans.
Qed.

(** Writing a page that is no leaf before and a fresh or non-leaf block
    keeps the leaves. *)
Lemma leaves_kept_write rel blk newpage :
  (forall old, rel_pages rel !! blk = Some old ->
     zs_level (pd_opaque old) = 0 -> same_but_flags old newpage) ->
  leaves_kept rel (write_page rel blk newpage).
Proof.
  intros Hold b page Hp Hl. unfold write_page. simpl.
  destruct (decide (blk = b)) as [->|Hne].
  - rewrite lookup_insert_eq. exists newpage. split; [done|]. by apply Hold.
  - rewrite lookup_insert_ne by done. exists page. split; [done|apply same_but_flags_refl].
Qed.

Lemma blocks_allocated_write rel blk page :
  blocks_allocated rel -> 0 < blk < rel_nblocks rel ->
  blocks_allocated (write_page rel blk page).
Proof.
  intros [Hn Ha] Hb. split; [done|]. intros b p. unfold write_page. simpl.
  destruct (decide (blk = b)) as [->|Hne].
  - rewrite lookup_insert_eq. by intros _.
  - rewrite lookup_insert_ne by done. apply Ha.
Qed.

Lemma blocks_allocated_lookup rel blk page :
  blocks_allocated rel -> rel_pages rel !! blk = Some page -> 0 < blk < rel_nblocks rel.
Proof. intros [_ Ha]. apply Ha. Qed.

Lemma blocks_allocated_getnewbuf rel :
  blocks_allocated rel ->
  blocks_allocated (zs_getnewbuf rel).2 /\
  rel_pages rel !! (zs_getnewbuf rel).1 = None.
Proof.
  intros [Hn Ha]. unfold zs_getnewbuf. simpl. split; [split|].
  - simpl. lia.
  - intros blk page Hp. apply Ha in Hp. simpl in *. lia.
  - destruct (rel_pages rel !! rel_nblocks rel) eqn:E; [|done].
    apply Ha in E. lia.
Qed.

Lemma check_level_Ok opaque nextlevel lvl :
  check_level opaque nextlevel = Ok lvl -> lvl = zs_level opaque.
Proof.
  unfold check_level. destruct (nextlevel =? -1); [by intros [= <-]|].
  destruct (Z.eqb_spec (zs_level opaque) nextlevel); simpl; [|discriminate].
  intros [= <-]. done.
Qed.

(** The parent [zsbt_find_downlink] stops at is one level above the
    child. *)
Lemma find_downlink_loop_level fuel : forall rel key cblk level next nextlevel buf itemno,
  find_downlink_loop fuel rel key cblk level next nextlevel = Ok (buf, itemno) ->
  exists page, rel_pages rel !! buf = Some page /\ zs_level (pd_opaque page) = level + 1.
Proof.
  induction fuel as [|fuel IH]; intros rel key cblk level next nextlevel buf itemno;
    simpl; [discriminate|].
  intros Hrun. apply bind_Ok in Hrun as (page & Hread & Hrun).
  apply bind_Ok in Hrun as (lvl & Hlvl & Hrun).
  apply ReadBuffer_Ok in Hread. unfold ZSBtreePageGetOpaque in *.
  destruct (_ <=? _); [discriminate|].
  destruct (_ >=? _).
  - destruct (_ =? _); [discriminate|]. by eapply IH.
  - destruct (_ <? _); [discriminate|].
    destruct (Z.eqb_spec (zs_level (pd_opaque page)) (level + 1)).
    + destruct (negb _); [discriminate|]. injection Hrun as <- <-. eauto.
    + by eapply IH.
Qed.

Lemma get_root_effect rel attno forupdate :
  blocks_allocated rel ->
  blocks_allocated (zsmeta_get_root_for_attribute rel attno forupdate).2 /\
  leaves_kept rel (zsmeta_get_root_for_attribute rel attno forupdate).2 /\
  rel_nblocks rel <= rel_nblocks (zsmeta_get_root_for_attribute rel attno forupdate).2 /\
  (forall blk page, rel_pages rel !! blk = Some page ->
     rel_pages (zsmeta_get_root_for_attribute rel attno forupdate).2 !! blk = Some page).
Proof.
  intros [Hn Ha]. unfold zsmeta_get_root_for_attribute.
  destruct (rel_roots rel !! attno); simpl;
    [split; [by split|]; auto using leaves_kept_refl with lia|].
  destruct forupdate; simpl;
    [|split; [by split|]; auto using leaves_kept_refl with lia].
  assert (forall blk page, rel_pages rel !! blk = Some page ->
            <[rel_nblocks rel:=initial_root_page]> (rel_pages rel) !! blk = Some page) as Hkeep.
  { intros blk page Hp. rewrite lookup_insert_ne; [done|]. intros <-. apply Ha in Hp. lia. }
  split; [split; [simpl; lia|]|split; [|split; [lia|done]]].
  - intros blk page. simpl. destruct (decide (rel_nblocks rel = blk)) as [<-|Hne].
    + intros _. lia.
    + rewrite lookup_insert_ne by done. intros Hp. apply Ha in Hp. lia.
  - intros blk page Hp Hl. exists page. split; [|apply same_but_flags_refl].
    simpl. by apply Hkeep.
Qed.

Lemma zsbt_find_downlink_Ok fuel rel attno key cblk level pbuf itemno rel2 :
  zsbt_find_downlink fuel rel attno key cblk level = Ok (pbuf, itemno, rel2) ->
  rel2 = (zsmeta_get_root_for_attribute rel attno true).2 /\
  (pbuf = InvalidBuffer \/
   exists page, rel_pages rel2 !! pbuf = Some page /\ zs_level (pd_opaque page) = level + 1).
Proof.
  unfold zsbt_find_downlink.
  destruct (zsmeta_get_root_for_attribute rel attno true) as [rootblk rel1]. simpl.
  destruct (rootblk =? cblk).
  - intros [= <- <- <-]. auto.
  - intros Hrun. apply bind_Ok in Hrun as ([buf i] & Hloop & [= <- <- <-]).
    split; [done|]. right. by eapply find_downlink_loop_level.
Qed.

Lemma zsbt_newroot_effect rel attno level key1 blk1 key2 blk2 leftchildbuf rel' :
  zsbt_newroot rel attno level key1 blk1 key2 blk2 leftchildbuf = Ok rel' ->
  blocks_allocated rel ->
  blocks_allocated rel' /\ leaves_kept rel rel' /\ rel_nblocks rel <= rel_nblocks rel'.
Proof.
  unfold zsbt_newroot. intros Hrun Ha.
  destruct (blocks_allocated_getnewbuf rel Ha) as [Ha1 Hfresh].
  destruct (zs_getnewbuf rel) as [buf rel1] eqn:Hnew. simpl in *.
  assert (buf = rel_nblocks rel /\ rel_pages rel1 = rel_pages rel
          /\ rel_nblocks rel1 = rel_nblocks rel + 1) as (-> & Hpages & Hn).
  { unfold zs_getnewbuf in Hnew. by injection Hnew as <- <-. }
  apply bind_Ok in Hrun as (leftchildpage & Hread & [= <-]).
  apply ReadBuffer_Ok in Hread. rewrite Hpages in Hread.
  pose proof (blocks_allocated_lookup _ _ _ Ha Hread) as Hlc.
  split; [|split].
  - destruct Ha1 as [Hn1 Ha1]. split; [simpl; lia|]. intros blk page. simpl.
    destruct (decide (leftchildbuf = blk)) as [<-|Hne1]; [rewrite lookup_insert_eq; lia|].
    rewrite lookup_insert_ne by done.
    destruct (decide (rel_nblocks rel = blk)) as [<-|Hne2]; [rewrite lookup_insert_eq; lia|].
    rewrite lookup_insert_ne by done. apply Ha1.
  - intros blk page Hp Hl. simpl.
    destruct (decide (leftchildbuf = blk)) as [<-|Hne1].
    + rewrite lookup_insert_eq. eexists. split; [done|].
      assert (page = leftchildpage) as -> by congruence.
      apply same_but_flags_set_flags.
    + rewrite lookup_insert_ne by done.
      rewrite lookup_insert_ne by (intros <-; congruence).
      rewrite Hpages. exists page. split; [done|apply same_but_flags_refl].
  - simpl. lia.
Qed.

Lemma zsbt_split_internal_effect rec rel attno leftbuf childbuf newoff newkey cblk rel' :
  zsbt_split_internal rec rel attno leftbuf childbuf newoff newkey cblk = Ok rel' ->
  blocks_allocated rel ->
  (forall page, rel_pages rel !! leftbuf = Some page -> 1 <= zs_level (pd_opaque page)) ->
  exists rel4 splittid rightblkno,
    rec rel4 attno leftbuf splittid rightblkno = Ok rel' /\
    blocks_allocated rel4 /\ leaves_kept rel rel4 /\
    rel_nblocks rel <= rel_nblocks rel4 /\
    (forall page, rel_pages rel4 !! leftbuf = Some page -> 1 <= zs_level (pd_opaque page)).
Proof.
  unfold zsbt_split_internal. intros Hrun Ha Hlevel.
  apply bind_Ok in Hrun as (origpage & Hread & Hrun). apply ReadBuffer_Ok in Hread.
  destruct (blocks_allocated_getnewbuf rel Ha) as [Ha1 Hfresh].
  destruct (zs_getnewbuf rel) as [rightblkno rel1] eqn:Hnew. simpl in *.
  assert (rightblkno = rel_nblocks rel /\ rel_pages rel1 = rel_pages rel
          /\ rel_nblocks rel1 = rel_nblocks rel + 1) as (-> & Hpages & Hn).
  { unfold zs_getnewbuf in Hnew. by injection Hnew as <- <-. }
  destruct (split_internal_pages origpage (rel_nblocks rel) newoff newkey cblk)
    as [[leftpage rightpage] splittid] eqn:Hsplit.
  assert (zs_level (pd_opaque leftpage) = zs_level (pd_opaque origpage)) as Hll.
  { unfold split_internal_pages in Hsplit. cbv zeta in Hsplit.
    destruct (split_internal_copy _ _ _ _ _ _ _ _). by injection Hsplit as <- <- <-. }
  apply bind_Ok in Hrun as (childpage & Hreadc & Hrun). apply ReadBuffer_Ok in Hreadc.
  pose proof (blocks_allocated_lookup _ _ _ Ha Hread) as Hlb.
  pose proof (Hlevel _ Hread) as Hol.
  set (rel2 := write_page (write_page rel1 leftbuf leftpage) (rel_nblocks rel) rightpage) in *.
  assert (blocks_allocated rel2) as Ha2.
  { apply blocks_allocated_write; [apply blocks_allocated_write; [done|lia]|simpl; lia]. }
  assert (leaves_kept rel rel2) as Hk2.
  { apply leaves_kept_trans with (write_page rel1 leftbuf leftpage).
    - intros blk page Hp Hl. simpl.
      destruct (decide (leftbuf = blk)) as [<-|Hne].
      + assert (page = origpage) as -> by congruence. lia.
      + rewrite lookup_insert_ne by done. rewrite Hpages.
        exists page. split; [done|apply same_but_flags_refl].
    - apply leaves_kept_write. intros old Hold. simpl in Hold.
      rewrite lookup_insert_ne in Hold by lia. congruence. }
  pose proof (blocks_allocated_lookup _ _ _ Ha2 Hreadc) as Hcb.
  eexists _, splittid, (rel_nblocks rel). split; [exact Hrun|].
  split; [|split; [|split]].
  - apply blocks_allocated_write; [done|]. simpl in *. lia.
  - eapply leaves_kept_trans; [exact Hk2|]. apply leaves_kept_write.
    intros old Hold _. assert (old = childpage) as -> by congruence.
    apply same_but_flags_set_flags.
  - simpl. lia.
  - intros page. simpl. destruct (decide (childbuf = leftbuf)) as [->|Hne].
    + rewrite lookup_insert_eq. intros [= <-]. simpl.
      subst rel2. simpl in Hreadc. rewrite lookup_insert_ne in Hreadc by lia.
      rewrite lookup_insert_eq in Hreadc. injection Hreadc as <-.
      unfold ZSBtreePageGetOpaque. lia.
    + rewrite lookup_insert_ne by done. rewrite lookup_insert_ne by lia.
      rewrite lookup_insert_eq. intros [= <-]. lia.
Qed.

(** Inserting a downlink, with whatever splits and new roots that
    brings about, leaves every leaf's items and keys alone. *)
Lemma zsbt_insert_downlink_keeps_leaves fuel :
  forall rel attno leftbuf rightlokey rightblkno rel',
  zsbt_insert_downlink fuel rel attno leftbuf rightlokey rightblkno = Ok rel' ->
  blocks_allocated rel ->
  (forall page, rel_pages rel !! leftbuf = Some page -> 0 <= zs_level (pd_opaque page)) ->
  blocks_allocated rel' /\ leaves_kept rel rel' /\ rel_nblocks rel <= rel_nblocks rel'.
Proof.
  induction fuel as [|fuel IH]; intros rel attno leftbuf rightlokey rightblkno rel';
    [discriminate|].
  cbn [zsbt_insert_downlink]. intros Hrun Ha Hlevel.
  apply bind_Ok in Hrun as (leftpage & Hread & Hrun). apply ReadBuffer_Ok in Hread.
  apply bind_Ok in Hrun as ([[parentbuf itemno] rel2] & Hfind & Hrun).
  apply zsbt_find_downlink_Ok in Hfind as [-> Hparent].
  destruct (get_root_effect rel attno true Ha) as (Ha2 & Hk2 & Hn2 & Hkeep).
  set (rel2 := (zsmeta_get_root_for_attribute rel attno true).2) in *.
  pose proof (Hkeep _ _ Hread) as Hread2.
  unfold ZSBtreePageGetOpaque in *.
  destruct (Z.eqb_spec parentbuf InvalidBuffer) as [->|Hvalid].
  - (* no parent: new root *)
    apply zsbt_newroot_effect in Hrun as (? & ? & ?); [|done].
    split; [done|]. split; [eapply leaves_kept_trans; eassumption|lia].
  - destruct Hparent as [?|(ppage & Hpp & Hpl)]; [done|].
    apply bind_Ok in Hrun as (parentpage & Hreadp & Hrun). apply ReadBuffer_Ok in Hreadp.
    assert (ppage = parentpage) as -> by congruence.
    destruct (_ || _); [discriminate|].
    pose proof (Hlevel _ Hread) as Hl0.
    destruct (ZSBtreeInternalPageIsFull parentpage).
    + (* split the parent, then recurse *)
      apply zsbt_split_internal_effect in Hrun
        as (rel4 & splittid & rblk & Hrec & Ha4 & Hk4 & Hn4 & Hl4); [|done|].
      * apply IH in Hrec as (? & ? & ?); [|done|].
        -- split; [done|]. split; [|lia].
           eapply leaves_kept_trans; [exact Hk2|]. eapply leaves_kept_trans; eassumption.
        -- intros page Hp. apply Hl4 in Hp. lia.
      * intros page Hp. assert (page = parentpage) as -> by congruence. lia.
    + (* room in the parent *)
      injection Hrun as <-.
      pose proof (blocks_allocated_lookup _ _ _ Ha Hread) as Hlb.
      pose proof (blocks_allocated_lookup _ _ _ Ha2 Hreadp) as Hpb.
      split; [|split].
      * apply blocks_allocated_write; [apply blocks_allocated_write; [done|lia]|simpl; lia].
      * eapply leaves_kept_trans; [exact Hk2|].
        eapply leaves_kept_trans; apply leaves_kept_write.
        -- intros old Hold Hlv. assert (old = leftpage) as -> by congruence.
           apply same_but_flags_set_flags.
        -- intros old Hold Hlv. simpl in Hold.
           destruct (decide (leftbuf = parentbuf)) as [->|Hne].
           ++ assert (parentpage = leftpage) by congruence. subst. lia.
           ++ rewrite lookup_insert_ne in Hold by done.
              assert (old = parentpage) as -> by congruence. lia.
      * simpl. lia.
Qed.

(** The copy loop as [zsbt_insert_to_leaf] starts it: everything goes
    left, the new item goes right, at the first offset. *)
Lemma split_leaf_copy_all_left rest : forall i lastleftoff newitem newitemoff L R L' R',
  i + Z.of_nat (length rest) = newitemoff -> newitemoff = lastleftoff + 1 ->
  split_leaf_copy rest i lastleftoff newitem false newitemoff L R = Ok (L', R') ->
  L' = MkPage (pd_linp L ++ rest) (pd_downlinks L) (pd_opaque L) /\
  R' = MkPage [newitem] (pd_downlinks R) (pd_opaque R) /\ pd_linp R = [].
Proof.
  induction rest as [|item rest IH]; intros i lastleftoff newitem newitemoff L R L' R' Hi Hn;
    cbn [split_leaf_copy].
  - simpl in Hi. destruct (Z.eqb_spec i newitemoff); [|lia].
    destruct (PageAddItemExtended R newitem _ _) eqn:Hadd; [|discriminate].
    intros [= <- <-]. apply PageAddItemExtended_Some in Hadd as (-> & Hoff & _).
    unfold FirstOffsetNumber, PageGetMaxOffsetNumber in Hoff.
    assert (pd_linp R = []) as HR by (destruct (pd_linp R); [done|simpl in Hoff; lia]).
    rewrite HR, app_nil_r. destruct L. done.
  - simpl length in Hi. destruct (Z.eqb_spec i newitemoff); [lia|].
    simpl. destruct (Z.leb_spec i lastleftoff); [|lia].
    destruct (PageAddItemExtended L item _ _) eqn:Hadd; [|discriminate]. simpl.
    apply PageAddItemExtended_Some in Hadd as (-> & _ & _).
    intros Hrec. apply IH in Hrec as (-> & -> & HR); [|lia|lia]. simpl.
    rewrite <- app_assoc. done.
Qed.

Lemma insert_try_compress_effect `{ZSCodec} rel buf itemsz rel1 :
  insert_try_compress rel buf itemsz = Ok rel1 ->
  exists page page1,
    rel_pages rel !! buf = Some page /\ rel_pages rel1 !! buf = Some page1 /\
    pd_opaque page1 = pd_opaque page /\
    rel1 = write_page rel buf page1.
Proof.
  unfold insert_try_compress. intros Hrun.
  apply bind_Ok in Hrun as (page & Hread & Hrun). apply ReadBuffer_Ok in Hread.
  assert (rel = write_page rel buf page) as Hid.
  { destruct rel. unfold write_page. simpl in *. f_equal. by rewrite insert_id. }
  destruct (_ <? _).
  - apply bind_Ok in Hrun as ([success rel2] & Hc & [= <-]).
    apply zsbt_compress_leaf_effect in Hc as (origpage & Ho & Heff).
    assert (origpage = page) as -> by congruence.
    destruct success.
    + destruct Heff as (scratch & -> & Hop). exists page, scratch.
      simpl. rewrite lookup_insert_eq. done.
    + subst rel2. exists page, page. done.
  - injection Hrun as <-. exists page, page. done.
Qed.

(** What [zsbt_insert_to_leaf] does at the leaf level: after the
    attempt to compress, the new item is appended when it fits, and
    otherwise the leaf keeps its items and a new right sibling takes the
    new item alone. *)
Lemma zsbt_insert_to_leaf_cases `{ZSCodec} fuel rel buf state tid rel' :
  zsbt_insert_to_leaf fuel rel buf state = Ok (tid, rel') ->
  blocks_allocated rel ->
  exists page page1,
    let item := form_item state tid in
    let rel1 := write_page rel buf page1 in
    rel_pages rel !! buf = Some page /\
    tid = next_tid_on_leaf page /\
    insert_try_compress rel buf (t_size item) = Ok rel1 /\
    pd_opaque page1 = pd_opaque page /\
    if PageGetFreeSpace page1 >=? MAXALIGN (t_size item)
    then rel' = write_page rel buf
                  (MkPage (pd_linp page1 ++ [item]) (pd_downlinks page1) (pd_opaque page1))
    else
      zs_level (pd_opaque page) = 0 ->
      exists left right,
        rel_pages rel' !! buf = Some left /\
        rel_pages rel' !! rel_nblocks rel = Some right /\
        same_but_flags
          (MkPage (pd_linp page1) []
             (MkOpaque (rel_nblocks rel) (zs_lokey (pd_opaque page)) (leaf_split_tid page)
                (zs_level (pd_opaque page))
                (Z.lor (zs_flags (pd_opaque page)) ZS_FOLLOW_RIGHT)
                (zs_page_id (pd_opaque page))))
          left /\
        same_but_flags
          (MkPage [item] []
             (MkOpaque (zs_next (pd_opaque page)) (leaf_split_tid page)
                (zs_hikey (pd_opaque page)) 0 0 ZS_BTREE_PAGE_ID))
          right /\
        blocks_allocated rel' /\
        (forall blk p, blk <> buf -> rel_pages rel !! blk = Some p ->
           zs_level (pd_opaque p) = 0 ->
           exists p', rel_pages rel' !! blk = Some p' /\ same_but_flags p p').
Proof.
  unfold zsbt_insert_to_leaf. intros Hrun Ha.
  apply bind_Ok in Hrun as (page & Hread & Hrun). apply ReadBuffer_Ok in Hread.
  apply bind_Ok in Hrun as (rel1 & Hcomp & Hrun).
  destruct (insert_try_compress_effect _ _ _ _ Hcomp) as (page0 & page1 & Hp0 & Hp1 & Hop & ->).
  assert (page0 = page) as -> by congruence.
  apply bind_Ok in Hrun as (page1' & Hread1 & Hrun). apply ReadBuffer_Ok in Hread1.
  assert (page1' = page1) as -> by congruence.
  set (item0 := form_item state (next_tid_on_leaf page)) in *.
  pose proof (blocks_allocated_lookup _ _ _ Ha Hread) as Hb.
  destruct (PageGetFreeSpace page1 >=? MAXALIGN (t_size item0)) eqn:Hfit.
  - destruct (PageAddItemExtended _ _ _ _) eqn:Hadd; [|discriminate].
    injection Hrun as <- <-. exists page, page1. cbv zeta. fold item0.
    rewrite Hfit. apply PageAddItemExtended_Some in Hadd as (-> & _).
    repeat split; auto.
    unfold write_page. simpl. by rewrite insert_insert_eq.
  - apply bind_Ok in Hrun as (rel2 & Hsplit & [= <- <-]).
    exists page, page1. cbv zeta. fold item0. rewrite Hfit.
    repeat split; auto. intros Hlevel.
    unfold zsbt_split_leaf in Hsplit.
    apply bind_Ok in Hsplit as (origpage & Hread2 & Hsplit). apply ReadBuffer_Ok in Hread2.
    assert (origpage = page1) as -> by congruence.
    unfold zs_getnewbuf in Hsplit. cbn [rel_nblocks write_page] in Hsplit.
    apply bind_Ok in Hsplit as ([[leftpage rightpage] splittid] & Hpages & Hdown).
    unfold split_leaf_pages in Hpages. cbv zeta in Hpages.
    apply bind_Ok in Hpages as ([lp rp] & Hcopy & [= <- <- <-]).
    apply split_leaf_copy_all_left in Hcopy as (-> & -> & _);
      [|unfold FirstOffsetNumber, PageGetMaxOffsetNumber; lia|done].
    simpl in Hdown. unfold PageGetTempPageCopySpecial, ZSBtreePageGetOpaque in Hdown.
    simpl in Hdown. rewrite Hop in Hdown.
    match type of Hdown with
    | zsbt_insert_downlink _ ?r _ _ _ _ = _ => set (rel3 := r) in *
    end.
    assert (blocks_allocated rel3) as Ha3.
    { subst rel3. destruct Ha as [Hn Ha]. split; [simpl; lia|]. intros blk p. simpl.
      destruct (decide (rel_nblocks rel = blk)) as [<-|]; [rewrite lookup_insert_eq; lia|].
      rewrite lookup_insert_ne by done.
      destruct (decide (buf = blk)) as [<-|]; [rewrite lookup_insert_eq; lia|].
      rewrite lookup_insert_ne by done.
      destruct (decide (buf = blk)) as [<-|]; [rewrite lookup_insert_eq; lia|].
      rewrite lookup_insert_ne by done. intros Hp. apply Ha in Hp. lia. }
    apply zsbt_insert_downlink_keeps_leaves in Hdown as (Ha' & Hk & Hn'); [|done|].
    + destruct (Hk buf) with (page := MkPage (pd_linp page1) []
             (MkOpaque (rel_nblocks rel) (zs_lokey (pd_opaque page)) (leaf_split_tid page)
                (zs_level (pd_opaque page))
                (Z.lor (zs_flags (pd_opaque page)) ZS_FOLLOW_RIGHT)
                (zs_page_id (pd_opaque page)))) as (left & Hl & Hsl).
      { subst rel3. simpl. rewrite lookup_insert_ne by lia. by rewrite lookup_insert_eq. }
      { done. }
      destruct (Hk (rel_nblocks rel)) with (page := MkPage [item0] []
             (MkOpaque (zs_next (pd_opaque page)) (leaf_split_tid page)
                (zs_hikey (pd_opaque page)) 0 0 ZS_BTREE_PAGE_ID)) as (right & Hr & Hsr).
      { subst rel3. simpl. by rewrite lookup_insert_eq. }
      { done. }
      exists left, right.
      split; [done|]. split; [done|]. split; [done|]. split; [done|]. split; [done|].
      intros blk p Hne Hp Hlp. apply (Hk blk p); [|done].
      subst rel3. simpl. pose proof (blocks_allocated_lookup _ _ _ Ha Hp).
      rewrite !lookup_insert_ne by lia. done.
    + intros p Hp. subst rel3. simpl in Hp. rewrite lookup_insert_ne in Hp by lia.
      rewrite lookup_insert_eq in Hp. injection Hp as <-. simpl. lia.
Qed.

(** C10.  When [zsbt_insert_to_leaf] finds, after its attempt to
    compress, that the new item does not fit, the split leaves every
    item of the leaf on the left page, in order, and the new right
    sibling holds the new item and nothing else. *)
Theorem zsbt_insert_split_right_holds_only_new `{ZSCodec} fuel rel buf state tid rel' page :
  zsbt_insert_to_leaf fuel rel buf state = Ok (tid, rel') ->
  blocks_allocated rel ->
  rel_pages rel !! buf = Some page ->
  zs_level (pd_opaque page) = 0 ->
  exists page1,
    insert_try_compress rel buf (t_size (form_item state tid)) = Ok (write_page rel buf page1) /\
    (PageGetFreeSpace page1 < MAXALIGN (t_size (form_item state tid)) ->
     exists left right,
       rel_pages rel' !! buf = Some left /\
       pd_linp left = pd_linp page1 /\
       zs_next (pd_opaque left) = rel_nblocks rel /\
       rel_pages rel' !! rel_nblocks rel = Some right /\
       pd_linp right = [form_item state tid]).
Proof.
  intros Hrun Ha Hpage Hlevel.
  destruct (zsbt_insert_to_leaf_cases _ _ _ _ _ _ Hrun Ha)
    as (page0 & page1 & Hp0 & Htid & Hcomp & Hop & Hcases).
  assert (page0 = page) as -> by congruence.
  exists page1. split; [done|]. intros Hover.
  destruct (Z.geb_spec (PageGetFreeSpace page1) (MAXALIGN (t_size (form_item state tid))));
    [lia|].
  destruct (Hcases Hlevel) as (left & right & Hl & Hr & Hsl & Hsr & _).
  exists left, right.
  destruct Hsl as (Hli & _ & Hln & _). destruct Hsr as (Hri & _).
  simpl in *. done.
Qed.

(** The third large item inserted into a leaf that two have filled. *)
Lemma zsbt_insert_split_right_holds_only_new_witness :
  let state := MkInsertState 2 big_datum [] in
  exists tid rel',
    @zsbt_insert_to_leaf refusing_codec 4 full_relation 1 state = Ok (tid, rel') /\
    exists left right,
      rel_pages rel' !! 1 = Some left /\
      pd_linp left = pd_linp full_leaf /\
      rel_pages rel' !! 2 = Some right /\
      pd_linp right = [form_item state tid].
Proof.
  intros state.
  destruct (@zsbt_insert_to_leaf refusing_codec 4 full_relation 1 state)
    as [[tid rel']| |] eqn:Hrun; [|vm_compute in Hrun; discriminate..].
  exists tid, rel'. split; [reflexivity|].
  assert (blocks_allocated full_relation) as Ha.
  { split; [reflexivity|]. intros blk page Hp.
    destruct (decide (blk = 1)) as [->|Hne]; [done|].
    unfold full_relation in Hp. simpl in Hp. by rewrite lookup_singleton_ne in Hp. }
  destruct (@zsbt_insert_split_right_holds_only_new refusing_codec 4 full_relation 1 state
              tid rel' full_leaf Hrun Ha eq_refl eq_refl) as (page1 & Hcomp & Hsplit).
  assert (tid = ItemPointerSet 0 3) as -> by (vm_compute in Hrun; congruence).
  assert (page1 = full_leaf) as ->.
  { assert (@insert_try_compress refusing_codec full_relation 1
              (t_size (form_item state (ItemPointerSet 0 3))) = Ok full_relation) as Hc
      by (vm_compute; reflexivity).
    rewrite Hc in Hcomp.
    apply (f_equal (fun r => match r with Ok r => rel_pages r !! 1 | _ => None end))
      in Hcomp.
    simpl in Hcomp. rewrite lookup_insert_eq, lookup_singleton_eq in Hcomp. congruence. }
  destruct Hsplit as (left & right & Hl & Hli & _ & Hr & Hri).
  { vm_compute. reflexivity. }
  exists left, right. done.
Defined.


(* ===================================================================== *)
(** * The new root and the follow-right flag *)
(* ===================================================================== *)

(** [flags & ~ZS_FOLLOW_RIGHT], the statement [zsbt_insert_downlink]
    and [zsbt_split_internal] use, clears the bit. *)
Lemma clear_follow_right_clears flags :
  Z.land (clear_follow_right flags) ZS_FOLLOW_RIGHT = 0.
Proof.
  unfold clear_follow_right. rewrite <- Z.land_assoc.
  replace (Z.land (Z.lnot ZS_FOLLOW_RIGHT) ZS_FOLLOW_RIGHT) with 0 by reflexivity.
  apply Z.land_0_r.
Qed.

(** [flags & ZS_FOLLOW_RIGHT], the statement [zsbt_newroot] uses, keeps
    the bit as it is. *)
Lemma land_follow_right_keeps flags :
  Z.land (Z.land flags ZS_FOLLOW_RIGHT) ZS_FOLLOW_RIGHT = Z.land flags ZS_FOLLOW_RIGHT.
Proof. rewrite <- Z.land_assoc. by rewrite Z.land_diag. Qed.

(** What [zsbt_newroot] leaves behind, for any relation: the new root
    with its two downlinks at the requested level, the root pointer,
    and the left child with its flags masked by [ZS_FOLLOW_RIGHT]. *)
Lemma zsbt_newroot_result rel attno level key1 blk1 key2 blk2 leftchildbuf leftpage :
  blocks_allocated rel ->
  rel_pages rel !! leftchildbuf = Some leftpage ->
  exists rel' rootpage leftpage',
    zsbt_newroot rel attno level key1 blk1 key2 blk2 leftchildbuf = Ok rel' /\
    rel_roots rel' !! attno = Some (rel_nblocks rel) /\
    rel_pages rel' !! rel_nblocks rel = Some rootpage /\
    pd_downlinks rootpage = [MkInternalItem key1 blk1; MkInternalItem key2 blk2] /\
    zs_level (pd_opaque rootpage) = level /\
    rel_pages rel' !! leftchildbuf = Some leftpage' /\
    zs_flags (pd_opaque leftpage') = Z.land (zs_flags (pd_opaque leftpage)) ZS_FOLLOW_RIGHT.
Proof.
  intros Ha Hleft. pose proof (blocks_allocated_lookup _ _ _ Ha Hleft) as Hb.
  unfold zsbt_newroot, zs_getnewbuf, ReadBuffer. simpl. rewrite Hleft. simpl.
  eexists _, _, _. split; [reflexivity|]. simpl.
  rewrite lookup_insert_eq. split; [done|].
  rewrite lookup_insert_ne by lia. rewrite !lookup_insert_eq. done.
Qed.

(** C4 (the code at the failing input).  Called on the relation a leaf
    split has just produced, [zsbt_newroot] installs the two downlinks
    at level 1 and moves the root pointer, but the left child still has
    [ZS_FOLLOW_RIGHT] set afterwards. *)
Theorem zsbt_newroot_follow_right_stays_set :
  exists rel' rootpage leftpage',
    zsbt_newroot after_leaf_split 2 1 MinTid 1 (ItemPointerSet 1 1) 2 1 = Ok rel' /\
    rel_roots rel' !! 2 = Some 3 /\
    rel_pages rel' !! 3 = Some rootpage /\
    pd_downlinks rootpage
      = [MkInternalItem MinTid 1; MkInternalItem (ItemPointerSet 1 1) 2] /\
    zs_level (pd_opaque rootpage) = 1 /\
    rel_pages rel' !! 1 = Some leftpage' /\
    Z.land (zs_flags (pd_opaque leftpage')) ZS_FOLLOW_RIGHT = ZS_FOLLOW_RIGHT.
Proof.
  assert (blocks_allocated after_leaf_split) as Ha.
  { split; [reflexivity|]. intros blk page. unfold after_leaf_split. simpl.
    destruct (decide (blk = 2)) as [->|]; [done|]. rewrite lookup_insert_ne by done.
    destruct (decide (blk = 1)) as [->|]; [done|]. by rewrite lookup_singleton_ne. }
  destruct (zsbt_newroot_result after_leaf_split 2 1 MinTid 1 (ItemPointerSet 1 1) 2 1
              _ Ha eq_refl)
    as (rel' & rootpage & leftpage' & Hrun & Hroot & Hrp & Hdl & Hlvl & Hlp & Hflags).
  exists rel', rootpage, leftpage'. repeat split; try done.
  rewrite Hflags. reflexivity.
Qed.

(* ===================================================================== *)
(** * Operations on an attribute without a root *)
(* ===================================================================== *)

(** A descent that starts on a leaf returns that leaf. *)
Lemma zsbt_descend_leaf fuel rel rootblk key page :
  rel_pages rel !! rootblk = Some page ->
  zs_level (pd_opaque page) = 0 ->
  zsbt_descend (S fuel) rel rootblk key = Ok rootblk.
Proof.
  intros Hp Hl. unfold zsbt_descend. cbn [descend_loop].
  unfold ReadBuffer. rewrite Hp. cbn [bind]. unfold check_level, ZSBtreePageGetOpaque.
  rewrite Hl. reflexivity.
Qed.

(** C5 as stated fails for the last-TID probe: on a relation with no
    root for attribute 1 it returns the TID (0,1), and afterwards the
    attribute has a root. *)
Lemma zsbt_get_last_tid_creates_root :
  rel_roots empty_relation !! 1 = None /\
  exists rel',
    zsbt_get_last_tid 1 empty_relation 1 = Ok (ItemPointerSet 0 1, rel') /\
    rel_roots rel' !! 1 = Some 1 /\
    rel_pages rel' !! 1 = Some initial_root_page.
Proof.
  split; [reflexivity|]. eexists. split; [reflexivity|]. split; reflexivity.
Qed.

(** C5, amended.  When the attribute has no root: [zsbt_begin_scan]
    hands back an inactive scan, on which [zsbt_scan_next] returns
    false, and [zsbt_scan_for_tuple_delete] returns false; neither
    changes the relation.  [zsbt_get_last_tid] asks the metapage to
    create the root, an empty leaf, and returns that leaf's low key
    (0,1). *)
Theorem no_root_operations `{ZSMvcc} `{ZSCodec} rel attno :
  rel_roots rel !! attno = None ->
  (forall fuel starttid snapshot scan,
     exists scan',
       zsbt_begin_scan fuel rel attno starttid snapshot scan = Ok (scan', rel) /\
       scan_active scan' = false /\
       forall fuel', zsbt_scan_next fuel' rel scan' = Ok (scan', None)) /\
  (attno = 1 ->
   forall fuel tid, zsbt_scan_for_tuple_delete fuel rel tid = Ok (TupleNotFound, rel)) /\
  (forall fuel,
     zsbt_get_last_tid (S fuel) rel attno
     = Ok (ItemPointerSet 0 1,
           MkRel (<[rel_nblocks rel := initial_root_page]> (rel_pages rel))
                 (rel_nblocks rel + 1)
                 (<[attno := rel_nblocks rel]> (rel_roots rel)))).
Proof.
  intros Hnone. split; [|split].
  - intros fuel starttid snapshot scan.
    unfold zsbt_begin_scan, zsmeta_get_root_for_attribute. rewrite Hnone. simpl.
    eexists. split; [reflexivity|]. split; [reflexivity|]. intros fuel'. reflexivity.
  - intros -> fuel tid.
    unfold zsbt_scan_for_tuple_delete, zsmeta_get_root_for_attribute. rewrite Hnone.
    reflexivity.
  - intros fuel.
    unfold zsbt_get_last_tid, zsmeta_get_root_for_attribute. rewrite Hnone.
    unfold zs_getnewbuf.
    rewrite (zsbt_descend_leaf fuel _ _ _ initial_root_page);
      [|cbn [rel_pages]; apply lookup_insert_eq|reflexivity].
    cbn [bind]. unfold ReadBuffer. cbn [rel_pages rel_nblocks].
    rewrite lookup_insert_eq. reflexivity.
Qed.

Lemma no_root_operations_witness :
  rel_roots empty_relation !! 1 = None /\
  (forall fuel tid,
     zsbt_scan_for_tuple_delete fuel empty_relation tid = Ok (TupleNotFound, empty_relation)) /\
  zsbt_get_last_tid 1 empty_relation 1
  = Ok (ItemPointerSet 0 1, MkRel {[ 1 := initial_root_page ]} 2 {[ 1 := 1 ]}).
Proof.
  destruct (@no_root_operations all_visible refusing_codec empty_relation 1 eq_refl)
    as (_ & Hdel & Hlast).
  split; [reflexivity|]. split; [exact (Hdel eq_refl)|]. exact (Hlast 0%nat).
Defined.

(* ===================================================================== *)
(** * The delete probe on a compressed run *)
(* ===================================================================== *)

(** When the walk over the page stops at a compressed run, the next
    pass of the loop starts from the same buffer with nothing changed:
    no amount of fuel lets the loop return. *)
Lemma delete_loop_stuck rel buf tid page item :
  rel_pages rel !! buf = Some page ->
  delete_page_items (pd_linp page) FirstOffsetNumber tid = HitCompressed item ->
  forall fuel, delete_loop fuel rel buf tid = OutOfFuel.
Proof.
  intros Hp Hhit fuel. induction fuel as [|fuel IH]; [reflexivity|].
  cbn [delete_loop]. unfold ReadBuffer. rewrite Hp. cbn [bind]. by rewrite Hhit.
Qed.

(** Without a compressed run at or after the target on the page, one
    pass of the loop returns or moves on to the right sibling. *)
Lemma delete_loop_uncompressed rel buf tid page off item fuel :
  rel_pages rel !! buf = Some page ->
  delete_page_items (pd_linp page) FirstOffsetNumber tid = HitItem off item ->
  delete_loop (S fuel) rel buf tid = Ok (TupleDeleteCalled buf off item).
Proof.
  intros Hp Hhit. cbn [delete_loop]. unfold ReadBuffer. rewrite Hp. cbn [bind].
  by rewrite Hhit.
Qed.

(** C6 (the code at the failing input).  On a tree whose leaf holds a
    compressed run that reaches the target TID, the delete probe does
    not return, whatever fuel it is given: each pass of its loop reads
    the same page and stops at the same run. *)
Theorem zsbt_scan_for_tuple_delete_spins :
  forall fuel,
    zsbt_scan_for_tuple_delete fuel run_relation (ItemPointerSet 0 3) = OutOfFuel.
Proof.
  intros fuel. unfold zsbt_scan_for_tuple_delete.
  change (zsmeta_get_root_for_attribute run_relation 1 false) with (1, run_relation).
  cbv iota beta. change (1 =? InvalidBlockNumber) with false. cbv iota.
  destruct fuel as [|fuel]; [reflexivity|].
  rewrite (zsbt_descend_leaf fuel run_relation 1 _ run_leaf); [|reflexivity..].
  cbn [bind].
  rewrite (delete_loop_stuck run_relation 1 (ItemPointerSet 0 3) run_leaf sample_run);
    reflexivity.
Qed.

(* ===================================================================== *)
(** * The TID the inserter assigns *)
(* ===================================================================== *)

Lemma tid_max_r a b : tid_le a b -> tid_max a b = b.
Proof.
  intros Hle. unfold tid_max. destruct (ItemPointerCompare a b >=? 0) eqn:Hc; [|done].
  apply tid_compare_ge in Hc. by apply tid_le_antisym.
Qed.

(** On a page whose items are in order, the largest TID is the last
    TID of the last item. *)
Lemma page_max_tid_last page item :
  page_items_ordered page ->
  last (pd_linp page) = Some item ->
  page_max_tid page = Some (item_last_tid item).
Proof.
  unfold page_items_ordered, page_max_tid. destruct (pd_linp page) as [|x l]; [done|].
  clear page. revert x item. induction l as [|y l IH]; intros x item [Hin Hord] Hlast.
  - simpl in *. congruence.
  - cbn [foldl]. rewrite tid_max_r.
    + apply (IH y item); [|by rewrite last_cons_cons in Hlast].
      split.
      * intros it Hit. apply Hin. by right.
      * intros i j a b Ha Hb Hij. apply (Hord (S i) (S j)); auto. lia.
    + eapply tid_le_trans; [|apply (Hin y); set_solver].
      apply tid_lt_le. apply (Hord 0%nat 1%nat); auto.
Qed.

(** So when the last item is uncompressed, the TID the inserter and
    the last-TID probe take is the largest TID on the page plus one. *)
Lemma next_tid_on_leaf_uncompressed page item :
  page_items_ordered page ->
  last (pd_linp page) = Some item ->
  item_is_compressed item = false ->
  exists m, page_max_tid page = Some m /\ next_tid_on_leaf page = ItemPointerIncrement m.
Proof.
  intros Hord Hlast Hunc. exists (item_last_tid item).
  split; [by apply page_max_tid_last|].
  unfold next_tid_on_leaf, PageGetMaxOffsetNumber, PageGetItem, FirstOffsetNumber.
  destruct (pd_linp page) as [|x l] eqn:Hl; [done|].
  assert (length (x :: l) = S (length l)) as Hlen by done.
  destruct (Z.geb_spec (Z.of_nat (length (x :: l))) 1); [|lia].
  destruct (Z.ltb_spec (Z.of_nat (length (x :: l))) 1); [lia|].
  rewrite last_lookup in Hlast.
  replace (Z.to_nat (Z.of_nat (length (x :: l)) - 1)) with (Init.Nat.pred (length (x :: l)))
    by lia.
  rewrite (list_lookup_total_correct _ _ _ Hlast).
  unfold item_last_tid. by rewrite Hunc.
Qed.

Lemma next_tid_on_leaf_empty page :
  pd_linp page = [] -> next_tid_on_leaf page = zs_lokey (pd_opaque page).
Proof. intros Hl. unfold next_tid_on_leaf, PageGetMaxOffsetNumber. by rewrite Hl. Qed.

(** C2 (the code at the failing input).  On a leaf whose last item is
    a compressed run covering (0,1) to (0,5), the largest TID present
    is (0,5), so the next TID is (0,6); the last-TID probe and the
    inserter both come up with (0,2), the run's first TID plus one. *)
Theorem next_tid_after_compressed_run :
  page_max_tid run_leaf = Some (ItemPointerSet 0 5) /\
  ItemPointerIncrement (ItemPointerSet 0 5) = ItemPointerSet 0 6 /\
  zsbt_get_last_tid 1 run_relation 2 = Ok (ItemPointerSet 0 2, run_relation) /\
  exists rel',
    @zsbt_insert refusing_codec 1 run_relation 2 [x01] [] = Ok (ItemPointerSet 0 2, rel') /\
    (pd_linp <$> rel_pages rel' !! 2)
    = Some [sample_run; form_item (MkInsertState 2 [x01] []) (ItemPointerSet 0 2)].
Proof.
  split; [reflexivity|]. split; [reflexivity|]. split; [reflexivity|].
  eexists. split; [vm_compute; reflexivity|]. vm_compute. reflexivity.
Qed.

(* ===================================================================== *)
(** * The key range of the page a leaf split creates *)
(* ===================================================================== *)

(** Whenever [zsbt_insert_to_leaf] splits a leaf, the new right page
    starts at the split TID and holds the one item whose TID was taken
    from the left page; if that TID is below the split TID, the right
    page's item is outside the page's key range. *)
Lemma zsbt_insert_to_leaf_split_range `{ZSCodec} fuel rel buf state tid rel' page :
  zsbt_insert_to_leaf fuel rel buf state = Ok (tid, rel') ->
  blocks_allocated rel ->
  rel_pages rel !! buf = Some page ->
  zs_level (pd_opaque page) = 0 ->
  rel_nblocks rel < rel_nblocks rel' ->
  exists right,
    rel_pages rel' !! rel_nblocks rel = Some right /\
    zs_lokey (pd_opaque right) = leaf_split_tid page /\
    pd_linp right = [form_item state tid] /\
    tid = next_tid_on_leaf page /\
    (tid_lt tid (leaf_split_tid page) -> ~ page_items_in_range right).
Proof.
  intros Hrun Ha Hpage Hlevel Hgrew.
  destruct (zsbt_insert_to_leaf_cases _ _ _ _ _ _ Hrun Ha)
    as (page0 & page1 & Hp0 & Htid & Hcomp & Hop & Hcases).
  assert (page0 = page) as -> by congruence.
  destruct (PageGetFreeSpace page1 >=? MAXALIGN (t_size (form_item state tid))).
  - subst rel'. simpl in Hgrew. lia.
  - destruct (Hcases Hlevel) as (left & right & Hl & Hr & Hsl & Hsr & _).
    destruct Hsr as (Hri & _ & _ & Hlo & _). simpl in Hri, Hlo.
    exists right. repeat split; try done.
    intros Hlt Hrange. destruct (Hrange (form_item state tid)) as [Hle _].
    { rewrite Hri. set_solver. }
    rewrite Hlo in Hle. simpl in Hle. apply tid_le_not_lt in Hle. done.
Qed.

Lemma full_leaf_invariant :
  page_items_ordered full_leaf /\ page_items_in_range full_leaf.
Proof.
  split; [split|].
  - intros item Hin. unfold full_leaf in Hin. simpl in Hin.
    repeat (apply elem_of_cons in Hin as [->|Hin]); [..|by apply elem_of_nil in Hin];
      vm_compute; congruence.
  - intros [|[|i]] [|[|j]] x y Hx Hy Hij; simpl in Hx, Hy; try lia; try discriminate.
    injection Hx as <-. injection Hy as <-. vm_compute. reflexivity.
  - intros item Hin. unfold full_leaf in Hin. simpl in Hin.
    repeat (apply elem_of_cons in Hin as [->|Hin]); [..|by apply elem_of_nil in Hin];
      split; vm_compute; congruence.
Qed.

(** C1 (the code at the failing input).  The one leaf of the sample
    tree has its items in order and within its key range.  Inserting
    one more large datum splits it: the new item gets the TID (0,3) and
    lands alone on the new right page, whose low key is (1,1).  Its TID
    is below the low key of the page it is on. *)
Theorem zsbt_insert_split_breaks_key_range :
  (forall blk page, rel_pages full_relation !! blk = Some page ->
     page_items_ordered page /\ page_items_in_range page) /\
  exists rel' right,
    @zsbt_insert refusing_codec 4 full_relation 2 big_datum [] = Ok (ItemPointerSet 0 3, rel') /\
    rel_pages rel' !! 2 = Some right /\
    zs_lokey (pd_opaque right) = ItemPointerSet 1 1 /\
    t_tid <$> pd_linp right = [ItemPointerSet 0 3] /\
    tid_lt (ItemPointerSet 0 3) (zs_lokey (pd_opaque right)) /\
    ~ page_items_in_range right.
Proof.
  split.
  - intros blk page Hp. unfold full_relation in Hp. simpl in Hp.
    destruct (decide (blk = 1)) as [->|Hne].
    + rewrite lookup_singleton_eq in Hp. injection Hp as <-. apply full_leaf_invariant.
    + by rewrite lookup_singleton_ne in Hp.
  - destruct (@zsbt_insert refusing_codec 4 full_relation 2 big_datum [])
      as [[tid rel']| |] eqn:Hrun; [|vm_compute in Hrun; discriminate..].
    assert (tid = ItemPointerSet 0 3) as -> by (vm_compute in Hrun; congruence).
    destruct (rel_pages rel' !! 2) as [right|] eqn:Hright;
      [|exfalso; revert Hright; vm_compute in Hrun; injection Hrun as <-;
        vm_compute; discriminate].
    assert (zs_lokey (pd_opaque right) = ItemPointerSet 1 1
            /\ t_tid <$> pd_linp right = [ItemPointerSet 0 3]) as [Hlo Hitems].
    { revert Hright. vm_compute in Hrun. injection Hrun as <-.
      vm_compute. intros [= <-]. split; reflexivity. }
    exists rel', right. split; [reflexivity|]. split; [done|]. split; [done|].
    split; [done|]. split; [by rewrite Hlo|].
    intros Hrange. destruct (pd_linp right) as [|item [|]] eqn:Hl; try discriminate.
    injection Hitems as Htid.
    destruct (Hrange item) as [Hle _]; [rewrite Hl; set_solver|].
    rewrite Hlo, Htid in Hle. vm_compute in Hle. congruence.
Qed.


(* ===================================================================== *)
(** * Page space arithmetic *)
(* ===================================================================== *)

Lemma MAXALIGN_eq x : MAXALIGN x = 8 * ((x + 7) / 8).
Proof.
  unfold MAXALIGN. rewrite <- Z.ldiff_land.
  change 7 with (Z.ones 3) at 2.
  rewrite Z.ldiff_ones_r, Z.shiftl_mul_pow2, Z.shiftr_div_pow2 by lia.
  change (2 ^ 3) with 8. lia.
Qed.

Lemma MAXALIGN_bounds x : x <= MAXALIGN x < x + 8.
Proof. rewrite MAXALIGN_eq. pose proof (Z.div_mod (x + 7) 8).
  pose proof (Z.mod_pos_bound (x + 7) 8). lia. Qed.

Lemma MAXALIGN_pos x : 0 < x -> 0 < MAXALIGN x.
Proof. pose proof (MAXALIGN_bounds x). lia. Qed.

Lemma items_bytes_app l1 l2 : items_bytes (l1 ++ l2) = items_bytes l1 + items_bytes l2.
Proof. unfold items_bytes. induction l1 as [|x l1 IH]; simpl; [lia|]. rewrite IH. lia. Qed.

Lemma items_bytes_nonneg `{ZSCodec} l : Forall item_ok l -> 0 <= items_bytes l.
Proof.
  induction 1 as [|x l [Hx _] _ IH]; [done|].
  change (items_bytes (x :: l)) with (MAXALIGN (t_size x) + items_bytes l).
  pose proof (MAXALIGN_pos _ Hx). lia.
Qed.

(** Appending at the end succeeds exactly when the new line pointer and
    the aligned item fit in the hole. *)
Lemma PageAddItemExtended_append page item size :
  pd_lower page + sizeof_ItemIdData <= pd_upper page - MAXALIGN size ->
  PageAddItemExtended page item size (PageGetMaxOffsetNumber page + 1)
  = Some (MkPage (pd_linp page ++ [item]) (pd_downlinks page) (pd_opaque page)).
Proof.
  intros Hfit. unfold PageAddItemExtended. cbv zeta.
  rewrite Z.ltb_irrefl.
  destruct (Z.ltb_spec (pd_upper page - MAXALIGN size) (pd_lower page + sizeof_ItemIdData));
    [lia|done].
Qed.

Lemma PageGetFreeSpace_fits page size :
  0 < MAXALIGN size ->
  MAXALIGN size <= PageGetFreeSpace page ->
  pd_lower page + sizeof_ItemIdData <= pd_upper page - MAXALIGN size.
Proof.
  unfold PageGetFreeSpace. cbv zeta.
  destruct (Z.ltb_spec (pd_upper page - pd_lower page) sizeof_ItemIdData); lia.
Qed.

Lemma PageGetFreeSpace_fits_inv page size :
  pd_lower page + sizeof_ItemIdData <= pd_upper page - MAXALIGN size ->
  0 <= MAXALIGN size ->
  MAXALIGN size <= PageGetFreeSpace page.
Proof.
  unfold PageGetFreeSpace, sizeof_ItemIdData. cbv zeta.
  destruct (Z.ltb_spec (pd_upper page - pd_lower page) 4); lia.
Qed.

Lemma pd_lower_append page item :
  pd_lower (MkPage (pd_linp page ++ [item]) (pd_downlinks page) (pd_opaque page))
  = pd_lower page + sizeof_ItemIdData.
Proof. unfold pd_lower. simpl. rewrite length_app. simpl. lia. Qed.

Lemma pd_upper_append page item :
  pd_upper (MkPage (pd_linp page ++ [item]) (pd_downlinks page) (pd_opaque page))
  = pd_upper page - MAXALIGN (t_size item).
Proof. unfold pd_upper. simpl. rewrite items_bytes_app. simpl. lia. Qed.

(** A full internal page holds at least 814 downlinks. *)
Lemma internal_page_full_count page :
  pd_linp page = [] ->
  ZSBtreeInternalPageIsFull page = true ->
  814 <= Z.of_nat (length (pd_downlinks page)).
Proof.
  intros Hl. unfold ZSBtreeInternalPageIsFull, pd_upper, pd_lower. rewrite Hl. simpl.
  rewrite MAXALIGN_eq. unfold BLCKSZ, sizeof_ZSBtreePageOpaque, SizeOfPageHeaderData,
    sizeof_ItemIdData, sizeof_ZSBtreeInternalPageItem.
  change ((24 + 7) / 8) with 3. intros Hfull. apply Z.ltb_lt in Hfull. lia.
Qed.

(* ===================================================================== *)
(** * Searches that end at the last or the first downlink *)
(* ===================================================================== *)

Lemma binsrch_internal_last key arr :
  arr <> [] ->
  (forall item, item ∈ arr -> tid_le (tid item) key) ->
  zsbt_binsrch_internal key arr (Z.of_nat (length arr)) = Z.of_nat (length arr) - 1.
Proof.
  intros Hne Hall. apply binsrch_internal_partition.
  - destruct arr; [done|]. simpl length. lia.
  - intros i Hi. apply Hall.
    eapply list_elem_of_lookup_2. apply arr_get_in_range. lia.
  - intros i Hi. lia.
Qed.

Lemma binsrch_internal_first key arr x :
  head arr = Some x -> tid_le (tid x) key ->
  (forall (i : nat) item, arr !! S i = Some item -> tid_lt key (tid item)) ->
  zsbt_binsrch_internal key arr (Z.of_nat (length arr)) = 0.
Proof.
  intros Hhd Hle Hgt. destruct arr as [|y arr]; [done|]. injection Hhd as ->.
  apply binsrch_internal_partition.
  - simpl length. lia.
  - intros i Hi. assert (i = 0) as -> by lia. done.
  - intros i Hi. replace i with (Z.of_nat (S (Z.to_nat (i - 1)))) by lia.
    destruct (lookup_lt_is_Some_2 (x :: arr) (S (Z.to_nat (i - 1)))) as [item Hitem];
      [simpl in *; lia|].
    rewrite (arr_get_lookup _ _ _ Hitem). by eapply Hgt.
Qed.

Lemma arr_get_last (arr : list ZSBtreeInternalPageItem) x :
  last arr = Some x -> arr_get arr (Z.of_nat (length arr) - 1) = x.
Proof.
  intros Hlast. rewrite last_lookup in Hlast.
  destruct arr as [|y arr]; [done|].
  replace (Z.of_nat (length (y :: arr)) - 1) with (Z.of_nat (Init.Nat.pred (length (y :: arr))))
    by (simpl length; lia).
  by apply arr_get_lookup.
Qed.

Lemma arr_get_head (arr : list ZSBtreeInternalPageItem) x :
  head arr = Some x -> arr_get arr 0 = x.
Proof. destruct arr; [done|]. by intros [= ->]. Qed.

Lemma check_level_start opaque :
  check_level opaque (-1) = Ok (zs_level opaque).
Proof. reflexivity. Qed.

Lemma check_level_same opaque :
  zs_level opaque <> -1 ->
  check_level opaque (zs_level opaque) = Ok (zs_level opaque).
Proof.
  intros Hne. unfold check_level.
  destruct (Z.eqb_spec (zs_level opaque) (-1)); [done|].
  by rewrite Z.eqb_refl.
Qed.


(* ===================================================================== *)
(** * Descending along the spines *)
(* ===================================================================== *)

Lemma spine_top_cons child b up : spine_top child (b :: up) = spine_top b up.
Proof.
  unfold spine_top. destruct up as [|c up]; [done|]. rewrite last_cons_cons.
  destruct (last (c :: up)) eqn:E; [done|]. by apply last_None in E.
Qed.

Lemma spine_top_nil child : spine_top child [] = child.
Proof. done. Qed.

Lemma rspine_frame rel rel' up : forall child ck level,
  (forall b, b ∈ up -> rel_pages rel' !! b = rel_pages rel !! b) ->
  rspine rel child ck level up -> rspine rel' child ck level up.
Proof.
  induction up as [|b up IH]; intros child ck level Hsame; [done|].
  intros (page & Hp & Hok & Hrest). exists page. split; [|split; [done|]].
  - rewrite Hsame; [done|set_solver].
  - apply IH; [|done]. intros c Hc. apply Hsame. set_solver.
Qed.

Lemma lspine_frame rel rel' lup : forall child level,
  (forall b, b ∈ lup -> rel_pages rel' !! b = rel_pages rel !! b) ->
  lspine rel child level lup -> lspine rel' child level lup.
Proof.
  induction lup as [|b lup IH]; intros child level Hsame; [done|].
  intros (page & Hp & Hok & Hrest). exists page. split; [|split; [done|]].
  - rewrite Hsame; [done|set_solver].
  - apply IH; [|done]. intros c Hc. apply Hsame. set_solver.
Qed.

(** The keys of a right-spine page are at most the low key of the page
    below, and its low key is its smallest key. *)
Lemma rpage_ok_keys page level ck child :
  rpage_ok page level ck child ->
  (forall item, item ∈ pd_downlinks page -> tid_le (tid item) ck) /\
  tid_lt (zs_lokey (pd_opaque page)) ck.
Proof.
  intros (_ & _ & Hs & Hlen & Hlast & Hhead & _).
  rewrite last_lookup in Hlast. split.
  - intros item Hitem. apply list_elem_of_lookup_1 in Hitem as [i Hi].
    pose proof (lookup_lt_Some _ _ _ Hi).
    change ck with (tid (MkInternalItem ck child)).
    apply (items_strictly_sorted_sorted _ Hs i (Init.Nat.pred (length (pd_downlinks page))));
      auto. lia.
  - destruct (pd_downlinks page) as [|x l] eqn:Hl; [done|]. simpl in Hhead.
    injection Hhead as <-.
    change ck with (tid (MkInternalItem ck child)).
    apply (Hs 0%nat (Init.Nat.pred (length (x :: l)))); auto. simpl in *. lia.
Qed.

Lemma tid_compare_hikey K :
  tid_lt K MaxTid -> (ItemPointerCompare K MaxTid >=? 0) = false.
Proof. intros H. by apply tid_compare_ge_false. Qed.

(** One step of the descent on a right-spine page, for a key at or
    beyond the low key of the page below: it follows the last
    downlink. *)
Lemma descend_step_rpage rel b page level ck child K fuel :
  rel_pages rel !! b = Some page ->
  rpage_ok page (level + 1) ck child ->
  0 <= level -> tid_le ck K -> tid_lt K MaxTid ->
  descend_loop (S fuel) rel K b (level + 1) = descend_loop fuel rel K child level.
Proof.
  intros Hp Hok Hlevel HK Hmax.
  destruct (rpage_ok_keys _ _ _ _ Hok) as [Hkeys _].
  destruct Hok as (Hlv & Hlinp & Hs & Hlen & Hlast & Hhead & Hhi).
  cbn [descend_loop]. unfold ReadBuffer. rewrite Hp. cbn [bind].
  unfold ZSBtreePageGetOpaque, ZSBtreeInternalPageGetItems, ZSBtreeInternalPageGetNumItems.
  rewrite <- Hlv at 1. rewrite check_level_same by lia. cbn [bind].
  rewrite Hlv. destruct (Z.eqb_spec (level + 1) 0); [lia|].
  rewrite Hhi, tid_compare_hikey by done.
  rewrite binsrch_internal_last.
  - destruct (Z.ltb_spec (Z.of_nat (length (pd_downlinks page)) - 1) 0); [lia|].
    rewrite (arr_get_last _ _ Hlast). simpl. f_equal. lia.
  - intros E. rewrite E in Hlen. simpl in Hlen. lia.
  - intros item Hitem. eapply tid_le_trans; [by apply Hkeys|done].
Qed.

(** The descent from the top of the right spine comes down to the
    bottom. *)
Lemma descend_loop_rspine up : forall rel child ck level K fuel,
  0 <= level -> rspine rel child ck level up -> tid_le ck K -> tid_lt K MaxTid ->
  descend_loop (length up + fuel) rel K (spine_top child up) (level + Z.of_nat (length up))
  = descend_loop fuel rel K child level.
Proof.
  induction up as [|b up IH]; intros rel child ck level K fuel Hlevel Hsp HK Hmax.
  - simpl. f_equal. lia.
  - destruct Hsp as (page & Hp & Hok & Hrest).
    destruct (rpage_ok_keys _ _ _ _ Hok) as [_ Hlo].
    rewrite spine_top_cons.
    replace (length (b :: up) + fuel)%nat with (length up + S fuel)%nat by (simpl; lia).
    replace (level + Z.of_nat (length (b :: up))) with (level + 1 + Z.of_nat (length up))
      by (simpl length; lia).
    rewrite (IH rel b (zs_lokey (pd_opaque page)) (level + 1) K (S fuel)); [|lia|done| |done].
    + by eapply descend_step_rpage.
    + eapply tid_le_trans; [apply tid_lt_le, Hlo|done].
Qed.

(** Starting with [nextlevel = -1] is starting with the level of the
    first page. *)
Lemma descend_loop_start fuel rel K next page :
  rel_pages rel !! next = Some page ->
  zs_level (pd_opaque page) <> -1 ->
  descend_loop fuel rel K next (-1)
  = descend_loop fuel rel K next (zs_level (pd_opaque page)).
Proof.
  intros Hp Hne. destruct fuel as [|fuel]; [done|].
  cbn [descend_loop]. unfold ReadBuffer. rewrite Hp. cbn [bind].
  unfold ZSBtreePageGetOpaque. rewrite check_level_start, check_level_same by done. done.
Qed.

Lemma descend_loop_leaf fuel rel K blk page :
  rel_pages rel !! blk = Some page ->
  zs_level (pd_opaque page) = 0 ->
  descend_loop (S fuel) rel K blk 0 = Ok blk.
Proof.
  intros Hp Hl. cbn [descend_loop]. unfold ReadBuffer. rewrite Hp. cbn [bind].
  unfold ZSBtreePageGetOpaque. rewrite <- Hl at 1. rewrite check_level_same by lia.
  cbn [bind]. by rewrite Hl.
Qed.

(** The level of the topmost page of a spine. *)
Lemma rspine_top_level rel up : forall child ck level page,
  rspine rel child ck level up ->
  rel_pages rel !! child = Some page -> zs_level (pd_opaque page) = level ->
  exists top, rel_pages rel !! spine_top child up = Some top /\
              zs_level (pd_opaque top) = level + Z.of_nat (length up).
Proof.
  induction up as [|b up IH]; intros child ck level page Hsp Hp Hl.
  - exists page. rewrite spine_top_nil. split; [done|]. simpl. lia.
  - destruct Hsp as (pb & Hpb & Hok & Hrest). rewrite spine_top_cons.
    destruct (IH b _ (level + 1) pb Hrest Hpb) as (top & Htop & Hlv); [apply Hok|].
    exists top. split; [done|]. simpl length. lia.
Qed.

Lemma lspine_top_level rel lup : forall child level page,
  lspine rel child level lup ->
  rel_pages rel !! child = Some page -> zs_level (pd_opaque page) = level ->
  exists top, rel_pages rel !! spine_top child lup = Some top /\
              zs_level (pd_opaque top) = level + Z.of_nat (length lup).
Proof.
  induction lup as [|b lup IH]; intros child level page Hsp Hp Hl.
  - exists page. rewrite spine_top_nil. split; [done|]. simpl. lia.
  - destruct Hsp as (pb & Hpb & Hok & Hrest). rewrite spine_top_cons.
    destruct (IH b (level + 1) pb Hrest Hpb) as (top & Htop & Hlv); [apply Hok|].
    exists top. split; [done|]. simpl length. lia.
Qed.

(** The whole descent for a key on the right: from the root down the
    right spine to the leaf at its bottom. *)
Lemma zsbt_descend_rspine rel leaf page up K fuel :
  rel_pages rel !! leaf = Some page -> zs_level (pd_opaque page) = 0 ->
  rspine rel leaf (zs_lokey (pd_opaque page)) 0 up ->
  tid_le (zs_lokey (pd_opaque page)) K -> tid_lt K MaxTid ->
  (length up < fuel)%nat ->
  zsbt_descend fuel rel (spine_top leaf up) K = Ok leaf.
Proof.
  intros Hp Hl Hsp HK Hmax Hfuel. unfold zsbt_descend.
  destruct (rspine_top_level _ _ _ _ _ _ Hsp Hp Hl) as (top & Htop & Hlv).
  rewrite (descend_loop_start _ _ _ _ _ Htop) by lia. rewrite Hlv.
  replace fuel with (length up + S (fuel - length up - 1))%nat by lia.
  rewrite (descend_loop_rspine up rel leaf (zs_lokey (pd_opaque page)) 0 K); [|lia|done..].
  by eapply descend_loop_leaf.
Qed.

(** One step of the descent on a left-spine page, for the key (0,1):
    it follows the first downlink. *)
Lemma descend_step_lpage rel b page level child fuel :
  rel_pages rel !! b = Some page ->
  lpage_ok page (level + 1) child ->
  0 <= level ->
  descend_loop (S fuel) rel MinTid b (level + 1) = descend_loop fuel rel MinTid child level.
Proof.
  intros Hp (Hlv & Hlinp & Hhead & Hrest & Hhi) Hlevel.
  cbn [descend_loop]. unfold ReadBuffer. rewrite Hp. cbn [bind].
  unfold ZSBtreePageGetOpaque, ZSBtreeInternalPageGetItems, ZSBtreeInternalPageGetNumItems.
  rewrite <- Hlv at 1. rewrite check_level_same by lia. cbn [bind].
  rewrite Hlv. destruct (Z.eqb_spec (level + 1) 0); [lia|].
  rewrite (proj2 (tid_compare_ge_false _ _) Hhi).
  rewrite (binsrch_internal_first _ _ _ Hhead); [| apply tid_le_refl | done].
  simpl. rewrite (arr_get_head _ _ Hhead). simpl. f_equal. lia.
Qed.

Lemma descend_loop_lspine lup : forall rel child level fuel,
  0 <= level -> lspine rel child level lup ->
  descend_loop (length lup + fuel) rel MinTid (spine_top child lup)
    (level + Z.of_nat (length lup))
  = descend_loop fuel rel MinTid child level.
Proof.
  induction lup as [|b lup IH]; intros rel child level fuel Hlevel Hsp.
  - simpl. f_equal. lia.
  - destruct Hsp as (page & Hp & Hok & Hrest). rewrite spine_top_cons.
    replace (length (b :: lup) + fuel)%nat with (length lup + S fuel)%nat by (simpl; lia).
    replace (level + Z.of_nat (length (b :: lup))) with (level + 1 + Z.of_nat (length lup))
      by (simpl length; lia).
    rewrite (IH rel b (level + 1) (S fuel)); [|lia|done].
    by eapply descend_step_lpage.
Qed.

(** The whole descent for the key (0,1): from the root down the left
    spine to the first leaf. *)
Lemma zsbt_descend_lspine rel leaf page lup fuel :
  rel_pages rel !! leaf = Some page -> zs_level (pd_opaque page) = 0 ->
  lspine rel leaf 0 lup ->
  (length lup < fuel)%nat ->
  zsbt_descend fuel rel (spine_top leaf lup) MinTid = Ok leaf.
Proof.
  intros Hp Hl Hsp Hfuel. unfold zsbt_descend.
  destruct (lspine_top_level _ _ _ _ _ Hsp Hp Hl) as (top & Htop & Hlv).
  rewrite (descend_loop_start _ _ _ _ _ Htop) by lia. rewrite Hlv.
  replace fuel with (length lup + S (fuel - length lup - 1))%nat by lia.
  rewrite (descend_loop_lspine lup rel leaf 0); [|lia|done].
  by eapply descend_loop_leaf.
Qed.

(** The same two steps for [zsbt_find_downlink], which stops one
    level above the child it is given. *)
Lemma find_downlink_step_above rel b page lvl ck child K cblk level fuel :
  rel_pages rel !! b = Some page ->
  rpage_ok page (lvl + 1) ck child ->
  0 <= level < lvl -> tid_le ck K -> tid_lt K MaxTid ->
  find_downlink_loop (S fuel) rel K cblk level b (lvl + 1)
  = find_downlink_loop fuel rel K cblk level child lvl.
Proof.
  intros Hp Hok Hlevel HK Hmax.
  destruct (rpage_ok_keys _ _ _ _ Hok) as [Hkeys _].
  destruct Hok as (Hlv & Hlinp & Hs & Hlen & Hlast & Hhead & Hhi).
  cbn [find_downlink_loop]. unfold ReadBuffer. rewrite Hp. cbn [bind].
  unfold ZSBtreePageGetOpaque, ZSBtreeInternalPageGetItems, ZSBtreeInternalPageGetNumItems.
  rewrite <- Hlv at 1. rewrite check_level_same by lia. cbn [bind].
  rewrite Hlv. destruct (Z.leb_spec (lvl + 1) level); [lia|].
  rewrite Hhi, tid_compare_hikey by done.
  rewrite binsrch_internal_last.
  - destruct (Z.ltb_spec (Z.of_nat (length (pd_downlinks page)) - 1) 0); [lia|].
    destruct (Z.eqb_spec (lvl + 1) (level + 1)); [lia|].
    rewrite (arr_get_last _ _ Hlast). simpl. f_equal. lia.
  - intros E. rewrite E in Hlen. simpl in Hlen. lia.
  - intros item Hitem. eapply tid_le_trans; [by apply Hkeys|done].
Qed.

Lemma find_downlink_step_parent rel b page ck child K level fuel :
  rel_pages rel !! b = Some page ->
  rpage_ok page (level + 1) ck child ->
  0 <= level -> tid_le ck K -> tid_lt K MaxTid ->
  find_downlink_loop (S fuel) rel K child level b (level + 1)
  = Ok (b, Z.of_nat (length (pd_downlinks page)) - 1).
Proof.
  intros Hp Hok Hlevel HK Hmax.
  destruct (rpage_ok_keys _ _ _ _ Hok) as [Hkeys _].
  destruct Hok as (Hlv & Hlinp & Hs & Hlen & Hlast & Hhead & Hhi).
  cbn [find_downlink_loop]. unfold ReadBuffer. rewrite Hp. cbn [bind].
  unfold ZSBtreePageGetOpaque, ZSBtreeInternalPageGetItems, ZSBtreeInternalPageGetNumItems.
  rewrite <- Hlv at 1. rewrite check_level_same by lia. cbn [bind].
  rewrite Hlv. destruct (Z.leb_spec (level + 1) level); [lia|].
  rewrite Hhi, tid_compare_hikey by done.
  rewrite binsrch_internal_last.
  - destruct (Z.ltb_spec (Z.of_nat (length (pd_downlinks page)) - 1) 0); [lia|].
    rewrite Z.eqb_refl. rewrite (arr_get_last _ _ Hlast). simpl.
    by rewrite Z.eqb_refl.
  - intros E. rewrite E in Hlen. simpl in Hlen. lia.
  - intros item Hitem. eapply tid_le_trans; [by apply Hkeys|done].
Qed.

Lemma find_downlink_loop_rspine up : forall rel b ck lvl K cblk level fuel,
  0 <= level < lvl -> rspine rel b ck lvl up -> tid_le ck K -> tid_lt K MaxTid ->
  find_downlink_loop (length up + fuel) rel K cblk level (spine_top b up)
    (lvl + Z.of_nat (length up))
  = find_downlink_loop fuel rel K cblk level b lvl.
Proof.
  induction up as [|c up IH]; intros rel b ck lvl K cblk level fuel Hlevel Hsp HK Hmax.
  - simpl. f_equal. lia.
  - destruct Hsp as (page & Hp & Hok & Hrest).
    destruct (rpage_ok_keys _ _ _ _ Hok) as [_ Hlo].
    rewrite spine_top_cons.
    replace (length (c :: up) + fuel)%nat with (length up + S fuel)%nat by (simpl; lia).
    replace (lvl + Z.of_nat (length (c :: up))) with (lvl + 1 + Z.of_nat (length up))
      by (simpl length; lia).
    rewrite (IH rel c (zs_lokey (pd_opaque page)) (lvl + 1) K cblk level (S fuel));
      [|lia|done| |done].
    + by eapply find_downlink_step_above.
    + eapply tid_le_trans; [apply tid_lt_le, Hlo|done].
Qed.

Lemma find_downlink_loop_start fuel rel K cblk level next page :
  rel_pages rel !! next = Some page ->
  zs_level (pd_opaque page) <> -1 ->
  find_downlink_loop fuel rel K cblk level next (-1)
  = find_downlink_loop fuel rel K cblk level next (zs_level (pd_opaque page)).
Proof.
  intros Hp Hne. destruct fuel as [|fuel]; [done|].
  cbn [find_downlink_loop]. unfold ReadBuffer. rewrite Hp. cbn [bind].
  unfold ZSBtreePageGetOpaque. rewrite check_level_start, check_level_same by done. done.
Qed.

(** Re-finding the parent of the page at the bottom of a right spine:
    none when the page is the root, else the first page of the spine,
    with the downlink in its last slot. *)
Lemma zsbt_find_downlink_rspine rel attno child page up fuel :
  rel_pages rel !! child = Some page ->
  0 <= zs_level (pd_opaque page) ->
  rspine rel child (zs_lokey (pd_opaque page)) (zs_level (pd_opaque page)) up ->
  rel_roots rel !! attno = Some (spine_top child up) ->
  tid_lt (zs_lokey (pd_opaque page)) MaxTid ->
  (length up <= fuel)%nat ->
  zsbt_find_downlink fuel rel attno (zs_lokey (pd_opaque page)) child
    (zs_level (pd_opaque page))
  = match up with
    | [] => Ok (InvalidBuffer, 0, rel)
    | b :: _ =>
        match rel_pages rel !! b with
        | Some parent => Ok (b, Z.of_nat (length (pd_downlinks parent)) - 1, rel)
        | None => Err "could not read block"
        end
    end.
Proof.
  intros Hp Hlevel Hsp Hroot Hmax Hfuel.
  unfold zsbt_find_downlink, zsmeta_get_root_for_attribute. rewrite Hroot.
  destruct up as [|b up].
  - rewrite spine_top_nil, Z.eqb_refl. done.
  - pose proof Hsp as (parent & Hparent & Hok & Hrest). rewrite Hparent.
    destruct (rspine_top_level _ _ _ _ _ _ Hsp Hp eq_refl) as (top & Htop & Hlv).
    destruct (Z.eqb_spec (spine_top child (b :: up)) child) as [Heq|Hne].
    { rewrite Heq in Htop. assert (top = page) as -> by congruence.
      simpl length in Hlv. lia. }
    rewrite (find_downlink_loop_start _ _ _ _ _ _ _ Htop) by lia. rewrite Hlv.
    rewrite spine_top_cons.
    replace fuel with (length up + S (fuel - length up - 1))%nat by (simpl in Hfuel; lia).
    replace (zs_level (pd_opaque page) + Z.of_nat (length (b :: up)))
      with (zs_level (pd_opaque page) + 1 + Z.of_nat (length up)) by (simpl length; lia).
    destruct (rpage_ok_keys _ _ _ _ Hok) as [_ Hlo].
    rewrite (find_downlink_loop_rspine up rel b (zs_lokey (pd_opaque parent)));
      [|lia|done|by apply tid_lt_le|done].
    rewrite (find_downlink_step_parent rel b parent (zs_lokey (pd_opaque page)));
      [done|done|done|lia|apply tid_le_refl|done].
Qed.


(* ===================================================================== *)
(** * Inserting a downlink along the right spine *)
(* ===================================================================== *)

Lemma rightmostkey_lt_MaxTid : tid_lt rightmostkey MaxTid.
Proof. vm_compute. reflexivity. Qed.

Lemma ItemPointerEquals_refl a : ItemPointerEquals a a = true.
Proof. by apply ItemPointerEquals_eq. Qed.

(** Every page of a spine lies above the level the spine starts at. *)
Lemma rspine_levels rel up : forall child ck level b,
  rspine rel child ck level up -> b ∈ up ->
  exists page, rel_pages rel !! b = Some page /\ level < zs_level (pd_opaque page).
Proof.
  induction up as [|c up IH]; intros child ck level b Hsp Hb; [by apply elem_of_nil in Hb|].
  destruct Hsp as (page & Hp & Hok & Hrest).
  apply elem_of_cons in Hb as [->|Hb].
  - exists page. split; [done|]. destruct Hok as (-> & _). lia.
  - destruct (IH _ _ _ _ Hrest Hb) as (pb & Hpb & Hl). exists pb. split; [done|lia].
Qed.

Lemma spine_slack_frame rel rel' up :
  (forall b, b ∈ up -> rel_pages rel' !! b = rel_pages rel !! b) ->
  spine_slack rel' up = spine_slack rel up.
Proof.
  induction up as [|b up IH]; intros Hsame; [done|]. simpl.
  rewrite Hsame by set_solver. rewrite IH; [done|]. intros c Hc. apply Hsame. set_solver.
Qed.

(** One call of [zsbt_insert_downlink] on the page at the bottom of a
    right spine, with the search and the sanity checks resolved. *)
Lemma zsbt_insert_downlink_unfold rel attno left leftpage up right rightkey fuel :
  blocks_allocated rel ->
  rel_pages rel !! left = Some leftpage ->
  0 <= zs_level (pd_opaque leftpage) ->
  rspine rel left (zs_lokey (pd_opaque leftpage)) (zs_level (pd_opaque leftpage)) up ->
  rel_roots rel !! attno = Some (spine_top left up) ->
  tid_lt (zs_lokey (pd_opaque leftpage)) rightkey -> tid_le rightkey rightmostkey ->
  (length up <= fuel)%nat ->
  zsbt_insert_downlink (S fuel) rel attno left rightkey right
  = match up with
    | [] =>
        zsbt_newroot rel attno (zs_level (pd_opaque leftpage) + 1)
          (zs_lokey (pd_opaque leftpage)) left rightkey right left
    | b :: _ =>
        match rel_pages rel !! b with
        | Some parent =>
            if ZSBtreeInternalPageIsFull parent then
              zsbt_split_internal (zsbt_insert_downlink fuel) rel attno b left
                (Z.of_nat (length (pd_downlinks parent))) rightkey right
            else
              Ok (write_page
                    (write_page rel left
                       (set_opaque leftpage
                          (set_flags (pd_opaque leftpage)
                             (clear_follow_right (zs_flags (pd_opaque leftpage))))))
                    b (set_downlinks parent
                         (pd_downlinks parent ++ [MkInternalItem rightkey right])))
        | None => Err "could not read block"
        end
    end.
Proof.
  intros Ha Hleft Hlevel Hsp Hroot Hlt Hle Hfuel.
  assert (tid_lt (zs_lokey (pd_opaque leftpage)) MaxTid) as Hmax.
  { eapply tid_lt_trans; [exact Hlt|].
    eapply tid_le_lt_trans; [exact Hle|apply rightmostkey_lt_MaxTid]. }
  cbn [zsbt_insert_downlink]. unfold ReadBuffer at 1. rewrite Hleft. cbn [bind].
  unfold ZSBtreePageGetOpaque.
  rewrite (zsbt_find_downlink_rspine rel attno left leftpage up (S fuel)); try done; [|lia].
  destruct up as [|b up].
  - cbn [bind]. by rewrite Z.eqb_refl.
  - destruct Hsp as (parent & Hparent & Hok & Hrest). rewrite Hparent. cbn [bind].
    pose proof (blocks_allocated_lookup _ _ _ Ha Hparent) as Hb.
    destruct (Z.eqb_spec b InvalidBuffer) as [Hbad|_]; [unfold InvalidBuffer in Hbad; lia|].
    unfold ReadBuffer. rewrite Hparent. cbn [bind].
    unfold ZSBtreeInternalPageGetItems, ZSBtreeInternalPageGetNumItems.
    destruct (rpage_ok_keys _ _ _ _ Hok) as [Hkeys _].
    destruct Hok as (Hlv & Hlinp & Hs & Hlen & Hlast & Hhead & Hhi).
    rewrite binsrch_internal_last.
    + destruct (Z.ltb_spec (Z.of_nat (length (pd_downlinks parent)) - 1) 1); [lia|].
      rewrite (arr_get_last _ _ Hlast). cbn [tid childblk].
      rewrite ItemPointerEquals_refl, Z.eqb_refl. cbn [negb orb].
      replace (Z.of_nat (length (pd_downlinks parent)) - 1 + 1)
        with (Z.of_nat (length (pd_downlinks parent))) by lia.
      destruct (ZSBtreeInternalPageIsFull parent); [done|].
      rewrite Nat2Z.id, take_ge, drop_ge by lia. done.
    + intros E. rewrite E in Hlen. simpl in Hlen. lia.
    + intros item Hitem. eapply tid_le_trans; [by apply Hkeys|by apply tid_lt_le].
Qed.

(** The split of a page for a downlink that goes after its last one. *)
Lemma split_internal_pages_append origpage rightblkno newkey cblk :
  let arr := pd_downlinks origpage in
  let n := Z.of_nat (length arr) in
  let sp := Z.to_nat (9 * n / 10) in
  split_internal_pages origpage rightblkno n newkey cblk
  = (MkPage [] (take sp arr)
       (MkOpaque rightblkno (zs_lokey (pd_opaque origpage)) (tid (arr_get arr (9 * n / 10)))
          (zs_level (pd_opaque origpage))
          (Z.lor (zs_flags (pd_opaque origpage)) ZS_FOLLOW_RIGHT)
          (zs_page_id (pd_opaque origpage))),
     MkPage [] (drop sp arr ++ [MkInternalItem newkey cblk])
       (MkOpaque (zs_next (pd_opaque origpage)) (tid (arr_get arr (9 * n / 10)))
          (zs_hikey (pd_opaque origpage)) (zs_level (pd_opaque origpage)) 0
          ZS_BTREE_PAGE_ID),
     tid (arr_get arr (9 * n / 10))).
Proof.
  intros arr n sp. unfold split_internal_pages. cbv zeta.
  unfold ZSBtreeInternalPageGetItems, ZSBtreeInternalPageGetNumItems,
    ZSBtreePageGetOpaque, PageGetTempPageCopySpecial. cbn [pd_opaque].
  fold arr. fold n. rewrite split_internal_point_floor by lia.
  rewrite split_internal_copy_before by lia. cbv zeta.
  rewrite decide_False by lia.
  replace (Z.to_nat (9 * n / 10 - 0)) with sp by lia. done.
Qed.

Lemma items_strictly_sorted_snoc arr x :
  items_strictly_sorted arr ->
  (forall y, y ∈ arr -> tid_lt (tid y) (tid x)) ->
  items_strictly_sorted (arr ++ [x]).
Proof.
  rewrite !items_strictly_sorted_iff. intros Hs Hx.
  apply StronglySorted_app_2; [|done|repeat constructor].
  intros a b Ha Hb. apply list_elem_of_singleton in Hb as ->. by apply Hx.
Qed.

Lemma items_strictly_sorted_drop arr k :
  items_strictly_sorted arr -> items_strictly_sorted (drop k arr).
Proof.
  intros Hs i j x y Hi Hj Hij. rewrite lookup_drop in Hi, Hj.
  apply (Hs (k + i)%nat (k + j)%nat); auto. lia.
Qed.

Lemma items_strictly_sorted_take arr k :
  items_strictly_sorted arr -> items_strictly_sorted (take k arr).
Proof.
  intros Hs i j x y Hi Hj Hij.
  apply lookup_take_Some in Hi as [Hi _]. apply lookup_take_Some in Hj as [Hj _].
  by apply (Hs i j).
Qed.

(** Appending a downlink for the new right page to the last page of
    the spine keeps it a spine page, now above the right page. *)
Lemma rpage_ok_append parent level ck child rightkey right :
  rpage_ok parent level ck child ->
  tid_lt ck rightkey ->
  rpage_ok (set_downlinks parent (pd_downlinks parent ++ [MkInternalItem rightkey right]))
    level rightkey right.
Proof.
  intros Hok Hlt. destruct (rpage_ok_keys _ _ _ _ Hok) as [Hkeys _].
  destruct Hok as (Hlv & Hlinp & Hs & Hlen & Hlast & Hhead & Hhi).
  unfold rpage_ok, set_downlinks. cbn [pd_opaque pd_linp pd_downlinks].
  split; [done|]. split; [done|]. split; [|split; [|split; [|split; [|done]]]].
  - apply items_strictly_sorted_snoc; [done|].
    intros y Hy. eapply tid_le_lt_trans; [by apply Hkeys|done].
  - rewrite length_app. simpl. lia.
  - by rewrite last_snoc.
  - destruct (pd_downlinks parent); [simpl in Hlen; lia|done].
Qed.

(** The right half of a split spine page is a spine page above the
    right page. *)
Lemma rpage_ok_split_right parent level ck child rightkey right :
  rpage_ok parent level ck child ->
  tid_lt ck rightkey ->
  let arr := pd_downlinks parent in
  let n := Z.of_nat (length arr) in
  0 < n ->
  rpage_ok (MkPage [] (drop (Z.to_nat (9 * n / 10)) arr ++ [MkInternalItem rightkey right])
              (MkOpaque (zs_next (pd_opaque parent)) (tid (arr_get arr (9 * n / 10)))
                 (zs_hikey (pd_opaque parent)) (zs_level (pd_opaque parent)) 0
                 ZS_BTREE_PAGE_ID))
    level rightkey right.
Proof.
  intros Hok Hlt arr n Hn. destruct (rpage_ok_keys _ _ _ _ Hok) as [Hkeys _].
  destruct Hok as (Hlv & Hlinp & Hs & Hlen & Hlast & Hhead & Hhi).
  pose proof (split_internal_point_range n Hn) as Hsp.
  rewrite split_internal_point_floor in Hsp by lia.
  unfold rpage_ok. cbn [pd_opaque pd_linp pd_downlinks zs_level zs_hikey zs_lokey].
  split; [done|]. split; [done|]. split; [|split; [|split; [|split; [|done]]]].
  - apply items_strictly_sorted_snoc; [by apply items_strictly_sorted_drop|].
    intros y Hy. eapply tid_le_lt_trans; [|exact Hlt]. apply Hkeys.
    apply list_elem_of_lookup_1 in Hy as [i Hi]. rewrite lookup_drop in Hi.
    by eapply list_elem_of_lookup_2.
  - rewrite length_app, length_drop. simpl. subst n. lia.
  - by rewrite last_snoc.
  - assert (drop (Z.to_nat (9 * n / 10)) arr !! 0%nat = Some (arr_get arr (9 * n / 10))) as Hget.
    { rewrite lookup_drop, Nat.add_0_r. apply arr_get_in_range; lia. }
    destruct (drop (Z.to_nat (9 * n / 10)) arr) as [|x l]; [done|].
    simpl in *. by injection Hget as ->.
Qed.

(** Low keys do not fall below (0,1) anywhere on the right spine. *)
Lemma rspine_lokey_ge rel up : forall child ck level,
  rspine rel child ck level up -> tid_le MinTid ck.
Proof.
  induction up as [|b up IH]; intros child ck level Hsp.
  - simpl in Hsp. subst. apply tid_le_refl.
  - destruct Hsp as (page & Hp & Hok & Hrest).
    eapply tid_le_trans; [by eapply IH|].
    apply tid_lt_le. by destruct (rpage_ok_keys _ _ _ _ Hok).
Qed.

Lemma lpage_ok_flags page page' lvl child :
  same_but_flags page page' -> lpage_ok page lvl child -> lpage_ok page' lvl child.
Proof.
  intros (H1 & H2 & H3 & H4 & H5 & H6 & H7) (Hl & Hlinp & Hhead & Hrest & Hhi).
  unfold lpage_ok. rewrite H1, H2, H5, H6. done.
Qed.

Lemma lpage_ok_append page lvl child x :
  lpage_ok page lvl child -> tid_lt MinTid (tid x) ->
  lpage_ok (set_downlinks page (pd_downlinks page ++ [x])) lvl child.
Proof.
  intros (Hl & Hlinp & Hhead & Hrest & Hhi) Hx.
  unfold lpage_ok, set_downlinks. cbn [pd_opaque pd_linp pd_downlinks].
  split; [done|]. split; [done|]. split; [|split; [|done]].
  - destruct (pd_downlinks page); [done|done].
  - intros i item Hi. apply lookup_app_Some in Hi as [Hi|[_ Hi]]; [by eapply Hrest|].
    apply list_lookup_singleton_Some in Hi as [_ <-]. done.
Qed.

(** The left half of a split keeps the first downlink; its new high
    key is a key that was not the first. *)
Lemma lpage_ok_split_left page lvl child next flags (sp : Z) :
  lpage_ok page lvl child ->
  1 <= sp < Z.of_nat (length (pd_downlinks page)) ->
  lpage_ok (MkPage [] (take (Z.to_nat sp) (pd_downlinks page))
              (MkOpaque next (zs_lokey (pd_opaque page))
                 (tid (arr_get (pd_downlinks page) sp))
                 (zs_level (pd_opaque page)) flags (zs_page_id (pd_opaque page))))
    lvl child.
Proof.
  intros (Hl & Hlinp & Hhead & Hrest & Hhi) Hsp.
  unfold lpage_ok. cbn [pd_opaque pd_linp pd_downlinks zs_level zs_hikey].
  split; [done|]. split; [done|]. split; [|split].
  - destruct (pd_downlinks page) as [|x l]; [done|].
    destruct (Z.to_nat sp) as [|k] eqn:E; [lia|done].
  - intros i item Hi. apply lookup_take_Some in Hi as [Hi _]. by eapply Hrest.
  - assert (pd_downlinks page !! Z.to_nat sp = Some (arr_get (pd_downlinks page) sp)) as Hget
      by (apply arr_get_in_range; lia).
    destruct (Z.to_nat sp) as [|k] eqn:E; [lia|]. by eapply Hrest.
Qed.

Lemma rel_pages_write rel blk page c :
  rel_pages (write_page rel blk page) !! c
  = if decide (blk = c) then Some page else rel_pages rel !! c.
Proof.
  unfold write_page. cbn [rel_pages]. destruct (decide (blk = c)) as [->|Hne].
  - by rewrite lookup_insert_eq.
  - by rewrite lookup_insert_ne.
Qed.

(** Inserting the downlink for a new right sibling of the page at the
    bottom of the right spine: the call returns, the right sibling is
    the new bottom of a right spine, and nothing below the spine is
    touched apart from the flags of the left page. *)
Lemma zsbt_insert_downlink_rspine up :
  forall rel attno left leftpage right rightkey fuel,
  blocks_allocated rel ->
  rel_pages rel !! left = Some leftpage ->
  0 <= zs_level (pd_opaque leftpage) ->
  rspine rel left (zs_lokey (pd_opaque leftpage)) (zs_level (pd_opaque leftpage)) up ->
  rel_roots rel !! attno = Some (spine_top left up) ->
  tid_lt (zs_lokey (pd_opaque leftpage)) rightkey -> tid_le rightkey rightmostkey ->
  (length up < fuel)%nat ->
  exists rel' up',
    zsbt_insert_downlink fuel rel attno left rightkey right = Ok rel' /\
    blocks_allocated rel' /\
    rspine rel' right rightkey (zs_level (pd_opaque leftpage)) up' /\
    rel_roots rel' !! attno = Some (spine_top right up') /\
    rel_nblocks rel' + spine_slack rel' up' <= rel_nblocks rel + spine_slack rel up + 1 /\
    rel_nblocks rel <= rel_nblocks rel' /\
    (forall blk, blk <> left -> blk ∉ up -> blk < rel_nblocks rel ->
       rel_pages rel' !! blk = rel_pages rel !! blk) /\
    (exists leftpage',
       rel_pages rel' !! left = Some leftpage' /\ same_but_flags leftpage leftpage') /\
    (forall blk page lvl child,
       rel_pages rel !! blk = Some page -> lpage_ok page lvl child ->
       exists page', rel_pages rel' !! blk = Some page' /\ lpage_ok page' lvl child) /\
    ((length up' = length up /\ rel_roots rel' !! attno = rel_roots rel !! attno) \/
     (length up' = S (length up) /\
      exists page,
        rel_pages rel' !! spine_top right up' = Some page /\
        lpage_ok page (zs_level (pd_opaque leftpage) + Z.of_nat (length up) + 1)
          (spine_top left up))).
Proof.
  induction up as [|b up IH];
    intros rel attno left leftpage right rightkey fuel Ha Hleft Hlevel Hsp Hroot Hlt Hle Hfuel.
  - (* no parent: a new root *)
    destruct fuel as [|fuel]; [simpl in Hfuel; lia|].
    rewrite (zsbt_insert_downlink_unfold rel attno left leftpage [] right rightkey fuel)
      by (try done; simpl; lia).
    simpl in Hsp.
    pose proof (blocks_allocated_lookup _ _ _ Ha Hleft) as Hlb.
    destruct Ha as [Hpos Ha].
    unfold zsbt_newroot, zs_getnewbuf. cbn [fst snd].
    unfold ReadBuffer. cbn [rel_pages]. rewrite Hleft. cbn [bind].
    eexists _, [rel_nblocks rel]. split; [reflexivity|].
    unfold zsmeta_update_root_for_attribute, write_page. cbn [rel_pages rel_nblocks rel_roots].
    split; [|split; [|split; [|split; [|split; [|split; [|split; [|split]]]]]]].
    + split; cbn [rel_nblocks rel_pages]; [lia|]. intros blk page.
      destruct (decide (left = blk)) as [<-|Hne1]; [rewrite lookup_insert_eq; lia|].
      rewrite lookup_insert_ne by done.
      destruct (decide (rel_nblocks rel = blk)) as [<-|Hne2]; [rewrite lookup_insert_eq; lia|].
      rewrite lookup_insert_ne by done. intros Hp. apply Ha in Hp. lia.
    + cbn [rspine rel_pages]. eexists. split.
      { rewrite lookup_insert_ne by lia. by rewrite lookup_insert_eq. }
      split; [|done].
      unfold rpage_ok. cbn [pd_opaque pd_linp pd_downlinks zs_level zs_hikey zs_lokey].
      split; [done|]. split; [done|]. split; [|split; [simpl; lia|split; [done|]]].
      * intros i j x y Hi Hj Hij.
        destruct i as [|[|i]], j as [|[|j]]; simpl in Hi, Hj; try done; try lia.
        by injection Hi as <-; injection Hj as <-.
      * rewrite Hsp. done.
    + cbn [rel_roots]. by rewrite lookup_insert_eq.
    + cbn [spine_slack rel_pages rel_nblocks].
      rewrite lookup_insert_ne by lia. rewrite lookup_insert_eq. simpl. lia.
    + cbn [rel_nblocks]. lia.
    + intros blk Hne _ Hblk. cbn [rel_pages].
      rewrite lookup_insert_ne by done. by rewrite lookup_insert_ne by lia.
    + eexists. cbn [rel_pages]. rewrite lookup_insert_eq. split; [done|].
      apply same_but_flags_set_flags.
    + intros blk page lvl child Hp Hok. cbn [rel_pages].
      destruct (decide (left = blk)) as [<-|Hne1].
      * rewrite lookup_insert_eq. eexists. split; [done|].
        eapply lpage_ok_flags; [apply same_but_flags_set_flags|]. congruence.
      * rewrite lookup_insert_ne by done.
        rewrite lookup_insert_ne by (intros <-; apply Ha in Hp; lia). eauto.
    + right. split; [done|]. cbn [rel_pages]. rewrite spine_top_cons, !spine_top_nil.
      eexists. split; [rewrite lookup_insert_ne by lia; by rewrite lookup_insert_eq|].
      unfold lpage_ok. cbn [pd_opaque pd_linp pd_downlinks zs_level zs_hikey length].
      split; [lia|]. split; [done|]. split; [by rewrite Hsp|]. split; [|done].
      intros [|i] item Hi; simpl in Hi; [|done]. injection Hi as <-. cbn [tid].
      by rewrite <- Hsp.
  - destruct fuel as [|fuel]; [simpl in Hfuel; lia|].
    rewrite (zsbt_insert_downlink_unfold rel attno left leftpage (b :: up) right rightkey fuel)
      by (try done; simpl in *; lia).
    pose proof (blocks_allocated_lookup _ _ _ Ha Hleft) as Hlb.
    pose proof (fun c => rspine_levels _ _ _ _ _ c Hsp) as Hlevels.
    pose proof (rspine_lokey_ge _ _ _ _ _ Hsp) as Hmin.
    destruct Hsp as (parent & Hparent & Hok & Hrest).
    pose proof (fun c => rspine_levels _ _ _ _ _ c Hrest) as Hlevels'.
    pose proof (blocks_allocated_lookup _ _ _ Ha Hparent) as Hbb.
    assert (zs_level (pd_opaque parent) = zs_level (pd_opaque leftpage) + 1) as Hplevel
      by apply Hok.
    assert (left <> b) as Hlb_ne by (intros ->; rewrite Hleft in Hparent; injection Hparent as ->; lia).
    assert (left ∉ up) as Hl_up.
    { intros Hin. destruct (Hlevels' _ Hin) as (p & Hp & Hl). rewrite Hleft in Hp.
      injection Hp as <-. lia. }
    assert (b ∉ up) as Hb_up.
    { intros Hin. destruct (Hlevels' _ Hin) as (p & Hp & Hl). rewrite Hparent in Hp.
      injection Hp as <-. lia. }
    assert (forall c, c ∈ up -> 0 < c < rel_nblocks rel) as Hup_alloc.
    { intros c Hin. destruct (Hlevels' _ Hin) as (p & Hp & _).
      by eapply blocks_allocated_lookup. }
    assert (tid_lt MinTid rightkey) as Hminr by (eapply tid_le_lt_trans; done).
    rewrite Hparent.
    destruct (ZSBtreeInternalPageIsFull parent) eqn:Hfull.
    + (* the parent is split, and the downlink of its new right half
         goes one level up *)
      unfold zsbt_split_internal. unfold ReadBuffer at 1. rewrite Hparent. cbn [bind].
      unfold zs_getnewbuf.
      pose proof (split_internal_pages_append parent (rel_nblocks rel) rightkey right) as Hpages.
      cbv zeta in Hpages. rewrite Hpages. clear Hpages.
      unfold ReadBuffer. rewrite !rel_pages_write.
      rewrite decide_False by lia. rewrite decide_False by done.
      cbn [rel_pages]. rewrite Hleft. cbn [bind]. unfold ZSBtreePageGetOpaque.
      destruct (rpage_ok_keys _ _ _ _ Hok) as [Hkeys Hplo].
      pose proof Hok as (Hlv & Hlinp & Hs & Hlen & Hlast & Hhead & Hhi).
      pose proof (internal_page_full_count _ Hlinp Hfull) as Hn.
      set (n := Z.of_nat (length (pd_downlinks parent))) in *.
      set (sp := 9 * n / 10).
      assert (2 <= sp < n) as Hsp.
      { subst sp. split; [apply Z.div_le_lower_bound; lia|apply Z.div_lt_upper_bound; lia]. }
      assert (pd_downlinks parent !! Z.to_nat sp = Some (arr_get (pd_downlinks parent) sp))
        as Hget by (apply arr_get_in_range; lia).
      set (splittid := tid (arr_get (pd_downlinks parent) sp)).
      match goal with
      | |- context [write_page (write_page _ b ?ql) (rel_nblocks rel) ?qr] =>
          set (Qleft := ql); set (Qright := qr)
      end.
      match goal with |- context [zsbt_insert_downlink fuel ?r] => set (rel3 := r) end.
      assert (forall c, rel_pages rel3 !! c
                = if decide (left = c) then
                    Some (set_opaque leftpage
                            (set_flags (pd_opaque leftpage)
                               (clear_follow_right (zs_flags (pd_opaque leftpage)))))
                  else if decide (rel_nblocks rel = c) then Some Qright
                  else if decide (b = c) then Some Qleft
                  else rel_pages rel !! c) as Hrel3.
      { intros c. subst rel3. by rewrite !rel_pages_write. }
      assert (forall c, c ∈ up -> rel_pages rel3 !! c = rel_pages rel !! c) as Hframe.
      { intros c Hc. rewrite Hrel3. pose proof (Hup_alloc c Hc).
        rewrite decide_False by (intros <-; done). rewrite decide_False by lia.
        by rewrite decide_False by (intros <-; done). }
      assert (tid_lt (zs_lokey (pd_opaque parent)) splittid) as Hlosp.
      { destruct (pd_downlinks parent) as [|x l] eqn:Earr; [done|].
        simpl in Hhead. injection Hhead as Hhead. rewrite <- Hhead.
        apply (Hs 0%nat (Z.to_nat sp)); [done|done|lia]. }
      assert (tid_le splittid (zs_lokey (pd_opaque leftpage))) as Hsplo.
      { apply Hkeys. by eapply list_elem_of_lookup_2. }
      destruct (IH rel3 attno b Qleft (rel_nblocks rel) splittid fuel)
        as (rel' & up1 & Hrun & Ha' & Hsp' & Hroot' & Hslack & Hnb & Hsame & Hleft' & Hlp & Hnew).
      { subst rel3. destruct Ha as [Hpos Ha].
        repeat apply blocks_allocated_write; cbn [write_page rel_nblocks]; try lia.
        split; cbn [rel_nblocks rel_pages]; [lia|].
        intros blk page Hp. apply Ha in Hp. lia. }
      { rewrite Hrel3. rewrite decide_False by done. rewrite decide_False by lia.
        by rewrite decide_True. }
      { subst Qleft. cbn [pd_opaque zs_level]. lia. }
      { subst Qleft. cbn [pd_opaque zs_level zs_lokey]. rewrite Hplevel.
        eapply rspine_frame; [exact Hframe|exact Hrest]. }
      { subst rel3. cbn [write_page rel_roots]. by rewrite spine_top_cons in Hroot. }
      { subst Qleft. cbn [pd_opaque zs_lokey]. done. }
      { eapply tid_le_trans; [exact Hsplo|]. eapply tid_le_trans; [|exact Hle].
        by apply tid_lt_le. }
      { simpl in Hfuel. lia. }
      assert (rel_nblocks rel3 = rel_nblocks rel + 1) as Hnb3 by done.
      assert (rel_pages rel' !! rel_nblocks rel = Some Qright) as HQr.
      { rewrite Hsame; [|lia| |lia].
        - rewrite Hrel3. rewrite decide_False by lia. by rewrite decide_True.
        - intros Hin. apply Hup_alloc in Hin. lia. }
      exists rel', (rel_nblocks rel :: up1). split; [exact Hrun|].
      split; [exact Ha'|].
      split; [|split; [|split; [|split; [|split; [|split; [|split]]]]]].
      * cbn [rspine]. exists Qright. split; [done|]. split.
        { apply (rpage_ok_split_right parent _ (zs_lokey (pd_opaque leftpage)) left);
            [done|done|lia]. }
        subst Qleft Qright. cbn [pd_opaque zs_level zs_lokey] in *.
        by rewrite Hplevel in Hsp'.
      * by rewrite spine_top_cons.
      * cbn [spine_slack]. rewrite HQr, Hparent. subst Qright. cbn [pd_downlinks].
        rewrite length_app, length_drop. cbn [length].
        rewrite (spine_slack_frame rel rel3 up Hframe) in Hslack. lia.
      * lia.
      * intros blk Hne Hnin Hblk. rewrite Hsame; [|set_solver|set_solver|lia].
        rewrite Hrel3. rewrite decide_False by done. rewrite decide_False by lia.
        rewrite decide_False by set_solver. done.
      * eexists. rewrite Hsame; [|done|done|lia]. rewrite Hrel3.
        rewrite decide_True by done. split; [done|]. apply same_but_flags_set_flags.
      * intros blk page lvl child Hp Hlok.
        assert (exists page3, rel_pages rel3 !! blk = Some page3 /\ lpage_ok page3 lvl child)
          as (page3 & Hp3 & Hlok3); [|by eapply Hlp].
        rewrite Hrel3. pose proof (blocks_allocated_lookup _ _ _ Ha Hp).
        destruct (decide (left = blk)) as [<-|Hne1].
        { eexists. split; [done|]. rewrite Hleft in Hp. injection Hp as <-.
          eapply lpage_ok_flags; [apply same_but_flags_set_flags|done]. }
        rewrite decide_False by lia.
        destruct (decide (b = blk)) as [<-|Hne2]; [|eauto].
        eexists. split; [done|]. rewrite Hparent in Hp. injection Hp as <-.
        apply lpage_ok_split_left; [done|lia].
      * destruct Hnew as [[Hlen1 Hroots]|[Hlen1 (page & Hp & Hlok)]].
        { left. cbn [length]. split; [lia|]. by rewrite Hroots. }
        right. cbn [length]. split; [lia|]. exists page.
        rewrite !spine_top_cons. split; [done|].
        subst Qleft. cbn [pd_opaque zs_level] in Hlok.
        replace (zs_level (pd_opaque leftpage) + Z.of_nat (S (length up)) + 1)
          with (zs_level (pd_opaque parent) + Z.of_nat (length up) + 1) by lia.
        done.
    + (* the downlink is appended to the parent *)
      eexists _, (b :: up). split; [reflexivity|].
      split; [|split; [|split; [|split; [|split; [|split; [|split; [|split]]]]]]].
      * apply blocks_allocated_write; [by apply blocks_allocated_write|done].
      * cbn [rspine]. eexists. split; [rewrite rel_pages_write, decide_True by done; done|].
        split; [by eapply rpage_ok_append|].
        cbn [set_downlinks pd_opaque].
        eapply rspine_frame; [|exact Hrest].
        intros c Hc. rewrite !rel_pages_write.
        rewrite decide_False by (intros <-; done). by rewrite decide_False by (intros <-; done).
      * cbn [write_page rel_roots]. by rewrite spine_top_cons in *.
      * cbn [spine_slack]. rewrite rel_pages_write, decide_True by done. rewrite Hparent.
        cbn [set_downlinks pd_downlinks]. rewrite length_app. cbn [length].
        rewrite (spine_slack_frame rel _ up).
        { cbn [write_page rel_nblocks]. lia. }
        intros c Hc. rewrite !rel_pages_write.
        rewrite decide_False by (intros <-; done). by rewrite decide_False by (intros <-; done).
      * cbn [write_page rel_nblocks]. lia.
      * intros blk Hne Hnin _. rewrite !rel_pages_write.
        rewrite decide_False by (intros <-; set_solver). by rewrite decide_False by done.
      * eexists. rewrite !rel_pages_write. rewrite decide_False by done.
        rewrite decide_True by done. split; [done|]. apply same_but_flags_set_flags.
      * intros blk page lvl child Hp Hlok. rewrite !rel_pages_write.
        destruct (decide (b = blk)) as [<-|Hne1].
        { eexists. split; [done|]. rewrite Hparent in Hp. injection Hp as <-.
          by apply lpage_ok_append. }
        destruct (decide (left = blk)) as [<-|Hne2]; [|eauto].
        eexists. split; [done|]. rewrite Hleft in Hp. injection Hp as <-.
        eapply lpage_ok_flags; [apply same_but_flags_set_flags|done].
      * left. done.
Qed.


(* ===================================================================== *)
(** * The TIDs a tree hands out *)
(* ===================================================================== *)

Lemma nth_tid_S k : nth_tid (S k) = ItemPointerIncrement (nth_tid k).
Proof. done. Qed.

(** Counting from (0,1), the [k]-th TID is [k + 1] written in base
    65536. *)
Lemma nth_tid_eq k :
  Z.of_nat k < 2 ^ 30 ->
  nth_tid k = ItemPointerSet ((Z.of_nat k + 1) / 65536) ((Z.of_nat k + 1) mod 65536).
Proof.
  induction k as [|k IH]; intros Hk; [done|].
  rewrite nth_tid_S, IH by lia. unfold ItemPointerIncrement. cbn [ip_blkid ip_posid].
  replace (Z.of_nat (S k) + 1) with (Z.of_nat k + 1 + 1) by lia.
  set (v := Z.of_nat k + 1).
  assert (0 < v < 2 ^ 30 + 1) as Hv by (subst v; lia).
  pose proof (Z.div_mod v 65536 ltac:(lia)) as Hdm.
  pose proof (Z.mod_pos_bound v 65536 ltac:(lia)) as Hm.
  change 0xFFFF with 65535.
  assert (0 <= v / 65536 < 2 ^ 15) as Hq.
  { split; [apply Z.div_pos; lia|apply Z.div_lt_upper_bound; lia]. }
  destruct (Z.eqb_spec (v mod 65536) 65535) as [E|E].
  - unfold wrap32. rewrite Z.mod_small by lia.
    assert (v + 1 = 65536 * (v / 65536 + 1) + 0) as Hv1 by lia.
    f_equal.
    + eapply Z.div_unique with (r := 0); [lia|exact Hv1].
    + eapply Z.mod_unique with (q := v / 65536 + 1); [lia|exact Hv1].
  - assert (v + 1 = 65536 * (v / 65536) + (v mod 65536 + 1)) as Hv1 by lia.
    f_equal.
    + eapply Z.div_unique with (r := v mod 65536 + 1); [lia|exact Hv1].
    + eapply Z.mod_unique with (q := v / 65536); [lia|exact Hv1].
Qed.

(** Below 2^30 the TIDs handed out are ordered as their indices. *)
Lemma nth_tid_compare i j :
  Z.of_nat i < 2 ^ 30 -> Z.of_nat j < 2 ^ 30 ->
  (ItemPointerCompare (nth_tid i) (nth_tid j) >=? 0) = bool_decide (j <= i)%nat.
Proof.
  intros Hi Hj. rewrite !nth_tid_eq by done.
  unfold ItemPointerCompare. cbn [ip_blkid ip_posid].
  set (a := Z.of_nat i + 1). set (b := Z.of_nat j + 1).
  pose proof (Z.div_mod a 65536 ltac:(lia)).
  pose proof (Z.mod_pos_bound a 65536 ltac:(lia)).
  pose proof (Z.div_mod b 65536 ltac:(lia)).
  pose proof (Z.mod_pos_bound b 65536 ltac:(lia)).
  assert (a <= b <-> (i <= j)%nat) by (subst a b; lia).
  repeat match goal with |- context [?x <? ?y] => destruct (Z.ltb_spec x y) end;
    case_bool_decide; try done; try lia.
Qed.

Lemma nth_tid_lt i j :
  Z.of_nat j < 2 ^ 30 -> (i < j)%nat -> tid_lt (nth_tid i) (nth_tid j).
Proof.
  intros Hj Hij. pose proof (nth_tid_compare i j ltac:(lia) Hj) as Hc.
  rewrite bool_decide_false in Hc by lia. unfold tid_lt.
  destruct (Z.geb_spec (ItemPointerCompare (nth_tid i) (nth_tid j)) 0); [done|lia].
Qed.

(* ===================================================================== *)
(** * Compressing a leaf keeps what it holds *)
(* ===================================================================== *)

Lemma items_contents_app `{ZSCodec} l1 l2 :
  items_contents (l1 ++ l2) = items_contents l1 ++ items_contents l2.
Proof. induction l1 as [|x l1 IH]; simpl; [done|]. by rewrite IH, app_assoc. Qed.

Lemma items_contents_uncompressed `{ZSCodec} l :
  Forall (fun it => item_is_compressed it = false) l -> items_contents l = l.
Proof.
  induction 1 as [|x l Hx _ IH]; simpl; [done|]. unfold expand. by rewrite Hx, IH.
Qed.

(** An item of positive size is repacked at the end of the scratch
    page, or found not to fit; it is never refused. *)
Lemma repack_item_cases page it :
  0 < t_size it ->
  repack_item page (Some it) = RepackNoSpace \/
  (repack_item page (Some it)
   = Repacked (MkPage (pd_linp page ++ [it]) (pd_downlinks page) (pd_opaque page)) /\
   pd_lower page + sizeof_ItemIdData <= pd_upper page - MAXALIGN (t_size it)).
Proof.
  intros Hsz. unfold repack_item.
  destruct (Z.ltb_spec (PageGetFreeSpace page) (MAXALIGN (t_size it))); [by left|right].
  assert (pd_lower page + sizeof_ItemIdData <= pd_upper page - MAXALIGN (t_size it)) as Hfit
    by (apply PageGetFreeSpace_fits; [by apply MAXALIGN_pos|done]).
  by rewrite PageAddItemExtended_append.
Qed.

Lemma repack_option_cases page (n : option ZSBtreeItem) :
  (forall it, n = Some it -> 0 < t_size it) ->
  repack_item page n = RepackNoSpace \/
  exists page',
    repack_item page n = Repacked page' /\
    pd_linp page' = pd_linp page ++ option_list n /\
    pd_downlinks page' = pd_downlinks page /\
    pd_opaque page' = pd_opaque page /\
    (page_fits page -> page_fits page').
Proof.
  intros Hsz. destruct n as [it|].
  - destruct (repack_item_cases page it (Hsz _ eq_refl)) as [->|[-> Hfit]]; [by left|right].
    eexists. split; [done|]. cbn [pd_linp pd_downlinks pd_opaque option_list].
    repeat split. intros _. unfold page_fits. rewrite pd_lower_append, pd_upper_append. lia.
  - right. exists page. simpl. rewrite app_nil_r. done.
Qed.

Lemma compress_emit_cases `{ZSCodec} page n1 n2 i ci c :
  (forall it, n1 = Some it -> 0 < t_size it) ->
  (forall it, n2 = Some it -> 0 < t_size it) ->
  compress_emit page n1 n2 i ci c = CBreak \/
  exists page',
    compress_emit page n1 n2 i ci c = CNext (MkCompressLoop (i + 1) ci c page') /\
    pd_linp page' = pd_linp page ++ option_list n1 ++ option_list n2 /\
    pd_downlinks page' = pd_downlinks page /\
    pd_opaque page' = pd_opaque page /\
    (page_fits page -> page_fits page').
Proof.
  intros H1 H2. unfold compress_emit.
  destruct (repack_option_cases page n1 H1) as [->|(page1 & -> & Hl1 & Hd1 & Ho1 & Hf1)];
    [by left|].
  destruct (repack_option_cases page1 n2 H2) as [->|(page2 & -> & Hl2 & Hd2 & Ho2 & Hf2)];
    [by left|right].
  exists page2. split; [done|]. rewrite Hl2, Hl1, Hd2, Hd1, Ho2, Ho1, app_assoc.
  repeat split; auto.
Qed.

Lemma item_ok_finish `{ZSCodec} `{!ZSCodecLaws} c pending :
  compressor_holds c pending -> pending <> [] ->
  Forall (fun it => item_is_compressed it = false) pending ->
  item_ok (zs_compress_finish c).1 /\
  expand (zs_compress_finish c).1 = pending /\
  0 < t_size (zs_compress_finish c).1.
Proof.
  intros Hholds Hne Hunc.
  destruct (zs_compress_finish_run _ _ Hholds Hne Hunc) as (Hrc & Hrs & Hrd & Hrl).
  unfold item_ok, expand. rewrite Hrc, Hrd. done.
Qed.

(** One pass through the loop body keeps the invariant, or breaks out
    of the loop; it does not fail. *)
Lemma compress_body_inv `{ZSCodec} `{!ZSCodecLaws} origpage st pending :
  compress_inv origpage st pending ->
  cl_i st <= Z.of_nat (length (pd_linp origpage)) ->
  Forall item_ok (pd_linp origpage) ->
  compress_body origpage st = CBreak \/
  exists st' pending',
    compress_body origpage st = CNext st' /\ compress_inv origpage st' pending'.
Proof.
  intros (Hi & Hci & Hcont & Hunc & Hpend & Hok & Hdl & Hop & Hfit) Hmax Horig.
  assert (pd_linp origpage !! Z.to_nat (cl_i st - 1) = Some (PageGetItem origpage (cl_i st)))
    as Hitem.
  { unfold PageGetItem, FirstOffsetNumber. destruct (Z.ltb_spec (cl_i st) 1); [lia|].
    apply list_lookup_lookup_total_lt. lia. }
  unfold compress_body. cbv zeta.
  set (item := PageGetItem origpage (cl_i st)) in *.
  assert (item_ok item) as Hitok by (eapply Forall_lookup_1; done).
  assert (take (Z.to_nat (cl_i st + 1 - 1)) (pd_linp origpage)
          = take (Z.to_nat (cl_i st - 1)) (pd_linp origpage) ++ [item]) as Htake.
  { replace (Z.to_nat (cl_i st + 1 - 1)) with (S (Z.to_nat (cl_i st - 1))) by lia.
    by apply take_S_r. }
  assert (forall it, Some item = Some it -> 0 < t_size it) as Hsz
    by (intros ? [= <-]; apply Hitok).
  assert (forall it : ZSBtreeItem, None = Some it -> 0 < t_size it) as Hnone by done.
  destruct (item_is_compressed item) eqn:Hcomp.
  - destruct (decide (cl_compressed_items st > 0)) as [Hpos|Hzero].
    + destruct Hpend as [Hholds Hne].
      destruct (item_ok_finish _ _ Hholds Hne Hunc) as (Hrok & Hrex & Hrsz).
      destruct (zs_compress_finish (cl_compressor st)) as [run c'] eqn:Efin. cbn [fst] in *.
      destruct (compress_emit_cases (cl_page st) (Some run) (Some item) (cl_i st) 0 c')
        as [->|(page' & -> & Hl & Hd & Ho & Hf)]; [by intros ? [= <-]|done|by left|right].
      eexists _, []. split; [done|]. unfold compress_inv. cbn [cl_i cl_compressed_items cl_page
        cl_compressor option_list].
      rewrite Hl, Hd, Ho, Htake, !items_contents_app, app_nil_r, <- Hcont. simpl.
      rewrite Hrex, !app_nil_r, <- app_assoc.
      repeat split; try done; try lia; [|by auto].
      rewrite Forall_app. split; [done|]. repeat (apply Forall_cons_2; [done|]). apply Forall_nil_2.
    + assert (pending = []) as -> by done.
      destruct (compress_emit_cases (cl_page st) None (Some item) (cl_i st)
                  (cl_compressed_items st) (cl_compressor st))
        as [->|(page' & -> & Hl & Hd & Ho & Hf)]; [done|done|by left|right].
      eexists _, []. split; [done|]. unfold compress_inv. cbn [cl_i cl_compressed_items cl_page
        cl_compressor option_list].
      rewrite Hl, Hd, Ho, Htake, !items_contents_app, !app_nil_r, <- Hcont, app_nil_r.
      simpl. rewrite decide_False by done.
      repeat split; try done; try lia; [|by auto].
      rewrite Forall_app. split; [done|]. repeat (apply Forall_cons_2; [done|]). apply Forall_nil_2.
  - set (c0 := if decide (cl_compressed_items st = 0)
               then zs_compress_begin (cl_compressor st) (PageGetFreeSpace (cl_page st))
               else cl_compressor st).
    assert (compressor_holds c0 pending) as Hc0.
    { subst c0. destruct (decide (cl_compressed_items st = 0)) as [E|E].
      - rewrite decide_False in Hpend by lia. subst pending. constructor.
      - rewrite decide_True in Hpend by lia. apply Hpend. }
    destruct (zs_compress_add c0 item) as [[] c1] eqn:Eadd.
    + destruct (compress_emit_cases (cl_page st) None None (cl_i st)
                  (cl_compressed_items st + 1) c1)
        as [->|(page' & -> & Hl & Hd & Ho & Hf)]; [done|done|by left|right].
      eexists _, (pending ++ [item]). split; [done|]. unfold compress_inv.
      cbn [cl_i cl_compressed_items cl_page cl_compressor option_list].
      rewrite Hl, Hd, Ho, Htake, !items_contents_app, !app_nil_r, <- Hcont. simpl.
      unfold expand. rewrite Hcomp, decide_True by lia. simpl.
      repeat split; try done; try lia.
      * by rewrite app_assoc.
      * rewrite Forall_app. split; [done|]. repeat (apply Forall_cons_2; [done|]). apply Forall_nil_2.
      * by eapply holds_accept.
      * by destruct pending.
      * by auto.
    + assert (compressor_holds c1 pending) as Hc1 by (by eapply holds_reject).
      destruct (decide (cl_compressed_items st > 0)) as [Hpos|Hzero].
      * destruct Hpend as [_ Hne].
        destruct (item_ok_finish _ _ Hc1 Hne Hunc) as (Hrok & Hrex & Hrsz).
        destruct (zs_compress_finish c1) as [run c2] eqn:Efin. cbn [fst] in *.
        destruct (compress_emit_cases (cl_page st) (Some run) None (cl_i st - 1) 0 c2)
          as [->|(page' & -> & Hl & Hd & Ho & Hf)]; [by intros ? [= <-]|done|by left|right].
        eexists _, []. split; [done|]. unfold compress_inv.
        cbn [cl_i cl_compressed_items cl_page cl_compressor option_list].
        replace (cl_i st - 1 + 1 - 1) with (cl_i st - 1) by lia.
        rewrite Hl, Hd, Ho, !items_contents_app, !app_nil_r, <- Hcont. simpl.
        rewrite Hrex, !app_nil_r.
        repeat split; try done; try lia; [|by auto].
        rewrite Forall_app. split; [done|]. repeat (apply Forall_cons_2; [done|]). apply Forall_nil_2.
      * assert (pending = []) as -> by done.
        destruct (compress_emit_cases (cl_page st) (Some item) None (cl_i st)
                    (cl_compressed_items st) c1)
          as [->|(page' & -> & Hl & Hd & Ho & Hf)]; [done|done|by left|right].
        eexists _, []. split; [done|]. unfold compress_inv.
        cbn [cl_i cl_compressed_items cl_page cl_compressor option_list].
        rewrite Hl, Hd, Ho, Htake, !items_contents_app, !app_nil_r, <- Hcont, app_nil_r.
        simpl. rewrite decide_False by done.
        repeat split; try done; try lia; [|by auto].
        rewrite Forall_app. split; [done|]. repeat (apply Forall_cons_2; [done|]). apply Forall_nil_2.
Qed.

(** The loop returns; when it reports success it has been through
    every item of the live page. *)
Lemma compress_loop_inv `{ZSCodec} `{!ZSCodecLaws} origpage maxoff st :
  forall pending,
  compress_inv origpage st pending ->
  maxoff = Z.of_nat (length (pd_linp origpage)) ->
  Forall item_ok (pd_linp origpage) ->
  exists success st',
    compress_loop origpage maxoff st = Ok (success, st') /\
    (success = true ->
     exists pending', compress_inv origpage st' pending' /\ maxoff < cl_i st').
Proof.
  funelim (compress_loop origpage maxoff st); clear Heqcall;
    intros pending Hinv Hmax Horig.
  - exists true, st. split; [done|]. intros _. exists pending. split; [done|lia].
  - destruct (compress_body_inv _ _ _ Hinv ltac:(lia) Horig)
      as [Hbreak|(st2 & pending2 & Hnext & Hinv2)]; [congruence|].
    rewrite Hbody in Hnext. injection Hnext as <-.
    by eapply H0.
  - exists false, st. split; [done|]. discriminate.
  - destruct (compress_body_inv _ _ _ Hinv ltac:(lia) Horig)
      as [Hbreak|(st2 & pending2 & Hnext & Hinv2)]; congruence.
Qed.

(** Under the codec laws [zsbt_compress_leaf] returns, and the page it
    may have put in place of the leaf is a leaf with the same trailer
    that stands for the same items. *)
Lemma zsbt_compress_leaf_contents `{ZSCodec} `{!ZSCodecLaws} rel buf origpage :
  rel_pages rel !! buf = Some origpage ->
  leaf_ok origpage ->
  exists success rel1,
    zsbt_compress_leaf rel buf = Ok (success, rel1) /\
    (rel1 = rel \/
     exists page1,
       rel1 = write_page rel buf page1 /\
       pd_opaque page1 = pd_opaque origpage /\
       page_contents page1 = page_contents origpage /\
       leaf_ok page1).
Proof.
  intros Hread (Hlevel & Hdl & Hitems & Hfits).
  unfold zsbt_compress_leaf, ReadBuffer. rewrite Hread. cbn [bind].
  destruct (compress_loop_inv origpage (PageGetMaxOffsetNumber origpage)
              (MkCompressLoop FirstOffsetNumber 0 zs_compress_init
                 (PageGetTempPageCopySpecial origpage)) [])
    as (success & st & -> & Hsucc); [|done|done|].
  { unfold compress_inv, FirstOffsetNumber, page_fits, pd_lower, pd_upper.
    cbn [cl_i cl_compressed_items cl_page cl_compressor PageGetTempPageCopySpecial
         pd_linp pd_downlinks pd_opaque]. simpl. repeat split; try done; try lia. }
  cbn [bind]. unfold compress_flush.
  destruct success; cbn [andb]; [|cbn [bind]; eauto].
  destruct (Hsucc eq_refl) as (pending & Hinv & Hend).
  destruct Hinv as (Hi & Hci & Hcont & Hunc & Hpend & Hok & Hdl' & Hop & Hfit).
  unfold PageGetMaxOffsetNumber in Hend.
  rewrite take_ge in Hcont by lia.
  case_bool_decide as Hpos.
  - rewrite decide_True in Hpend by done. destruct Hpend as [Hholds Hne].
    destruct (item_ok_finish _ _ Hholds Hne Hunc) as (Hrok & Hrex & Hrsz).
    destruct (zs_compress_finish (cl_compressor st)) as [run c'] eqn:Efin. cbn [fst] in *.
    destruct (Z.ltb_spec (PageGetFreeSpace (cl_page st)) (MAXALIGN (t_size run)));
      [cbn [bind]; eauto|].
    assert (pd_lower (cl_page st) + sizeof_ItemIdData
            <= pd_upper (cl_page st) - MAXALIGN (t_size run)) as Hroom
      by (apply PageGetFreeSpace_fits; [by apply MAXALIGN_pos|done]).
    rewrite PageAddItemExtended_append by done. cbn [bind].
    eexists _, _. split; [done|]. right. eexists. split; [done|].
    cbn [pd_opaque]. split; [done|]. split.
    + unfold page_contents. cbn [pd_linp]. rewrite items_contents_app. simpl.
      by rewrite Hrex, app_nil_r.
    + unfold leaf_ok. cbn [pd_opaque pd_downlinks pd_linp].
      split; [by rewrite Hop|]. split; [done|]. split.
      * rewrite Forall_app. split; [done|]. by apply Forall_singleton.
      * unfold page_fits. rewrite pd_lower_append, pd_upper_append. lia.
  - rewrite decide_False in Hpend by done. subst pending. rewrite app_nil_r in Hcont.
    cbn [bind]. eexists _, _. split; [done|]. right. eexists. split; [done|].
    split; [done|]. split; [done|]. unfold leaf_ok. by rewrite Hop.
Qed.


(* ===================================================================== *)
(** * Appending to the last leaf *)
(* ===================================================================== *)

(** The copy loop of a split that keeps every old item on the left
    page and puts the new item alone on the right page: it succeeds
    when the old items fit on the left page and the new item on the
    right one. *)
Lemma split_leaf_copy_runs `{ZSCodec} rest : forall i lastleftoff newitem L R,
  i + Z.of_nat (length rest) = lastleftoff + 1 ->
  pd_linp R = [] ->
  pd_lower R + sizeof_ItemIdData <= pd_upper R - MAXALIGN (t_size newitem) ->
  Forall item_ok rest ->
  pd_lower L + sizeof_ItemIdData * Z.of_nat (length rest) <= pd_upper L - items_bytes rest ->
  split_leaf_copy rest i lastleftoff newitem false (lastleftoff + 1) L R
  = Ok (MkPage (pd_linp L ++ rest) (pd_downlinks L) (pd_opaque L),
        MkPage [newitem] (pd_downlinks R) (pd_opaque R)).
Proof.
  induction rest as [|item rest IH]; intros i lastleftoff newitem L R Hi HR HfitR Hok HfitL.
  - simpl in Hi. cbn [split_leaf_copy].
    replace (i =? lastleftoff + 1) with true by (symmetry; apply Z.eqb_eq; lia).
    replace FirstOffsetNumber with (PageGetMaxOffsetNumber R + 1)
      by (unfold PageGetMaxOffsetNumber; rewrite HR; done).
    rewrite PageAddItemExtended_append by done. rewrite HR, app_nil_r.
    by destruct L.
  - cbn [split_leaf_copy]. cbn [length] in Hi.
    replace (i =? lastleftoff + 1) with false by (symmetry; apply Z.eqb_neq; lia).
    replace (i <=? lastleftoff) with true by (symmetry; apply Z.leb_le; lia).
    cbn [bind].
    apply Forall_cons in Hok as [Hitem Hok].
    pose proof (items_bytes_nonneg _ Hok) as Hnn.
    change (items_bytes (item :: rest)) with (MAXALIGN (t_size item) + items_bytes rest) in HfitL.
    cbn [length] in HfitL. unfold sizeof_ItemIdData in *.
    rewrite PageAddItemExtended_append by (unfold sizeof_ItemIdData; lia). cbn [bind].
    rewrite IH; try done.
    + cbn [pd_linp pd_downlinks pd_opaque]. by rewrite <- app_assoc.
    + lia.
    + rewrite pd_lower_append, pd_upper_append. unfold sizeof_ItemIdData. lia.
Qed.

(** A leaf whose items fit leaves room for them on an empty page. *)
Lemma leaf_items_fit `{ZSCodec} page :
  leaf_ok page ->
  pd_lower (MkPage [] [] (pd_opaque page))
    + sizeof_ItemIdData * Z.of_nat (length (pd_linp page))
  <= pd_upper (MkPage [] [] (pd_opaque page)) - items_bytes (pd_linp page).
Proof.
  intros (_ & Hdl & _ & Hfit). unfold page_fits, pd_lower, pd_upper in *.
  rewrite Hdl in Hfit. cbn [pd_linp pd_downlinks length items_bytes foldr] in *.
  unfold sizeof_ItemIdData in *. lia.
Qed.

(** The size of the item formed for a row does not depend on its TID,
    and is positive. *)
Lemma form_item_size state tid : t_size (form_item state tid) = t_size (form_item state MinTid).
Proof. done. Qed.

Lemma form_item_size_pos state tid : 0 < t_size (form_item state tid).
Proof.
  unfold form_item. cbn [t_size]. unfold offsetof_t_payload, SizeofHeapTupleHeader.
  destruct (_ =? _); lia.
Qed.

Lemma form_item_ok `{ZSCodec} state tid : item_ok (form_item state tid).
Proof.
  split; [apply form_item_size_pos|]. unfold item_is_compressed, form_item. cbn [t_flags].
  done.
Qed.

Lemma form_item_uncompressed state tid : item_is_compressed (form_item state tid) = false.
Proof. done. Qed.

Lemma tree_contents_app `{ZSCodec} rel l1 l2 :
  tree_contents rel (l1 ++ l2) = tree_contents rel l1 ++ tree_contents rel l2.
Proof. induction l1 as [|b l1 IH]; simpl; [done|]. by rewrite IH, app_assoc. Qed.

Lemma tree_contents_frame `{ZSCodec} rel rel' ls :
  (forall b, b ∈ ls ->
     (page_contents <$> rel_pages rel' !! b) = (page_contents <$> rel_pages rel !! b)) ->
  tree_contents rel' ls = tree_contents rel ls.
Proof.
  induction ls as [|b ls IH]; intros Hsame; [done|]. simpl.
  rewrite IH by (intros c Hc; apply Hsame; set_solver).
  pose proof (Hsame b ltac:(set_solver)) as Hb.
  destruct (rel_pages rel' !! b), (rel_pages rel !! b); simpl in Hb; congruence.
Qed.

(** The blocks of a leaf chain are pairwise different, and none is a
    page above the leaves. *)
Lemma leaf_chain_inj `{ZSCodec} rel leaves (i j : nat) b :
  leaf_chain rel leaves -> leaves !! i = Some b -> leaves !! j = Some b -> i = j.
Proof.
  intros [Hsorted _] Hi Hj.
  destruct (Nat.lt_trichotomy i j) as [Hlt|[->|Hlt]]; [|done|].
  - pose proof (Hsorted _ _ _ _ Hi Hj Hlt). lia.
  - pose proof (Hsorted _ _ _ _ Hj Hi Hlt). lia.
Qed.

Lemma leaf_chain_level `{ZSCodec} rel leaves b :
  leaf_chain rel leaves -> b ∈ leaves ->
  exists page, rel_pages rel !! b = Some page /\ zs_level (pd_opaque page) = 0.
Proof.
  intros [_ Hpages] Hb. apply list_elem_of_lookup_1 in Hb as [i Hi].
  destruct (Hpages _ _ Hi) as (page & Hp & (Hl & _) & _). eauto.
Qed.

Lemma lspine_levels rel lup : forall child level b,
  lspine rel child level lup -> b ∈ lup ->
  exists page, rel_pages rel !! b = Some page /\ level < zs_level (pd_opaque page).
Proof.
  induction lup as [|c lup IH]; intros child level b Hsp Hb; [by apply elem_of_nil in Hb|].
  destruct Hsp as (page & Hp & Hok & Hrest).
  apply elem_of_cons in Hb as [->|Hb].
  - exists page. split; [done|]. destruct Hok as (-> & _). lia.
  - destruct (IH _ _ _ Hrest Hb) as (pb & Hpb & Hl). exists pb. split; [done|lia].
Qed.

(** A left spine stays one when every page that was fit for it still
    is. *)
Lemma lspine_preserved rel rel' lup : forall child level,
  (forall blk page lvl c, rel_pages rel !! blk = Some page -> lpage_ok page lvl c ->
     exists page', rel_pages rel' !! blk = Some page' /\ lpage_ok page' lvl c) ->
  lspine rel child level lup -> lspine rel' child level lup.
Proof.
  induction lup as [|b lup IH]; intros child level Hkeep Hsp; [done|].
  destruct Hsp as (page & Hp & Hok & Hrest).
  destruct (Hkeep _ _ _ _ Hp Hok) as (page' & Hp' & Hok').
  exists page'. split; [done|]. split; [done|]. by apply IH.
Qed.

(** A new root on top of a left spine. *)
Lemma lspine_snoc rel lup : forall child level b page,
  lspine rel child level lup ->
  rel_pages rel !! b = Some page ->
  lpage_ok page (level + Z.of_nat (length lup) + 1) (spine_top child lup) ->
  lspine rel child level (lup ++ [b]).
Proof.
  induction lup as [|c lup IH]; intros child level b page Hsp Hp Hok.
  - simpl in *. rewrite spine_top_nil, Z.add_0_r in Hok. exists page. done.
  - destruct Hsp as (pc & Hpc & Hokc & Hrest). simpl. exists pc.
    split; [done|]. split; [done|]. eapply IH; [done|done|].
    rewrite spine_top_cons in Hok. cbn [length] in Hok.
    replace (level + 1 + Z.of_nat (length lup) + 1)
      with (level + Z.of_nat (S (length lup)) + 1) by lia. done.
Qed.

Lemma spine_top_snoc child up b : spine_top child (up ++ [b]) = b.
Proof. unfold spine_top. by rewrite last_snoc. Qed.

Lemma spine_slack_nonneg rel up : forall child ck level,
  rspine rel child ck level up -> 0 <= spine_slack rel up.
Proof.
  induction up as [|b up IH]; intros child ck level Hsp; [done|].
  destruct Hsp as (page & Hp & Hok & Hrest). simpl. rewrite Hp.
  pose proof (IH _ _ _ Hrest). destruct Hok as (_ & _ & _ & Hlen & _). lia.
Qed.

(** A leaf item stands for at least one item. *)
Lemma expand_nonempty `{ZSCodec} item : item_ok item -> expand item <> [].
Proof.
  intros [_ Hrun]. unfold expand. destruct (item_is_compressed item); [|done].
  specialize (Hrun eq_refl). by destruct (zs_decompress_chunk item).
Qed.

Lemma items_contents_nil `{ZSCodec} items :
  Forall item_ok items -> items_contents items = [] -> items = [].
Proof.
  intros Hok Hnil. destruct Hok as [|x l Hx _]; [done|]. simpl in Hnil.
  apply app_eq_nil in Hnil as [Hx' _]. by apply expand_nonempty in Hx.
Qed.

(** The last item of a page whose last leaf item is uncompressed. *)
Lemma items_contents_last `{ZSCodec} items x :
  last items = Some x -> item_is_compressed x = false ->
  last (items_contents items) = Some x.
Proof.
  intros Hlast Hx. destruct items as [|y l _] using rev_ind; [done|].
  rewrite last_snoc in Hlast. injection Hlast as ->.
  rewrite items_contents_app. simpl. unfold expand. rewrite Hx. simpl.
  by rewrite last_snoc.
Qed.

(** Writing a page back unchanged changes nothing. *)
Lemma write_page_id rel blk page :
  rel_pages rel !! blk = Some page -> write_page rel blk page = rel.
Proof. intros Hp. destruct rel as [pages n roots]. unfold write_page. simpl in *.
  by rewrite insert_id. Qed.

Lemma write_page_write rel blk page page' :
  write_page (write_page rel blk page) blk page' = write_page rel blk page'.
Proof. unfold write_page. simpl. by rewrite insert_insert_eq. Qed.

(** Replacing a leaf leaves the spines above the leaves as they are. *)
Lemma rspine_write_leaf rel b page page' up child ck level :
  rel_pages rel !! b = Some page -> zs_level (pd_opaque page) = 0 -> 0 <= level ->
  rspine rel child ck level up -> rspine (write_page rel b page') child ck level up.
Proof.
  intros Hp Hl Hlevel Hsp. eapply rspine_frame; [|exact Hsp].
  intros c Hc. rewrite rel_pages_write.
  destruct (decide (b = c)) as [<-|]; [|done].
  destruct (rspine_levels _ _ _ _ _ _ Hsp Hc) as (pc & Hpc & Hlt).
  rewrite Hp in Hpc. injection Hpc as <-. lia.
Qed.

Lemma lspine_write_leaf rel b page page' lup child level :
  rel_pages rel !! b = Some page -> zs_level (pd_opaque page) = 0 -> 0 <= level ->
  lspine rel child level lup -> lspine (write_page rel b page') child level lup.
Proof.
  intros Hp Hl Hlevel Hsp. eapply lspine_frame; [|exact Hsp].
  intros c Hc. rewrite rel_pages_write.
  destruct (decide (b = c)) as [<-|]; [|done].
  destruct (lspine_levels _ _ _ _ _ Hsp Hc) as (pc & Hpc & Hlt).
  rewrite Hp in Hpc. injection Hpc as <-. lia.
Qed.

Lemma spine_slack_write_leaf rel b page page' up child ck level :
  rel_pages rel !! b = Some page -> zs_level (pd_opaque page) = 0 -> 0 <= level ->
  rspine rel child ck level up ->
  spine_slack (write_page rel b page') up = spine_slack rel up.
Proof.
  intros Hp Hl Hlevel Hsp. apply spine_slack_frame.
  intros c Hc. rewrite rel_pages_write.
  destruct (decide (b = c)) as [<-|]; [|done].
  destruct (rspine_levels _ _ _ _ _ _ Hsp Hc) as (pc & Hpc & Hlt).
  rewrite Hp in Hpc. injection Hpc as <-. lia.
Qed.

(** Replacing one leaf of the chain by a leaf with the same trailer
    keeps the chain. *)
Lemma leaf_chain_write `{ZSCodec} rel leaves b page page' :
  leaf_chain rel leaves ->
  rel_pages rel !! b = Some page ->
  leaf_ok page' -> pd_opaque page' = pd_opaque page ->
  leaf_chain (write_page rel b page') leaves.
Proof.
  intros [Hsorted Hpages] Hp Hok Hop. split; [done|].
  intros i blk Hi. rewrite rel_pages_write.
  destruct (Hpages _ _ Hi) as (pi & Hpi & Hoki & Hlo & Hnext).
  destruct (decide (b = blk)) as [<-|]; [|eauto].
  rewrite Hp in Hpi. injection Hpi as <-. exists page'. rewrite Hop. done.
Qed.

(** The items of a chain whose last leaf is replaced. *)
Lemma tree_contents_write_last `{ZSCodec} rel init b page' :
  leaf_chain rel (init ++ [b]) ->
  tree_contents (write_page rel b page') (init ++ [b])
  = tree_contents rel init ++ page_contents page'.
Proof.
  intros Hchain. rewrite tree_contents_app. cbn [tree_contents].
  rewrite rel_pages_write, decide_True, app_nil_r by done. f_equal.
  apply tree_contents_frame. intros c Hc. rewrite rel_pages_write.
  destruct (decide (b = c)) as [<-|]; [|done].
  apply list_elem_of_lookup_1 in Hc as [i Hi].
  pose proof (lookup_lt_Some _ _ _ Hi) as Hlt.
  assert ((init ++ [b]) !! i = Some b) as Hi1 by (by apply lookup_app_l_Some).
  assert ((init ++ [b]) !! length init = Some b) as Hi2 by (by rewrite list_lookup_middle).
  pose proof (leaf_chain_inj _ _ _ _ _ Hchain Hi1 Hi2). lia.
Qed.

Lemma tree_contents_last `{ZSCodec} rel init b page :
  rel_pages rel !! b = Some page ->
  tree_contents rel (init ++ [b]) = tree_contents rel init ++ page_contents page.
Proof. intros Hp. rewrite tree_contents_app. simpl. by rewrite Hp, app_nil_r. Qed.

(** The first [if] of [zsbt_insert_to_leaf] on a leaf: the leaf is
    replaced by one with the same trailer and the same contents. *)
Lemma insert_try_compress_contents `{ZSCodec} `{!ZSCodecLaws} rel buf page itemsz :
  rel_pages rel !! buf = Some page ->
  leaf_ok page ->
  exists page1,
    insert_try_compress rel buf itemsz = Ok (write_page rel buf page1) /\
    pd_opaque page1 = pd_opaque page /\
    page_contents page1 = page_contents page /\
    leaf_ok page1.
Proof.
  intros Hp Hok. unfold insert_try_compress, ReadBuffer. rewrite Hp. cbn [bind].
  destruct (_ <? _).
  - destruct (zsbt_compress_leaf_contents rel buf page Hp Hok)
      as (success & rel1 & -> & [->|(page1 & -> & Hop & Hc & Hok1)]); cbn [bind].
    + exists page. by rewrite write_page_id.
    + by exists page1.
  - exists page. by rewrite write_page_id.
Qed.

(** The TID the next insertion picks is the next one to hand out. *)
Lemma next_tid_tree_inv `{ZSCodec} rel attno G leaves up lup lastblk lastpage :
  tree_inv rel attno G leaves up lup ->
  last leaves = Some lastblk -> rel_pages rel !! lastblk = Some lastpage ->
  next_tid_on_leaf lastpage = nth_tid (length G).
Proof.
  intros [Ha Hchain Hcont Htids (lb & lp & Hlast & Hlp & Hunc & Hempty & _) _ _ _ Hlc]
    Hlast' Hlp'.
  rewrite Hlast in Hlast'. injection Hlast' as ->. rewrite Hlp in Hlp'. injection Hlp' as ->.
  apply last_Some in Hlast as [init ->].
  rewrite (tree_contents_last _ _ _ _ Hlp) in Hcont.
  unfold next_tid_on_leaf, PageGetMaxOffsetNumber, FirstOffsetNumber, ZSBtreePageGetOpaque.
  destruct (pd_linp lastpage) as [|y l _] eqn:Elinp using rev_ind.
  - simpl. rewrite (Hempty eq_refl) in *. cbn [length] in *.
    rewrite length_app in Hlc. cbn [length] in Hlc.
    assert (init = []) as -> by (destruct init; [done|simpl in Hlc; lia]).
    destruct Hchain as [_ Hpages].
    destruct (Hpages 0%nat lastblk eq_refl) as (p & Hp & _ & Hlo & _).
    rewrite Hlp in Hp. injection Hp as <-. by rewrite Hlo.
  - rewrite length_app. cbn [length].
    destruct (Z.geb_spec (Z.of_nat (length l + 1)) 1); [|lia].
    unfold PageGetItem, FirstOffsetNumber.
    destruct (Z.ltb_spec (Z.of_nat (length l + 1)) 1); [lia|].
    rewrite Elinp.
    replace (Z.to_nat (Z.of_nat (length l + 1) - 1)) with (length l) by lia.
    rewrite (list_lookup_total_middle l [] y) by done.
    assert (last G = Some y) as HlastG.
    { rewrite <- Hcont, last_app. unfold page_contents. rewrite Elinp.
      rewrite (items_contents_last (l ++ [y]) y); [done|by rewrite last_snoc|].
      apply Hunc. by rewrite last_snoc. }
    destruct G as [|g G' _] using rev_ind; [done|].
    rewrite last_snoc in HlastG. injection HlastG as ->.
    destruct (Htids (length G') y) as [-> _]; [by rewrite list_lookup_middle|].
    rewrite length_app. cbn [length]. rewrite Nat.add_1_r. done.
Qed.

(** Inserting a row into a tree that has only been appended to: the
    call returns the next TID, and the tree is again such a tree, with
    the new item at its end. *)
Lemma zsbt_insert_tree_inv `{ZSCodec} `{!ZSCodecLaws} rel att G leaves up lup d h fuel :
  tree_inv rel att G leaves up lup ->
  row_fits att (d, h) ->
  Z.of_nat (length G) + 1 < 2 ^ 30 ->
  (length G + 2 <= fuel)%nat ->
  exists rel' leaves' up' lup',
    zsbt_insert fuel rel att d h = Ok (nth_tid (length G), rel') /\
    tree_inv rel' att
      (G ++ [form_item (MkInsertState att d h) (nth_tid (length G))]) leaves' up' lup'.
Proof.
  intros Hinv [Hfit Hhdr] Hn Hfuel.
  pose proof Hinv as
    [Ha Hchain Hcont Htids (lastblk & lastpage & Hlast & Hlp & Hunc & Hempty & Hrsp & Hroot)
       (firstblk & Hhead & Hlsp & Hroot') [Hh1 Hh2] Hcount Hlc].
  pose proof (next_tid_tree_inv _ _ _ _ _ _ _ _ Hinv Hlast Hlp) as Htid.
  apply last_Some in Hlast as [init ->].
  assert ((init ++ [lastblk]) !! length init = Some lastblk) as Hidx
    by (by rewrite list_lookup_middle).
  pose proof Hchain as [Hsorted Hpages].
  destruct (Hpages _ _ Hidx) as (p & Hp & Hlok & Hlo & Hnext).
  rewrite Hlp in Hp. injection Hp as <-.
  rewrite lookup_ge_None_2 in Hnext by (rewrite length_app; simpl; lia). cbn [default] in Hnext.
  rewrite length_app in Hlc, Hh2. cbn [length] in Hlc, Hh2.
  assert (Z.of_nat (length init) + 1 < 2 ^ 30) as Hleaves by lia.
  pose proof Hlok as (Hlevel & Hdl & Hitems & Hfits).
  unfold zsbt_insert, zsmeta_get_root_for_attribute. rewrite Hroot.
  unfold zsbt_find_insertion_target.
  rewrite (zsbt_descend_rspine rel lastblk lastpage up); try done; [| |lia]; cycle 1.
  { rewrite Hlo. unfold tid_le, ItemPointerCompare, MaxBlockNumber. cbn [ip_blkid ip_posid].
    repeat match goal with |- context [?x <? ?y] => destruct (Z.ltb_spec x y) end; lia. }
  cbn [bind]. unfold zsbt_insert_to_leaf. unfold ReadBuffer at 1. rewrite Hlp. cbn [bind].
  rewrite Htid.
  set (state := MkInsertState att d h).
  set (item := form_item state (nth_tid (length G))).
  destruct (insert_try_compress_contents rel lastblk lastpage (t_size item) Hlp Hlok)
    as (page1 & -> & Hop1 & Hc1 & Hlok1).
  cbn [bind]. unfold ReadBuffer at 1. rewrite rel_pages_write, decide_True by done. cbn [bind].
  set (rel1 := write_page rel lastblk page1).
  assert (blocks_allocated rel1) as Ha1
    by (apply blocks_allocated_write; [done|by eapply blocks_allocated_lookup]).
  assert (leaf_chain rel1 (init ++ [lastblk])) as Hchain1 by (by eapply leaf_chain_write).
  assert (tree_contents rel init ++ page_contents page1 = G) as Hcont1.
  { rewrite Hc1. by rewrite <- (tree_contents_last rel init lastblk lastpage). }
  assert (0 < MAXALIGN (t_size item)) as Hszpos
    by (apply MAXALIGN_pos, form_item_size_pos).
  destruct (Z.geb_spec (PageGetFreeSpace page1) (MAXALIGN (t_size item))) as [Hroom|Hfull].
  - (* the item goes at the end of the leaf *)
    rewrite PageAddItemExtended_append by (by apply PageGetFreeSpace_fits).
    set (page2 := MkPage (pd_linp page1 ++ [item]) (pd_downlinks page1) (pd_opaque page1)).
    subst rel1. rewrite write_page_write.
    assert (leaf_ok page2) as Hlok2.
    { destruct Hlok1 as (Hl1 & Hd1 & Hi1 & Hf1). subst page2. unfold leaf_ok.
      cbn [pd_opaque pd_downlinks pd_linp]. split; [done|]. split; [done|]. split.
      - rewrite Forall_app. split; [done|]. apply Forall_singleton, form_item_ok.
      - unfold page_fits. rewrite pd_lower_append, pd_upper_append.
        pose proof (PageGetFreeSpace_fits page1 (t_size item) Hszpos Hroom). lia. }
    exists (write_page rel lastblk page2), (init ++ [lastblk]), up, lup.
    split; [done|]. split.
    + apply blocks_allocated_write; [done|by eapply blocks_allocated_lookup].
    + eapply leaf_chain_write; [done|done|done|]. subst page2. cbn [pd_opaque]. done.
    + rewrite tree_contents_write_last by done. subst page2. unfold page_contents.
      cbn [pd_linp]. rewrite items_contents_app.
      change (items_contents [item]) with [item]. fold (page_contents page1).
      by rewrite app_assoc, Hcont1.
    + intros k x Hk. apply lookup_app_Some in Hk as [Hk|[Hge Hk]]; [by apply Htids|].
      apply list_lookup_singleton_Some in Hk as [Hk <-].
      replace k with (length G) by lia. done.
    + exists lastblk, page2. rewrite last_snoc, rel_pages_write, decide_True by done.
      split; [done|]. split; [done|]. subst page2. cbn [pd_linp pd_opaque].
      rewrite last_snoc. split; [by intros x [= <-]|].
      split; [by destruct (pd_linp page1)|].
      rewrite Hop1. split; [by eapply rspine_write_leaf|done].
    + exists firstblk. split; [done|]. split; [by eapply lspine_write_leaf|done].
    + rewrite length_app. simpl. done.
    + erewrite spine_slack_write_leaf; [done|done|done| |done]. lia.
    + rewrite !length_app. cbn [length]. lia.
  - (* the leaf is split: the old items stay, the new one starts the
       right sibling *)
    assert (rel_pages rel1 !! lastblk = Some page1) as Hp1
      by (subst rel1; by rewrite rel_pages_write, decide_True).
    unfold zsbt_split_leaf. unfold ReadBuffer at 1. rewrite Hp1. cbn [bind].
    unfold zs_getnewbuf. cbn [attno].
    unfold split_leaf_pages. cbv zeta.
    rewrite split_leaf_copy_runs; cycle 1.
    { unfold FirstOffsetNumber, PageGetMaxOffsetNumber. lia. }
    { done. }
    { pose proof (PageGetFreeSpace_fits initial_root_page (t_size item) Hszpos Hfit) as Hr.
      unfold pd_lower, pd_upper in *. cbn [pd_linp pd_downlinks set_opaque PageInit
        initial_root_page] in *. exact Hr. }
    { apply Hlok1. }
    { pose proof (leaf_items_fit page1 Hlok1) as Hl.
      unfold pd_lower, pd_upper in *.
      cbn [pd_linp pd_downlinks set_opaque PageGetTempPageCopySpecial] in *. exact Hl. }
    cbn [bind set_opaque PageGetTempPageCopySpecial PageInit pd_linp pd_downlinks pd_opaque
         app ZSBtreePageGetOpaque].
    unfold ZSBtreePageGetOpaque. cbn [pd_opaque zs_next zs_lokey zs_hikey zs_level zs_flags
      zs_page_id].
    change (attno state) with att. change (rel_nblocks rel1) with (rel_nblocks rel).
    change (rel_roots rel1) with (rel_roots rel).
    rewrite Hop1, Hlo, Hnext, Hlevel. cbn [ip_blkid].
    unfold wrap32. rewrite Z.mod_small by lia.
    set (right := rel_nblocks rel).
    set (splittid := ItemPointerSet (Z.of_nat (length init) + 1) 1).
    match goal with
    | |- context [write_page (write_page _ lastblk ?l) right ?r] =>
        set (L := l); set (R := r)
    end.
    match goal with |- context [zsbt_insert_downlink fuel ?r] => set (rel4 := r) end.
    pose proof (blocks_allocated_lookup _ _ _ Ha Hlp) as Hlastblk. fold right in Hlastblk.
    assert (forall c, rel_pages rel4 !! c
              = if decide (right = c) then Some R
                else if decide (lastblk = c) then Some L else rel_pages rel !! c) as Hrel4.
    { intros c. subst rel4 rel1. rewrite !rel_pages_write. cbn [rel_pages].
      rewrite rel_pages_write. by repeat case_decide. }
    assert (forall c pc, rel_pages rel !! c = Some pc -> c <> right) as Hfresh.
    { intros c pc Hc. apply (blocks_allocated_lookup _ _ _ Ha) in Hc. subst right. lia. }
    assert (forall c, c ∈ up -> c <> lastblk /\ c <> right) as Hup.
    { intros c Hc. destruct (rspine_levels _ _ _ _ _ _ Hrsp Hc) as (pc & Hpc & Hlt).
      split; [|by eapply Hfresh]. intros ->. rewrite Hlp in Hpc. injection Hpc as <-. lia. }
    assert (forall c, c ∈ lup -> c <> lastblk /\ c <> right) as Hlup.
    { intros c Hc. destruct (lspine_levels _ _ _ _ _ Hlsp Hc) as (pc & Hpc & Hlt).
      split; [|by eapply Hfresh]. intros ->. rewrite Hlp in Hpc. injection Hpc as <-. lia. }
    assert (blocks_allocated rel4) as Ha4.
    { subst rel4. destruct Ha1 as [Hpos1 Hall1].
      repeat apply blocks_allocated_write; cbn [write_page rel_nblocks];
        try (change (rel_nblocks rel1) with right; lia).
      split; cbn [rel_nblocks rel_pages]; [change (rel_nblocks rel1) with right; lia|].
      intros blk pg Hpg. apply Hall1 in Hpg. change (rel_nblocks rel1) with right in Hpg. lia. }
    destruct (zsbt_insert_downlink_rspine up rel4 att lastblk L right splittid fuel)
      as (rel' & up' & Hrun & Ha' & Hsp' & Hroot2 & Hslack & Hnb & Hsame & (L' & HL' & HsbfL)
          & Hlp_keep & Hnew); try done.
    { rewrite Hrel4. rewrite decide_False by lia. by rewrite decide_True. }
    { subst L. cbn [pd_opaque zs_lokey zs_level]. rewrite <- Hlo.
      eapply rspine_frame; [|exact Hrsp]. intros c Hc. destruct (Hup c Hc).
      rewrite Hrel4. by rewrite !decide_False. }
    { subst L splittid. cbn [pd_opaque zs_lokey]. unfold tid_lt, ItemPointerCompare.
      cbn [ip_blkid ip_posid].
      repeat match goal with |- context [?x <? ?y] => destruct (Z.ltb_spec x y) end; lia. }
    { subst splittid. unfold tid_le, rightmostkey, ItemPointerCompare, MaxBlockNumber.
      cbn [ip_blkid ip_posid].
      repeat match goal with |- context [?x <? ?y] => destruct (Z.ltb_spec x y) end; lia. }
    { lia. }
    rewrite Hrun. cbn [bind].
    assert (rel_nblocks rel4 = right + 1) as Hnb4 by done.
    assert (forall c, c ∈ init ++ [lastblk] -> (c ∉ up) /\ c < right) as Hleaf_up.
    { intros c Hc. destruct (leaf_chain_level _ _ _ Hchain Hc) as (pc & Hpc & Hl0).
      split; [|apply (blocks_allocated_lookup _ _ _ Ha) in Hpc; subst right; lia].
      intros Hin. destruct (rspine_levels _ _ _ _ _ _ Hrsp Hin) as (pc' & Hpc' & Hlt).
      rewrite Hpc in Hpc'. injection Hpc' as <-. lia. }
    assert (rel_pages rel' !! right = Some R) as HR'.
    { rewrite Hsame; [|lia| |lia].
      - rewrite Hrel4. by rewrite decide_True.
      - intros Hin. destruct (Hup _ Hin). done. }
    assert (forall c, c ∈ init ++ [lastblk] -> c <> lastblk ->
              rel_pages rel' !! c = rel_pages rel !! c) as Hother.
    { intros c Hc Hne. destruct (Hleaf_up c Hc). rewrite Hsame; [|done|done|lia].
      rewrite Hrel4. rewrite decide_False by lia. by rewrite decide_False. }
    assert (leaf_ok L') as HlokL'.
    { destruct HsbfL as (E1 & E2 & E3 & E4 & E5 & E6 & E7).
      destruct Hlok1 as (Hl1 & Hd1 & Hi1 & Hf1). unfold leaf_ok, page_fits, pd_lower, pd_upper in *.
      rewrite E1, E2, E6. subst L. cbn [pd_linp pd_downlinks pd_opaque zs_level].
      rewrite Hd1 in Hf1. done. }
    assert (leaf_ok R) as HlokR.
    { subst R. unfold leaf_ok. cbn [pd_linp pd_downlinks pd_opaque zs_level].
      split; [done|]. split; [done|]. split; [apply Forall_singleton, form_item_ok|].
      pose proof (PageGetFreeSpace_fits initial_root_page (t_size item) Hszpos Hfit) as Hr.
      unfold page_fits, pd_lower, pd_upper in *.
      cbn [pd_linp pd_downlinks initial_root_page length items_bytes foldr] in *.
      unfold sizeof_ItemIdData in *. lia. }
    assert (G <> []) as HG.
    { intros ->. apply app_eq_nil in Hcont1 as [_ Hnil].
      apply items_contents_nil in Hnil; [|apply Hlok1].
      destruct Hlok1 as (_ & Hd1 & _).
      assert (PageGetFreeSpace page1 = PageGetFreeSpace initial_root_page) as Efree.
      { unfold PageGetFreeSpace, pd_lower, pd_upper. by rewrite Hnil, Hd1. }
      rewrite Efree in Hfull. unfold item in Hfull. rewrite form_item_size in Hfull.
      cbn [fst snd] in Hfit. fold state in Hfit. lia. }
    assert (exists lup', length lup' = length up' /\ lspine rel' firstblk 0 lup' /\
              rel_roots rel' !! att = Some (spine_top firstblk lup')) as (lup' & Hlen' & Hlsp' & Hroot3).
    { assert (lspine rel' firstblk 0 lup) as Hl'.
      { eapply lspine_preserved; [exact Hlp_keep|].
        eapply lspine_frame; [|exact Hlsp]. intros c Hc. destruct (Hlup c Hc).
        rewrite Hrel4. by rewrite !decide_False. }
      destruct Hnew as [[Hlen1 Hroots]|[Hlen1 (page & Hp & Hlok')]].
      - exists lup. split; [lia|]. split; [done|]. by rewrite Hroots.
      - exists (lup ++ [spine_top right up']). rewrite length_app. cbn [length].
        split; [lia|]. split.
        + eapply lspine_snoc; [done|done|].
          subst L. cbn [pd_opaque zs_level] in Hlok'. rewrite Hh1.
          replace (spine_top firstblk lup) with (spine_top lastblk up) by congruence.
          done.
        + by rewrite spine_top_snoc. }
    exists rel', ((init ++ [lastblk]) ++ [right]), up', lup'.
    split; [done|]. split.
    + done.
    + split.
      * intros i j a b Hi Hj Hij.
        apply lookup_app_Some in Hj as [Hj|[Hge Hj]].
        { apply lookup_app_Some in Hi as [Hi|[Hge' _]]; [by eapply Hsorted|].
          apply lookup_lt_Some in Hj. lia. }
        apply list_lookup_singleton_Some in Hj as [Hj <-].
        apply lookup_app_Some in Hi as [Hi|[Hge' _]]; [|lia].
        apply list_elem_of_lookup_2 in Hi. by apply Hleaf_up.
      * intros i blk Hi. apply lookup_app_Some in Hi as [Hi|[Hge Hi]].
        { destruct (decide (blk = lastblk)) as [->|Hne].
          - pose proof (leaf_chain_inj _ _ _ _ _ Hchain Hi Hidx) as ->.
            exists L'. split; [done|]. split; [done|].
            destruct HsbfL as (E1 & E2 & E3 & E4 & E5 & E6 & E7). rewrite E3, E4.
            subst L. cbn [pd_opaque zs_lokey zs_next]. split; [done|].
            rewrite lookup_app_r by (rewrite length_app; simpl; lia).
            rewrite length_app. cbn [length].
            replace (S (length init) - (length init + 1))%nat with 0%nat by lia. done.
          - destruct (Hpages _ _ Hi) as (pi & Hpi & Hoki & Hloi & Hnexti).
            exists pi. rewrite Hother by (by eapply list_elem_of_lookup_2 || done).
            split; [done|]. split; [done|]. split; [done|]. rewrite Hnexti.
            assert (i < length init)%nat as Hilt.
            { apply lookup_app_Some in Hi as [Hi|[_ Hi]]; [by eapply lookup_lt_Some|].
              apply list_lookup_singleton_Some in Hi as [_ <-]. done. }
            by rewrite (lookup_app_l (init ++ [lastblk]))
              by (rewrite length_app; simpl; lia). }
        apply list_lookup_singleton_Some in Hi as [Hi <-].
        exists R. split; [done|]. split; [done|]. subst R splittid.
        cbn [pd_opaque zs_lokey zs_next]. rewrite length_app in Hi, Hge. cbn [length] in Hi, Hge.
        split; [f_equal; lia|].
        rewrite lookup_ge_None_2; [done|]. rewrite !length_app. simpl. lia.
    + rewrite tree_contents_app. cbn [tree_contents]. rewrite HR', app_nil_r.
      change (page_contents R) with [item]. f_equal.
      rewrite <- Hcont1, <- (tree_contents_write_last rel init lastblk page1) by done.
      fold rel1. apply tree_contents_frame. intros c Hc.
      destruct (decide (c = lastblk)) as [->|Hne].
      * rewrite HL', Hp1. simpl. unfold page_contents.
        destruct HsbfL as (E1 & _). rewrite E1. done.
      * rewrite Hother by done. subst rel1. rewrite rel_pages_write.
        by rewrite decide_False.
    + intros k x Hk. apply lookup_app_Some in Hk as [Hk|[Hge Hk]]; [by apply Htids|].
      apply list_lookup_singleton_Some in Hk as [Hk <-].
      replace k with (length G) by lia. done.
    + exists right, R. rewrite last_snoc. split; [done|]. split; [done|].
      subst R. cbn [pd_linp pd_opaque zs_lokey]. split; [by intros x [= <-]|].
      split; [done|]. split; [|done]. subst L. cbn [pd_opaque zs_level] in Hsp'. done.
    + exists firstblk. split; [|done].
      destruct init; simpl in *; done.
    + split; [done|]. rewrite !length_app. cbn [length].
      destruct Hnew as [[Hlen1 _]|[Hlen1 _]]; lia.
    + rewrite !length_app. cbn [length].
      rewrite (spine_slack_frame rel rel4 up) in Hslack.
      * rewrite length_app in Hcount. cbn [length] in Hcount. lia.
      * intros c Hc. destruct (Hup c Hc). rewrite Hrel4. by rewrite !decide_False.
    + rewrite !length_app. cbn [length].
      assert (0 < length G)%nat by (destruct G; [done|simpl; lia]). lia.
Qed.


(* ===================================================================== *)
(** * A sequence of insertions *)
(* ===================================================================== *)

(** The tree an attribute starts with: one empty leaf. *)
Lemma tree_inv_initial `{ZSCodec} att :
  tree_inv (zsmeta_get_root_for_attribute empty_relation att true).2 att [] [1] [] [].
Proof.
  unfold zsmeta_get_root_for_attribute, empty_relation. cbn [rel_roots].
  rewrite lookup_empty. cbn [zs_getnewbuf fst snd rel_pages rel_nblocks rel_roots].
  split.
  - split; cbn [rel_nblocks rel_pages]; [lia|]. intros blk page Hp.
    apply lookup_insert_Some in Hp as [[<- _]|[_ Hp]]; [lia|by rewrite lookup_empty in Hp].
  - split.
    + intros i j a b Hi Hj Hij. destruct i, j; simpl in *; try done; lia.
    + intros [|i] blk Hi; [|done]. injection Hi as <-. exists initial_root_page.
      cbn [rel_pages]. rewrite lookup_insert_eq. split; [done|]. split; [|done].
      unfold leaf_ok, page_fits. simpl. repeat split; [constructor|done].
  - cbn [tree_contents rel_pages]. by rewrite lookup_insert_eq.
  - intros k x Hk. done.
  - exists 1, initial_root_page. cbn [rel_pages rel_roots last].
    rewrite !lookup_insert_eq. repeat split; try done.
  - exists 1. cbn [rel_roots]. rewrite lookup_insert_eq. done.
  - simpl. split; [done|lia].
  - simpl. lia.
  - simpl. lia.
Qed.

(** The first insertion creates the tree and goes on as an insertion
    into it. *)
Lemma zsbt_insert_empty `{ZSCodec} fuel att d h :
  zsbt_insert fuel empty_relation att d h
  = zsbt_insert fuel (zsmeta_get_root_for_attribute empty_relation att true).2 att d h.
Proof.
  unfold zsbt_insert. unfold zsmeta_get_root_for_attribute at 1 3. unfold empty_relation.
  cbn [rel_roots]. rewrite lookup_empty.
  cbn [zs_getnewbuf fst snd rel_pages rel_nblocks rel_roots].
  unfold zsmeta_get_root_for_attribute. cbn [rel_roots]. by rewrite lookup_insert_eq.
Qed.

Lemma rows_items_length att k rows : length (rows_items att k rows) = length rows.
Proof. revert k. induction rows as [|r rows IH]; intros k; simpl; [done|]. by rewrite IH. Qed.

(** Inserting rows one after the other into a tree that has only been
    appended to hands out the next TIDs in order and appends the items
    formed for the rows. *)
Lemma insert_all_tree_inv `{ZSCodec} `{!ZSCodecLaws} att rows :
  forall rel G leaves up lup fuel,
  tree_inv rel att G leaves up lup ->
  Forall (row_fits att) rows ->
  Z.of_nat (length G + length rows) < 2 ^ 30 ->
  (length G + length rows + 1 <= fuel)%nat ->
  exists rel' leaves' up' lup',
    insert_all fuel rel att rows = Ok (nth_tid <$> seq (length G) (length rows), rel') /\
    tree_inv rel' att (G ++ rows_items att (length G) rows) leaves' up' lup'.
Proof.
  induction rows as [|[d h] rows IH]; intros rel G leaves up lup fuel Hinv Hfit Hn Hfuel.
  - exists rel, leaves, up, lup. simpl. by rewrite app_nil_r.
  - apply Forall_cons in Hfit as [Hrow Hfit]. cbn [length] in Hn, Hfuel.
    destruct (zsbt_insert_tree_inv rel att G leaves up lup d h fuel Hinv Hrow)
      as (rel1 & leaves1 & up1 & lup1 & Hins & Hinv1); [lia|lia|].
    cbn [insert_all]. rewrite Hins. cbn [bind].
    destruct (IH rel1 _ leaves1 up1 lup1 fuel Hinv1 Hfit)
      as (rel2 & leaves2 & up2 & lup2 & Hall & Hinv2).
    { rewrite length_app. simpl. lia. }
    { rewrite length_app. simpl. lia. }
    rewrite Hall. cbn [bind]. exists rel2, leaves2, up2, lup2.
    rewrite length_app in *. cbn [length] in *.
    replace (length G + 1)%nat with (S (length G)) in * by lia.
    split; [done|]. cbn [rows_items fst snd]. by rewrite <- app_assoc in Hinv2.
Qed.


(* ===================================================================== *)
(** * Scanning a tree that has only been appended to *)
(* ===================================================================== *)

Section ScanItems.
Context `{ZSCodec}.
Variable G : list ZSBtreeItem.
Variable k : nat.
Hypothesis HG : Z.of_nat (length G) < 2 ^ 30.
Hypothesis Hk : (k <= length G)%nat.
Hypothesis Htids : forall (i : nat) x, G !! i = Some x -> t_tid x = nth_tid i.

Lemma tid_compare_index (a : nat) x :
  G !! a = Some x ->
  (ItemPointerCompare (t_tid x) (nth_tid k) >=? 0) = bool_decide (k <= a)%nat.
Proof using HG Hk Htids.
  intros Ha. rewrite (Htids _ _ Ha). apply lookup_lt_Some in Ha.
  apply nth_tid_compare; lia.
Qed.

(** Reading the decompressor until the [k]-th item comes out, when
    it holds a stretch of [G] that starts at or before it. *)
Lemma scan_read_decompressed_spec stream : forall a : nat,
  (forall (i : nat) x, stream !! i = Some x -> G !! (a + i)%nat = Some x) ->
  (a <= k)%nat ->
  match scan_read_decompressed stream (nth_tid k) with
  | Some (x, rest) =>
      G !! k = Some x /\
      forall (i : nat) y, rest !! i = Some y -> G !! (S k + i)%nat = Some y
  | None => (a + length stream <= k)%nat
  end.
Proof using HG Hk Htids.
  induction stream as [|x stream IH]; intros a Hstream Ha; [simpl; lia|].
  cbn [scan_read_decompressed].
  assert (G !! a = Some x) as Hx by (rewrite <- (Nat.add_0_r a); by apply Hstream).
  rewrite (tid_compare_index a x Hx). case_bool_decide as Hka.
  - assert (a = k) as -> by lia. split; [done|].
    intros i y Hi. replace (S k + i)%nat with (k + S i)%nat by lia. by apply Hstream.
  - specialize (IH (S a)). destruct (scan_read_decompressed stream (nth_tid k)) as [[y rest]|].
    + apply IH; [|lia]. intros i z Hi.
      replace (S a + i)%nat with (a + S i)%nat by lia. by apply Hstream.
    + cbn [length]. enough (S a + length stream <= k)%nat by lia.
      apply IH; [|lia]. intros i z Hi.
      replace (S a + i)%nat with (a + S i)%nat by lia. by apply Hstream.
Qed.

(** Walking the items of a leaf whose contents are the stretch of
    [G] from [a] on, with [a] at or before the [k]-th item. *)
Lemma scan_page_items_spec items : forall off (a : nat),
  Forall item_ok items ->
  (forall (i : nat) x, items_contents items !! i = Some x -> G !! (a + i)%nat = Some x) ->
  (a <= k)%nat ->
  match scan_page_items items off (nth_tid k) with
  | HitItem _ x => G !! k = Some x
  | HitCompressed it =>
      exists b : nat,
        (b <= k)%nat /\
        (forall (i : nat) x, zs_decompress_chunk it !! i = Some x ->
           G !! (b + i)%nat = Some x) /\
        (k < b + length (zs_decompress_chunk it))%nat
  | NoHit => (a + length (items_contents items) <= k)%nat
  end.
Proof using HG Hk Htids.
  induction items as [|it items IH]; intros off a Hok Hcont Ha; [simpl; lia|].
  apply Forall_cons in Hok as [[Hsz Hrun] Hok].
  cbn [scan_page_items]. cbn [items_contents] in Hcont.
  assert (forall (i : nat) x, items_contents items !! i = Some x ->
            G !! (a + length (expand it) + i)%nat = Some x) as Hrest.
  { intros i x Hi. rewrite <- Nat.add_assoc. apply Hcont.
    rewrite lookup_app_r by lia. by replace (length (expand it) + i - length (expand it))%nat
      with i by lia. }
  assert (forall (i : nat) x, expand it !! i = Some x -> G !! (a + i)%nat = Some x) as Hhere.
  { intros i x Hi. apply Hcont. by apply lookup_app_l_Some. }
  cbn [items_contents]. rewrite length_app.
  unfold expand in Hrest, Hhere |- *. destruct (item_is_compressed it) eqn:Hcomp.
  - specialize (Hrun eq_refl).
    destruct (zs_decompress_chunk it) as [|y chunk _] eqn:Echunk using rev_ind; [done|].
    rewrite last_snoc in Hrun. injection Hrun as Hlasttid.
    rewrite length_app in *. cbn [length] in *.
    assert (G !! (a + length chunk)%nat = Some y) as Hy
      by (apply Hhere; by rewrite list_lookup_middle).
    rewrite <- Hlasttid, (tid_compare_index _ y Hy). case_bool_decide as Hka.
    + exists a. split; [done|]. rewrite Echunk, length_app. cbn [length]. split; [done|lia].
    + specialize (IH (off + 1) (a + (length chunk + 1))%nat Hok Hrest ltac:(lia)).
      destruct (scan_page_items items (off + 1) (nth_tid k)); [done|done|lia].
  - assert (G !! a = Some it) as Hit by (rewrite <- (Nat.add_0_r a); by apply Hhere).
    rewrite (tid_compare_index a it Hit). case_bool_decide as Hka.
    + by replace k with a by lia.
    + specialize (IH (off + 1) (a + length [it])%nat Hok Hrest ltac:(simpl; lia)).
      cbn [length] in *.
      destruct (scan_page_items items (off + 1) (nth_tid k)); [done|done|lia].
Qed.
End ScanItems.

Lemma st_tid_decode `{ZSMvcc} att snapshot x : st_tid (scan_decode att snapshot x) = t_tid x.
Proof. unfold scan_decode. by destruct (_ =? _). Qed.

Section ScanTree.
Context `{ZSMvcc} `{ZSCodec}.
Variable rel : Relation.
Variable leaves : list Z.
Variable G : list ZSBtreeItem.
Variable att : Z.
Variable snapshot : option Snapshot.
Hypothesis Hchain : leaf_chain rel leaves.
Hypothesis Hcont : tree_contents rel leaves = G.
Hypothesis HG : Z.of_nat (length G) < 2 ^ 30.
Hypothesis Htids : forall (i : nat) x, G !! i = Some x -> t_tid x = nth_tid i.
Hypothesis Hblocks : forall b, b ∈ leaves -> 0 < b < InvalidBlockNumber.

(** The items of the [j]-th leaf are the stretch of [G] after the
    items of the leaves to its left. *)
Lemma leaf_contents_in_tree (j : nat) blk page :
  leaves !! j = Some blk -> rel_pages rel !! blk = Some page ->
  length (tree_contents rel (take (S j) leaves))
  = (length (tree_contents rel (take j leaves)) + length (page_contents page))%nat /\
  forall (i : nat) x, page_contents page !! i = Some x ->
    G !! (length (tree_contents rel (take j leaves)) + i)%nat = Some x.
Proof using Hcont.
  intros Hj Hp. rewrite (take_S_r _ _ _ Hj), tree_contents_app. cbn [tree_contents].
  rewrite Hp, app_nil_r, length_app. split; [done|].
  intros i x Hi. rewrite <- Hcont.
  rewrite <- (take_drop_middle _ _ _ Hj) at 2. rewrite tree_contents_app.
  cbn [tree_contents]. rewrite Hp. rewrite lookup_app_r by lia.
  replace (length (tree_contents rel (take j leaves)) + i
           - length (tree_contents rel (take j leaves)))%nat with i by lia.
  by apply lookup_app_l_Some.
Qed.

(** One call of the loop of [zsbt_scan_next], from the [j]-th leaf
    on, with nothing left in the decompressor for the [k]-th TID: it
    hands out the [k]-th item, or reports the end when there is
    none. *)
Lemma scan_next_loop_walk (m : nat) : forall (j : nat) scan fuel (k : nat),
  (length leaves <= j + m)%nat -> (m + 1 <= fuel)%nat ->
  scan_active scan = true -> scan_attno scan = att -> scan_snapshot scan = snapshot ->
  scan_nexttid scan = nth_tid k ->
  leaves !! j = Some (scan_lastbuf scan) ->
  (length (tree_contents rel (take j leaves)) <= k)%nat -> (k <= length G)%nat ->
  (if scan_has_decompressed scan
   then scan_read_decompressed (scan_decompressor scan) (nth_tid k) else None) = None ->
  exists scan',
    scan_next_loop fuel rel scan = Ok (scan', scan_decode att snapshot <$> G !! k) /\
    ((k < length G)%nat -> scan_inv rel leaves G att snapshot (S k) scan').
Proof using Hchain Hcont HG Htids Hblocks.
  induction m as [|m IH];
    intros j scan fuel k Hm Hfuel Hact Hatt Hsnap Hnext Hj Hleft Hk Hdrain.
  { apply lookup_lt_Some in Hj. lia. }
  destruct fuel as [|fuel]; [lia|]. cbn [scan_next_loop].
  rewrite Hnext, Hdrain. clear Hdrain.
  destruct Hchain as [Hsorted Hpages].
  destruct (Hpages _ _ Hj) as (page & Hp & (Hlevel & Hdl & Hitems & Hfits) & Hlo & Hnx).
  unfold ReadBuffer at 1. rewrite Hp. cbn [bind].
  destruct (leaf_contents_in_tree j _ page Hj Hp) as [Hlen Hhere].
  pose proof (scan_page_items_spec G k HG Hk Htids (pd_linp page) FirstOffsetNumber
                _ Hitems Hhere Hleft) as Hwalk.
  destruct (scan_page_items (pd_linp page) FirstOffsetNumber (nth_tid k))
    as [it|off x|] eqn:Ewalk.
  - (* a compressed run that reaches the TID: decompress and read *)
    destruct Hwalk as (b & Hb & Hchunk & Hkb).
    destruct fuel as [|fuel]; [lia|]. cbn [scan_next_loop].
    cbn [scan_has_decompressed scan_decompressor scan_nexttid scan_attno scan_snapshot
         scan_active scan_lastbuf scan_lastoff].
    pose proof (scan_read_decompressed_spec G k HG Hk Htids _ b Hchunk Hb) as Hread.
    destruct (scan_read_decompressed (zs_decompress_chunk it) (nth_tid k))
      as [[x rest]|]; [|lia].
    destruct Hread as [Hx Hrest]. rewrite Hx, Hatt, Hsnap. cbn [fmap option_fmap option_map].
    eexists. split; [done|]. intros _. unfold scan_inv.
    cbn [scan_has_decompressed scan_decompressor scan_nexttid scan_attno scan_snapshot
         scan_active scan_lastbuf scan_lastoff].
    rewrite st_tid_decode, (Htids _ _ Hx). repeat split; try done.
    + exists j. split; [done|lia].
    + intros _. exists (S k). split; [done|]. exact Hrest.
  - (* an uncompressed item at or after the TID *)
    rewrite Hwalk, Hatt, Hsnap. cbn [fmap option_fmap option_map].
    eexists. split; [done|]. intros _. unfold scan_inv.
    cbn [scan_has_decompressed scan_decompressor scan_nexttid scan_attno scan_snapshot
         scan_active scan_lastbuf scan_lastoff].
    rewrite st_tid_decode, (Htids _ _ Hwalk). repeat split; try done.
    exists j. split; [done|lia].
  - (* nothing on this leaf: walk right *)
    unfold ZSBtreePageGetOpaque. rewrite Hnx.
    pose proof (Hblocks _ (list_elem_of_lookup_2 _ _ _ Hj)) as Hbuf.
    destruct (leaves !! S j) as [nb|] eqn:Enext; cbn [default from_option]; unfold id.
    + pose proof (Hsorted _ _ _ _ Hj Enext ltac:(lia)) as Hlt.
      pose proof (Hblocks _ (list_elem_of_lookup_2 _ _ _ Enext)) as Hnb.
      destruct (Z.eqb_spec nb (scan_lastbuf scan)); [lia|].
      destruct (Z.eqb_spec nb InvalidBlockNumber); [lia|].
      destruct (Hpages _ _ Enext) as (npage & Hnp & _).
      unfold ReadBuffer at 1. rewrite Hnp. cbn [bind].
      unfold page_contents in Hlen. apply (IH (S j)); try done; try lia.
    + destruct (Z.eqb_spec InvalidBlockNumber (scan_lastbuf scan)); [lia|].
      rewrite Z.eqb_refl. apply lookup_ge_None in Enext. unfold page_contents in Hlen.
      rewrite take_ge in Hlen by lia. rewrite Hcont in Hlen.
      rewrite (lookup_ge_None_2 G k) by lia. cbn [fmap option_fmap option_map].
      eexists. split; [done|]. lia.
Qed.

(** [zsbt_scan_next] on a scan that has handed out [k] items hands
    out the [k]-th, or reports the end when there is none. *)
Lemma zsbt_scan_next_inv scan fuel (k : nat) :
  scan_inv rel leaves G att snapshot k scan ->
  (k <= length G)%nat -> (length leaves + 1 <= fuel)%nat ->
  exists scan',
    zsbt_scan_next fuel rel scan = Ok (scan', scan_decode att snapshot <$> G !! k) /\
    ((k < length G)%nat -> scan_inv rel leaves G att snapshot (S k) scan').
Proof using Hchain Hcont HG Htids Hblocks.
  intros (Hact & Hatt & Hsnap & Hnext & (j & Hj & Hleft) & Hstream) Hk Hfuel.
  unfold zsbt_scan_next. rewrite Hact. cbn [negb].
  destruct (scan_has_decompressed scan) eqn:Hdec.
  - destruct (Hstream eq_refl) as (a & Ha & Hs).
    pose proof (scan_read_decompressed_spec G k HG Hk Htids _ a Hs Ha) as Hread.
    destruct (scan_read_decompressed (scan_decompressor scan) (nth_tid k))
      as [[x rest]|] eqn:Eread.
    + destruct Hread as [Hx Hrest].
      destruct fuel as [|fuel]; [lia|]. cbn [scan_next_loop].
      rewrite Hdec, Hnext, Eread, Hx, Hatt, Hsnap. cbn [fmap option_fmap option_map].
      eexists. split; [done|]. intros _. unfold scan_inv.
      cbn [scan_has_decompressed scan_decompressor scan_nexttid scan_attno scan_snapshot
           scan_active scan_lastbuf scan_lastoff].
      rewrite st_tid_decode, (Htids _ _ Hx). repeat split; try done.
      * exists j. split; [done|lia].
      * intros _. exists (S k). split; [done|]. exact Hrest.
    + apply (scan_next_loop_walk (length leaves) j); try done; try lia.
      by rewrite Hdec.
  - apply (scan_next_loop_walk (length leaves) j); try done; try lia.
    by rewrite Hdec.
Qed.

(** Calling [zsbt_scan_next] until it reports the end hands out the
    items that are left, in order. *)
Lemma scan_all_inv fuel (n : nat) : forall (k : nat) scan,
  length G = (k + n)%nat ->
  scan_inv rel leaves G att snapshot k scan ->
  (length leaves + 1 <= fuel)%nat ->
  scan_all (S n) fuel rel scan = Ok (scan_decode att snapshot <$> drop k G).
Proof using Hchain Hcont HG Htids Hblocks.
  induction n as [|n IH]; intros k scan Hlen Hinv Hfuel.
  - destruct (zsbt_scan_next_inv scan fuel k Hinv ltac:(lia) Hfuel) as (scan' & Hrun & _).
    cbn [scan_all]. rewrite Hrun. cbn [bind].
    rewrite (lookup_ge_None_2 G k) by lia. cbn [fmap option_fmap option_map].
    by rewrite drop_ge by lia.
  - destruct (zsbt_scan_next_inv scan fuel k Hinv ltac:(lia) Hfuel) as (scan' & Hrun & Hinv').
    destruct (lookup_lt_is_Some_2 G k ltac:(lia)) as [x Hx].
    change (scan_all (S (S n)) fuel rel scan)
      with (let* '(scan, out) := zsbt_scan_next fuel rel scan in
            match out with
            | None => Ok []
            | Some tuple =>
                let* tuples := scan_all (S n) fuel rel scan in Ok (tuple :: tuples)
            end).
    rewrite Hrun, Hx. cbn [bind fmap option_fmap option_map].
    rewrite (IH (S k) scan') by (try apply Hinv'; lia). cbn [bind].
    by rewrite (drop_S _ _ _ Hx).
Qed.
End ScanTree.


(* ===================================================================== *)
(** * Insert, then scan *)
(* ===================================================================== *)

(** A scan from (0,1) over a tree that has only been appended to hands
    out every item of the tree, in order. *)
Lemma scan_from_tree_inv `{ZSMvcc} `{ZSCodec} rel att G leaves up lup snapshot fuel :
  tree_inv rel att G leaves up lup ->
  Z.of_nat (length G) < 2 ^ 30 ->
  (length G + 2 <= fuel)%nat ->
  scan_from (S (length G)) fuel rel att MinTid snapshot
  = Ok (scan_decode att snapshot <$> G).
Proof.
  intros [Ha Hchain Hcont Htids (lastblk & lastpage & Hlast & Hlp & Hunc & Hempty & Hrsp & Hroot)
            (firstblk & Hhead & Hlsp & Hroot') [Hh1 Hh2] Hcount Hlc] HG Hfuel.
  pose proof (spine_slack_nonneg _ _ _ _ _ Hrsp) as Hslack.
  assert (leaves !! 0%nat = Some firstblk) as Hfirst by (by destruct leaves).
  destruct Hchain as [Hsorted Hpages].
  destruct (Hpages _ _ Hfirst) as (fpage & Hfp & (Hflevel & _) & _).
  assert (forall b page, rel_pages rel !! b = Some page -> 0 < b < InvalidBlockNumber) as Hblk.
  { intros b page Hb. apply (blocks_allocated_lookup _ _ _ Ha) in Hb.
    unfold InvalidBlockNumber. lia. }
  destruct (lspine_top_level _ _ _ _ _ Hlsp Hfp Hflevel) as (top & Htop & _).
  pose proof (Hblk _ _ Htop) as Hrootblk.
  unfold scan_from, zsbt_begin_scan, zsmeta_get_root_for_attribute. rewrite Hroot'.
  destruct (Z.eqb_spec (spine_top firstblk lup) InvalidBlockNumber); [lia|].
  rewrite (zsbt_descend_lspine rel firstblk fpage lup) by (done || lia). cbn [bind].
  rewrite <- (drop_0 G) at 2.
  apply (scan_all_inv rel leaves G att snapshot); try done.
  - intros i x Hi. by apply Htids.
  - intros b Hb. apply list_elem_of_lookup_1 in Hb as [i Hi].
    destruct (Hpages _ _ Hi) as (page & Hp & _). by eapply Hblk.
  - unfold scan_inv, blank_scan. cbn [scan_has_decompressed scan_decompressor scan_nexttid
      scan_attno scan_snapshot scan_active scan_lastbuf scan_lastoff].
    repeat split; try done. exists 0%nat. split; [done|]. simpl. lia.
  - lia.
Qed.

(** Decoding the items formed for the rows gives the datums back, with
    the TIDs in order. *)
Lemma scan_decode_rows_items `{ZSMvcc} att snapshot rows : forall k,
  Forall (row_fits att) rows ->
  st_datum <$> (scan_decode att snapshot <$> rows_items att k rows) = fst <$> rows /\
  st_tid <$> (scan_decode att snapshot <$> rows_items att k rows)
  = nth_tid <$> seq k (length rows).
Proof.
  induction rows as [|[d h] rows IH]; intros k Hfit; [done|].
  apply Forall_cons in Hfit as [[_ Hhdr] Hfit]. destruct (IH (S k) Hfit) as [IH1 IH2].
  cbn [rows_items fmap list_fmap length seq fst snd]. cbn [fmap] in IH1, IH2.
  rewrite IH1, IH2, st_tid_decode. split; [|done]. f_equal.
  unfold scan_decode, form_item. cbn [t_payload attno datum tuple_header st_datum].
  destruct (Z.eqb_spec att 1) as [E|E]; [|done]. cbn [st_datum].
  specialize (Hhdr E). cbn [snd] in Hhdr.
  rewrite drop_app_length'; [done|]. rewrite length_take. lia.
Qed.

(** The TIDs handed out are strictly increasing. *)
Lemma nth_tid_sorted (n : nat) : forall k : nat,
  Z.of_nat (k + n) < 2 ^ 30 ->
  StronglySorted tid_lt (nth_tid <$> seq k n).
Proof.
  induction n as [|n IH]; intros k Hk; [constructor|].
  cbn [seq fmap list_fmap]. constructor; [apply IH; lia|].
  apply Forall_fmap, Forall_forall. intros i Hi. apply elem_of_seq in Hi.
  apply nth_tid_lt; lia.
Qed.

(** C3.  Rows that fit on a page, fewer than 2^30 of them, inserted one
    after the other under one attribute of an empty relation, with a
    codec that keeps its contract: every insertion succeeds, the TIDs
    handed out are the consecutive TIDs from (0,1) on, and a scan
    started at (0,1) afterwards returns exactly the datums inserted, in
    the order they were inserted, each with the TID its insertion
    returned, and then reports the end; the TIDs are strictly
    increasing, so no tuple is returned twice and none is left out.
    The scan hands back every tuple whatever the visibility oracle
    says of it; the verdict travels with the tuple. *)
Theorem insert_then_scan `{ZSMvcc} `{ZSCodec} `{!ZSCodecLaws} att snapshot rows fuel :
  Forall (row_fits att) rows ->
  Z.of_nat (length rows) < 2 ^ 30 ->
  (length rows + 2 <= fuel)%nat ->
  exists tids rel tuples,
    insert_all fuel empty_relation att rows = Ok (tids, rel) /\
    scan_from (S (length rows)) fuel rel att MinTid snapshot = Ok tuples /\
    st_datum <$> tuples = fst <$> rows /\
    st_tid <$> tuples = tids /\
    tids = nth_tid <$> seq 0 (length rows) /\
    StronglySorted tid_lt tids.
Proof.
  intros Hfit Hn Hfuel.
  destruct (scan_decode_rows_items att snapshot rows 0 Hfit) as [Hdatums Htids].
  pose proof (nth_tid_sorted (length rows) 0 ltac:(lia)) as Hsorted.
  destruct rows as [|[d h] rows].
  - exists [], empty_relation, []. repeat split; done.
  - assert (exists rel leaves up lup,
              insert_all fuel empty_relation att ((d, h) :: rows)
              = Ok (nth_tid <$> seq 0 (length ((d, h) :: rows)), rel) /\
              tree_inv rel att (rows_items att 0 ((d, h) :: rows)) leaves up lup)
      as (rel & leaves & up & lup & Hins & Hinv).
    { destruct (insert_all_tree_inv att ((d, h) :: rows) _ [] [1] [] [] fuel
                  (tree_inv_initial att) Hfit)
        as (rel & leaves & up & lup & Hins & Hinv); [simpl in *; lia|simpl in *; lia|].
      exists rel, leaves, up, lup. split; [|exact Hinv].
      cbn [insert_all] in Hins |- *. by rewrite zsbt_insert_empty. }
    eexists _, rel, _. split; [exact Hins|].
    pose proof (scan_from_tree_inv rel att _ leaves up lup snapshot fuel Hinv) as Hscan.
    rewrite rows_items_length in Hscan.
    split; [apply Hscan; lia|]. done.
Qed.

(** The marking codec keeps the laws: the one run it builds is the one
    item it took. *)
Lemma marking_codec_holds c items :
  @compressor_holds marking_codec c items ->
  (c = None /\ items = []) \/
  (exists item, c = Some item /\ items = [item] /\
     t_flags item = 0 /\ t_lasttid item = t_tid item /\ 0 < t_size item).
Proof.
  induction 1 as [c free|c items item c' Hh IH Hadd|c items item c' Hh IH Hadd].
  - left. done.
  - right. simpl in Hadd. destruct IH as [[-> ->]|(it & -> & _)]; [|discriminate].
    destruct (_ && _) eqn:E; [|discriminate]. injection Hadd as <-.
    apply andb_true_iff in E as [E Hsz]. apply andb_true_iff in E as [Hfl Hlast].
    exists item. repeat split; [lia|by apply ItemPointerEquals_eq|lia].
  - simpl in Hadd. destruct IH as [[-> ->]|(it & -> & Hit)].
    + left. split; [|done].
      match type of Hadd with (if ?b then _ else _) = _ => destruct b end; congruence.
    + right. injection Hadd as <-. by exists it.
Qed.

Lemma marking_codec_laws : @ZSCodecLaws marking_codec.
Proof.
  split. intros c items Hholds Hne _.
  destruct (marking_codec_holds c items Hholds) as [[_ ->]|(it & -> & -> & Hfl & Hlast & Hsz)];
    [done|].
  destruct it as [tid size flags lasttid payload]. simpl in *. subst. done.
Qed.

(** Three rows of 4000 bytes, inserted with the marking codec: the
    third insertion compresses the leaf, which still has no room, and
    splits it. *)
Lemma insert_then_scan_witness :
  exists tids rel tuples,
    @insert_all marking_codec 5 empty_relation 2 sample_rows = Ok (tids, rel) /\
    @scan_from all_visible marking_codec 4 5 rel 2 MinTid None = Ok tuples /\
    st_datum <$> tuples = fst <$> sample_rows /\
    st_tid <$> tuples = tids /\
    tids = nth_tid <$> seq 0 3 /\
    StronglySorted tid_lt tids.
Proof.
  apply (@insert_then_scan all_visible marking_codec marking_codec_laws 2 None sample_rows 5).
  - repeat constructor; vm_compute; congruence.
  - vm_compute. reflexivity.
  - simpl. lia.
Defined.


(* ===================================================================== *)
(** * More on the search and the descent *)
(* ===================================================================== *)

(** The loop of the search keeps a boundary between a key at or below
    the search key and a key above it, whatever the array holds. *)
Lemma binsrch_loop_boundary key arr low high n :
  0 <= low <= high -> high <= n ->
  (low = 0 \/ tid_le (tid (arr_get arr (low - 1))) key) ->
  (high = n \/ tid_lt key (tid (arr_get arr high))) ->
  let r := binsrch_loop key arr low high in
  low <= r <= high /\
  (r = 0 \/ tid_le (tid (arr_get arr (r - 1))) key) /\
  (r = n \/ tid_lt key (tid (arr_get arr r))).
Proof.
  funelim (binsrch_loop key arr low high); intros Hlh Hn Hlo Hhi; cbv zeta.
  - clear Heqcall Heq.
    set (mid := low + (high - low) ÷ 2) in *.
    assert (low <= mid < high) as Hmid.
    { pose proof (Z.quot_pos (high - low) 2). pose proof (Z.quot_lt (high - low) 2).
      subst mid. lia. }
    destruct (ItemPointerCompare key (tid (arr_get arr mid)) >=? 0) eqn:Hc.
    + apply tid_compare_ge in Hc.
      destruct (H n) as (? & ? & ?); try lia; try done.
      * right. by replace (mid + 1 - 1) with mid by lia.
      * repeat split; auto; lia.
    + apply tid_compare_ge_false in Hc.
      destruct (H0 n) as (? & ? & ?); try lia; try done.
      * by right.
      * repeat split; auto; lia.
  - repeat split; try lia; [|destruct Hhi as [Hhi|Hhi]]; auto.
    + left. lia.
    + assert (low = high) as -> by lia. by right.
Qed.

Lemma zsbt_binsrch_internal_found key (arr : list ZSBtreeInternalPageItem) :
  let n := Z.of_nat (length arr) in
  let r := zsbt_binsrch_internal key arr n in
  -1 <= r < n /\
  (0 <= r -> tid_le (tid (arr_get arr r)) key) /\
  (r + 1 < n -> tid_lt key (tid (arr_get arr (r + 1)))).
Proof.
  cbv zeta. unfold zsbt_binsrch_internal.
  destruct (binsrch_loop_boundary key arr 0 (Z.of_nat (length arr)) (Z.of_nat (length arr)))
    as (Hr & Hlo & Hhi); try lia.
  set (r := binsrch_loop key arr 0 (Z.of_nat (length arr))) in *.
  split; [lia|]. split.
  - intros Hge. destruct Hlo as [Hlo|Hlo]; [lia|done].
  - intros Hlt. replace (r - 1 + 1) with r by lia. destruct Hhi as [Hhi|Hhi]; [lia|done].
Qed.

(** X1.  [zsbt_binsrch_internal] on any array, sorted or not: the
    index it returns is between -1 and the last index; when it is an
    index, the key there is at or below the search key; and when there
    is a next element, its key is above the search key.  So the
    caller's [items[itemno]] stays inside the array whenever the
    result is not negative. *)
Theorem zsbt_binsrch_internal_boundary key (arr : list ZSBtreeInternalPageItem) :
  let n := Z.of_nat (length arr) in
  let r := zsbt_binsrch_internal key arr n in
  -1 <= r < n /\
  (0 <= r -> tid_le (tid (arr_get arr r)) key) /\
  (r + 1 < n -> tid_lt key (tid (arr_get arr (r + 1)))).
Proof.
  cbv zeta. unfold zsbt_binsrch_internal.
  destruct (binsrch_loop_boundary key arr 0 (Z.of_nat (length arr)) (Z.of_nat (length arr)))
    as (Hr & Hlo & Hhi); try lia.
  set (r := binsrch_loop key arr 0 (Z.of_nat (length arr))) in *.
  split; [lia|]. split.
  - intros Hge. destruct Hlo as [Hlo|Hlo]; [lia|done].
  - intros Hlt. replace (r - 1 + 1) with r by lia. destruct Hhi as [Hhi|Hhi]; [lia|done].
Qed.

(** The loop of [zsbt_descend] hands back leaves only. *)
Lemma descend_loop_returns_leaf fuel : forall rel key next nextlevel buf,
  descend_loop fuel rel key next nextlevel = Ok buf ->
  exists page, rel_pages rel !! buf = Some page /\ zs_level (pd_opaque page) = 0.
Proof.
  induction fuel as [|fuel IH]; intros rel key next nextlevel buf Hrun; [done|].
  cbn [descend_loop] in Hrun.
  apply bind_Ok in Hrun as (page & Hread & Hrun). apply ReadBuffer_Ok in Hread.
  apply bind_Ok in Hrun as (lvl & Hlvl & Hrun). unfold ZSBtreePageGetOpaque in *.
  destruct (Z.eqb_spec (zs_level (pd_opaque page)) 0) as [Hleaf|Hinner].
  - injection Hrun as <-. eauto.
  - destruct (_ >=? _).
    + destruct (_ =? _); [done|]. by eapply IH.
    + destruct (_ <? _); [done|]. by eapply IH.
Qed.

(** X2.  Whatever [zsbt_descend] returns is a leaf: the block holds a
    page, and the page is at level 0.  This holds for every relation,
    key and starting block, also for trees that are not well formed. *)
Theorem zsbt_descend_returns_leaf fuel rel rootblk key buf :
  zsbt_descend fuel rel rootblk key = Ok buf ->
  exists page, rel_pages rel !! buf = Some page /\ zs_level (pd_opaque page) = 0.
Proof. unfold zsbt_descend. apply descend_loop_returns_leaf. Qed.

(** Descending the two-leaf tree for (0,2) ends on the leaf at block 1. *)
Lemma zsbt_descend_returns_leaf_witness :
  zsbt_descend 2 two_leaf_relation 3 (ItemPointerSet 0 2) = Ok 1 /\
  exists page, rel_pages two_leaf_relation !! 1 = Some page /\ zs_level (pd_opaque page) = 0.
Proof.
  assert (zsbt_descend 2 two_leaf_relation 3 (ItemPointerSet 0 2) = Ok 1) as Hrun
    by (vm_compute; reflexivity).
  split; [exact Hrun|]. exact (zsbt_descend_returns_leaf _ _ _ _ _ Hrun).
Defined.

(** The search on the two downlinks of a new root. *)
Lemma binsrch_two key key1 blk1 key2 blk2 :
  tid_lt key1 key2 ->
  zsbt_binsrch_internal key [MkInternalItem key1 blk1; MkInternalItem key2 blk2] 2
  = if decide (tid_lt key key1) then -1 else if decide (tid_lt key key2) then 0 else 1.
Proof.
  intros H12.
  set (arr := [MkInternalItem key1 blk1; MkInternalItem key2 blk2]).
  assert (arr_get arr 0 = MkInternalItem key1 blk1) as H0 by done.
  assert (arr_get arr 1 = MkInternalItem key2 blk2) as H1 by done.
  change 2 with (Z.of_nat (length arr)).
  destruct (decide (tid_lt key key1)) as [Hk1|Hk1];
    [|destruct (decide (tid_lt key key2)) as [Hk2|Hk2]];
    apply binsrch_internal_partition; cbn [length arr]; try lia; intros i Hi.
  - assert (i = 0 \/ i = 1) as [-> | ->] by lia; rewrite ?H0, ?H1; cbn [tid]; [done|].
    by eapply tid_lt_trans.
  - assert (i = 0) as -> by lia. rewrite H0. cbn [tid]. by apply tid_le_not_lt.
  - assert (i = 1) as -> by lia. rewrite H1. done.
  - assert (i = 0 \/ i = 1) as [-> | ->] by lia; rewrite ?H0, ?H1; cbn [tid].
    + apply tid_le_trans with key2; [by apply tid_lt_le|by apply tid_le_not_lt].
    + by apply tid_le_not_lt.
Qed.

(** X3.  Growing the tree and then descending it: [zsbt_newroot]
    returns, records the block it allocated as the root, and a descent
    from that root goes on in the first child for a key below the
    second downlink's key and in the second child otherwise.  A key
    below the first downlink's key is refused, and so is a key at or
    above the root's high key (MaxBlockNumber, 0xFFFF), for which the
    descent falls off the end. *)
Theorem zsbt_descend_through_new_root rel attno level key1 blk1 key2 blk2 left leftpage
    key fuel :
  blocks_allocated rel ->
  rel_pages rel !! left = Some leftpage ->
  0 < level -> tid_lt key1 key2 ->
  exists rel',
    zsbt_newroot rel attno level key1 blk1 key2 blk2 left = Ok rel' /\
    rel_roots rel' !! attno = Some (rel_nblocks rel) /\
    zsbt_descend (S fuel) rel' (rel_nblocks rel) key
    = if decide (tid_le MaxTid key) then Err "fell off the end of btree"
      else if decide (tid_lt key key1) then Err "could not descend tree for tid"
      else descend_loop fuel rel' key
             (if decide (tid_lt key key2) then blk1 else blk2) (level - 1).
Proof.
  intros Ha Hleft Hlevel H12.
  pose proof (blocks_allocated_lookup _ _ _ Ha Hleft) as Hlb.
  unfold zsbt_newroot, zs_getnewbuf. cbn [fst snd].
  unfold ReadBuffer. cbn [rel_pages]. rewrite Hleft. cbn [bind].
  eexists. split; [reflexivity|].
  unfold zsmeta_update_root_for_attribute. cbn [rel_roots rel_pages rel_nblocks write_page].
  split; [by rewrite lookup_insert_eq|].
  unfold zsbt_descend. cbn [descend_loop]. unfold ReadBuffer. cbn [rel_pages].
  rewrite lookup_insert_ne by lia. rewrite lookup_insert_eq. cbn [bind].
  unfold ZSBtreePageGetOpaque, check_level, ZSBtreeInternalPageGetItems,
    ZSBtreeInternalPageGetNumItems.
  cbn [pd_opaque pd_downlinks zs_level zs_hikey zs_next length]. cbn [Z.eqb bind].
  destruct (Z.eqb_spec level 0); [lia|].
  change (ItemPointerSet MaxBlockNumber 65535) with MaxTid.
  destruct (decide (tid_le MaxTid key)) as [Hmax|Hmax].
  - apply tid_compare_ge in Hmax. rewrite Hmax. done.
  - destruct (ItemPointerCompare key MaxTid >=? 0) eqn:Hc;
      [by apply tid_compare_ge in Hc|].
    change (Z.of_nat 2) with 2. rewrite (binsrch_two key key1 blk1 key2 blk2 H12).
    cbn [Pos.eqb bind].
    destruct (decide (tid_lt key key1)); [done|].
    destruct (decide (tid_lt key key2)); done.
Qed.

Lemma two_leaf_relation_allocated : blocks_allocated two_leaf_relation.
Proof.
  split; [vm_compute; reflexivity|]. intros blk page Hp.
  unfold two_leaf_relation in *. cbn [rel_pages rel_nblocks] in *.
  apply lookup_insert_Some in Hp as [[<- _]|[_ Hp]]; [lia|].
  apply lookup_insert_Some in Hp as [[<- _]|[_ Hp]]; [lia|].
  apply lookup_singleton_Some in Hp as [<- _]. lia.
Qed.

(** Growing the two-leaf tree by a root over its root. *)
Lemma zsbt_descend_through_new_root_witness :
  exists rel',
    zsbt_newroot two_leaf_relation 2 2 MinTid 3 (ItemPointerSet 5 1) 7 3 = Ok rel' /\
    rel_roots rel' !! 2 = Some 4 /\
    zsbt_descend 3 rel' 4 (ItemPointerSet 0 2) = descend_loop 2 rel' (ItemPointerSet 0 2) 3 1.
Proof.
  destruct (zsbt_descend_through_new_root two_leaf_relation 2 2 MinTid 3 (ItemPointerSet 5 1)
              7 3 two_leaf_root (ItemPointerSet 0 2) 2)
    as (rel' & Hnew & Hroot & Hdesc).
  - exact two_leaf_relation_allocated.
  - vm_compute. reflexivity.
  - lia.
  - vm_compute. reflexivity.
  - change (rel_nblocks two_leaf_relation) with 4 in Hroot, Hdesc.
    exists rel'. split; [exact Hnew|]. split; [exact Hroot|].
    rewrite Hdesc. rewrite decide_False by (vm_compute; congruence).
    rewrite decide_False by (vm_compute; congruence).
    rewrite decide_True by (vm_compute; reflexivity). done.
Defined.

(** What the loop of [zsbt_find_downlink] hands back. *)
Lemma find_downlink_loop_sound fuel : forall rel key cblk level next nextlevel buf itemno,
  find_downlink_loop fuel rel key cblk level next nextlevel = Ok (buf, itemno) ->
  exists page,
    rel_pages rel !! buf = Some page /\
    zs_level (pd_opaque page) = level + 1 /\
    tid_lt key (zs_hikey (pd_opaque page)) /\
    itemno = zsbt_binsrch_internal key (pd_downlinks page)
               (Z.of_nat (length (pd_downlinks page))) /\
    0 <= itemno < Z.of_nat (length (pd_downlinks page)) /\
    childblk (arr_get (pd_downlinks page) itemno) = cblk /\
    tid_le (tid (arr_get (pd_downlinks page) itemno)) key.
Proof.
  induction fuel as [|fuel IH]; intros rel key cblk level next nextlevel buf itemno Hrun;
    [done|].
  cbn [find_downlink_loop] in Hrun.
  apply bind_Ok in Hrun as (page & Hread & Hrun). apply ReadBuffer_Ok in Hread.
  apply bind_Ok in Hrun as (lvl & Hlvl & Hrun).
  unfold ZSBtreePageGetOpaque, ZSBtreeInternalPageGetItems, ZSBtreeInternalPageGetNumItems in *.
  destruct (_ <=? _); [done|].
  destruct (ItemPointerCompare key (zs_hikey (pd_opaque page)) >=? 0) eqn:Hhi.
  - destruct (_ =? _); [done|]. by eapply IH.
  - apply tid_compare_ge_false in Hhi.
    pose proof (zsbt_binsrch_internal_found key (pd_downlinks page)) as Hsearch.
    cbv zeta in Hsearch.
    set (r := zsbt_binsrch_internal key (pd_downlinks page)
                (Z.of_nat (length (pd_downlinks page)))) in *.
    destruct (Z.ltb_spec r 0) as [|Hr]; [done|].
    destruct (Z.eqb_spec (zs_level (pd_opaque page)) (level + 1)) as [Hlevel|_];
      [|by eapply IH].
    destruct (Z.eqb_spec (childblk (arr_get (pd_downlinks page) r)) cblk) as [Hchild|_];
      [|done].
    cbn [negb] in Hrun. injection Hrun as <- <-. exists page.
    destruct Hsearch as (Hrange & Hle & _). repeat split; try done; try lia. by apply Hle.
Qed.

Lemma get_root_for_update rel attno :
  rel_roots (zsmeta_get_root_for_attribute rel attno true).2 !! attno
  = Some (zsmeta_get_root_for_attribute rel attno true).1.
Proof.
  unfold zsmeta_get_root_for_attribute. destruct (rel_roots rel !! attno) eqn:E; [done|].
  cbn [zs_getnewbuf fst snd rel_roots]. by rewrite lookup_insert_eq.
Qed.

(** X4.  What [zsbt_find_downlink] returns, for every relation: either
    the child is the attribute's root and the result is
    [InvalidBuffer], or the result is a page one level above the
    child, whose high key is above the search key, together with the
    position the search gives for the key on that page; the downlink
    at that position points to the child and its key is at or below
    the search key. *)
Theorem zsbt_find_downlink_sound fuel rel attno key childblkno level buf itemno rel' :
  zsbt_find_downlink fuel rel attno key childblkno level = Ok (buf, itemno, rel') ->
  rel' = (zsmeta_get_root_for_attribute rel attno true).2 /\
  ((rel_roots rel' !! attno = Some childblkno /\ buf = InvalidBuffer /\ itemno = 0) \/
   exists page,
     rel_pages rel' !! buf = Some page /\
     zs_level (pd_opaque page) = level + 1 /\
     tid_lt key (zs_hikey (pd_opaque page)) /\
     itemno = zsbt_binsrch_internal key (pd_downlinks page)
                (Z.of_nat (length (pd_downlinks page))) /\
     0 <= itemno < Z.of_nat (length (pd_downlinks page)) /\
     childblk (arr_get (pd_downlinks page) itemno) = childblkno /\
     tid_le (tid (arr_get (pd_downlinks page) itemno)) key).
Proof.
  unfold zsbt_find_downlink. intros Hrun.
  pose proof (get_root_for_update rel attno) as Hroot.
  destruct (zsmeta_get_root_for_attribute rel attno true) as [rootblk rel2].
  cbn [fst snd] in *.
  destruct (Z.eqb_spec rootblk childblkno) as [->|Hne].
  - injection Hrun as <- <- <-. split; [done|]. by left.
  - apply bind_Ok in Hrun as ([b i] & Hloop & Hrun). injection Hrun as <- <- <-.
    split; [done|]. right. by eapply find_downlink_loop_sound.
Qed.

(** Re-finding the parent of the right leaf of the two-leaf tree. *)
Lemma zsbt_find_downlink_sound_witness :
  zsbt_find_downlink 1 two_leaf_relation 2 (ItemPointerSet 1 1) 2 0
  = Ok (3, 1, two_leaf_relation) /\
  exists page,
    rel_pages two_leaf_relation !! 3 = Some page /\
    zs_level (pd_opaque page) = 1 /\
    childblk (arr_get (pd_downlinks page) 1) = 2.
Proof.
  assert (zsbt_find_downlink 1 two_leaf_relation 2 (ItemPointerSet 1 1) 2 0
          = Ok (3, 1, two_leaf_relation)) as Hrun by (vm_compute; reflexivity).
  split; [exact Hrun|].
  destruct (zsbt_find_downlink_sound _ _ _ _ _ _ _ _ _ Hrun) as [_ [(_ & Hbad & _)|Hpage]].
  - discriminate Hbad.
  - destruct Hpage as (page & Hp & Hlevel & _ & _ & _ & Hchild & _).
    exists page. done.
Defined.


(* ===================================================================== *)
(** * More on downlinks and the internal split *)
(* ===================================================================== *)

(** X5.  [zsbt_insert_downlink] refuses a left page whose downlink is
    the first on its parent: the position the search gives for the
    right page's key is then 0, and the sanity check [itemno < 1]
    raises "could not find downlink".  So a page that is the first
    child of its parent cannot be given a right sibling. *)
Theorem zsbt_insert_downlink_first_child_refused rel attno left leftpage pblk parent rest
    right rightlokey fuel :
  rel_roots rel !! attno = Some pblk -> pblk <> left -> 0 <= pblk ->
  rel_pages rel !! left = Some leftpage ->
  rel_pages rel !! pblk = Some parent ->
  zs_level (pd_opaque parent) = zs_level (pd_opaque leftpage) + 1 ->
  tid_lt (zs_lokey (pd_opaque leftpage)) (zs_hikey (pd_opaque parent)) ->
  pd_downlinks parent = MkInternalItem (zs_lokey (pd_opaque leftpage)) left :: rest ->
  tid_le (zs_lokey (pd_opaque leftpage)) rightlokey ->
  (forall x, x ∈ rest -> tid_lt rightlokey (tid x)) ->
  zsbt_insert_downlink (S fuel) rel attno left rightlokey right
  = Err "could not find downlink".
Proof.
  intros Hroot Hne Hpos Hleft Hparent Hlevel Hhi Harr Hle Hrest.
  assert (forall key, tid_le (zs_lokey (pd_opaque leftpage)) key ->
            (forall x, x ∈ rest -> tid_lt key (tid x)) ->
            zsbt_binsrch_internal key (pd_downlinks parent)
              (Z.of_nat (length (pd_downlinks parent))) = 0) as Hsearch.
  { intros key H1 H2. apply binsrch_internal_partition.
    - rewrite Harr. cbn [length]. lia.
    - intros i Hi. assert (i = 0) as -> by lia. by rewrite Harr.
    - intros i Hi. apply H2. rewrite Harr.
      assert (pd_downlinks parent !! Z.to_nat i = Some (arr_get (pd_downlinks parent) i))
        as Hget by (apply arr_get_in_range; lia).
      rewrite Harr in Hget. destruct (Z.to_nat i) as [|k] eqn:E; [lia|].
      by eapply list_elem_of_lookup_2. }
  assert (arr_get (pd_downlinks parent) 0
          = MkInternalItem (zs_lokey (pd_opaque leftpage)) left) as Hfirst by (by rewrite Harr).
  cbn [zsbt_insert_downlink]. unfold ReadBuffer at 1. rewrite Hleft. cbn [bind].
  unfold ZSBtreePageGetOpaque, zsbt_find_downlink, zsmeta_get_root_for_attribute.
  rewrite Hroot. destruct (Z.eqb_spec pblk left); [done|].
  cbn [find_downlink_loop]. unfold ReadBuffer at 1. rewrite Hparent. cbn [bind].
  unfold ZSBtreePageGetOpaque, check_level, ZSBtreeInternalPageGetItems,
    ZSBtreeInternalPageGetNumItems. cbn [Z.eqb Pos.eqb bind].
  destruct (Z.leb_spec (zs_level (pd_opaque parent)) (zs_level (pd_opaque leftpage)));
    [lia|].
  apply tid_compare_ge_false in Hhi. rewrite Hhi.
  rewrite (Hsearch _ (tid_le_refl _)); cycle 1.
  { intros x Hx. eapply tid_le_lt_trans; [exact Hle|by apply Hrest]. }
  cbn [Z.ltb Z.compare]. rewrite Hlevel, Z.eqb_refl, Hfirst. cbn [childblk].
  rewrite Z.eqb_refl. cbn [negb bind].
  destruct (Z.eqb_spec pblk InvalidBuffer) as [Hbad|_]; [unfold InvalidBuffer in Hbad; lia|].
  unfold ReadBuffer. rewrite Hparent. cbn [bind].
  by rewrite (Hsearch _ Hle Hrest).
Qed.

(** The left leaf of the two-leaf tree is the first child of the root:
    a downlink for a right sibling of it, with a key between the two
    leaves', is refused. *)
Lemma zsbt_insert_downlink_first_child_refused_witness :
  zsbt_insert_downlink 1 two_leaf_relation 2 1 (ItemPointerSet 0 500) 9
  = Err "could not find downlink".
Proof.
  apply (zsbt_insert_downlink_first_child_refused two_leaf_relation 2 1
           (MkPage (pd_linp full_leaf) []
              (MkOpaque 2 MinTid (ItemPointerSet 1 1) 0 0 ZS_BTREE_PAGE_ID))
           3 two_leaf_root [MkInternalItem (ItemPointerSet 1 1) 2]);
    try (vm_compute; done).
  intros x Hx. apply list_elem_of_singleton in Hx as ->. vm_compute. reflexivity.
Defined.

(** X6.  [zsbt_insert_downlink] on the last page of the right spine,
    when the parent has room: the call returns, the downlink for the
    right page goes after the last downlink of the parent, the
    follow-right flag of the left page is cleared and nothing else of
    it changes, no block is allocated, the roots stay, and every other
    page is left alone. *)
Theorem zsbt_insert_downlink_appends rel attno left leftpage b up parent right rightkey
    fuel :
  blocks_allocated rel ->
  rel_pages rel !! left = Some leftpage ->
  0 <= zs_level (pd_opaque leftpage) ->
  rspine rel left (zs_lokey (pd_opaque leftpage)) (zs_level (pd_opaque leftpage)) (b :: up) ->
  rel_roots rel !! attno = Some (spine_top left (b :: up)) ->
  rel_pages rel !! b = Some parent ->
  ZSBtreeInternalPageIsFull parent = false ->
  tid_lt (zs_lokey (pd_opaque leftpage)) rightkey -> tid_le rightkey rightmostkey ->
  (length up < fuel)%nat ->
  exists rel' leftpage' parent',
    zsbt_insert_downlink (S fuel) rel attno left rightkey right = Ok rel' /\
    rel_pages rel' !! left = Some leftpage' /\
    same_but_flags leftpage leftpage' /\
    Z.land (zs_flags (pd_opaque leftpage')) ZS_FOLLOW_RIGHT = 0 /\
    rel_pages rel' !! b = Some parent' /\
    pd_downlinks parent' = pd_downlinks parent ++ [MkInternalItem rightkey right] /\
    pd_opaque parent' = pd_opaque parent /\
    rel_nblocks rel' = rel_nblocks rel /\
    rel_roots rel' = rel_roots rel /\
    forall blk, blk <> left -> blk <> b -> rel_pages rel' !! blk = rel_pages rel !! blk.
Proof.
  intros Ha Hleft Hlevel Hsp Hroot Hparent Hfull Hlt Hle Hfuel.
  rewrite (zsbt_insert_downlink_unfold rel attno left leftpage (b :: up) right rightkey fuel)
    by (try done; simpl; lia).
  rewrite Hparent, Hfull.
  assert (left <> b) as Hne.
  { destruct Hsp as (page & Hp & (Hlv & _) & _). intros ->.
    rewrite Hleft in Hp. injection Hp as ->. lia. }
  eexists _, _, _. split; [reflexivity|].
  rewrite !rel_pages_write. rewrite decide_False by done. rewrite !decide_True by done.
  split; [done|]. split; [apply same_but_flags_set_flags|].
  split; [apply clear_follow_right_clears|]. split; [done|]. split; [done|].
  split; [done|]. split; [done|]. split; [done|].
  intros blk Hb1 Hb2. rewrite !rel_pages_write. by rewrite !decide_False.
Qed.

Lemma two_leaf_relation_spine :
  rspine two_leaf_relation 2 (ItemPointerSet 1 1) 0 [3].
Proof.
  exists two_leaf_root. split; [vm_compute; reflexivity|]. split; [|reflexivity].
  unfold rpage_ok, two_leaf_root. cbn [pd_opaque pd_linp pd_downlinks zs_level zs_hikey
    zs_lokey]. repeat split; try done; try (simpl; lia).
  intros i j x y Hi Hj Hij.
  destruct i as [|[|i]], j as [|[|j]]; simpl in Hi, Hj; try done; try lia.
  injection Hi as <-. injection Hj as <-. vm_compute. reflexivity.
Qed.

(** The downlink for a right sibling of the right leaf of the two-leaf
    tree goes after the two downlinks of the root. *)
Lemma zsbt_insert_downlink_appends_witness :
  exists rel' parent',
    zsbt_insert_downlink 2 two_leaf_relation 2 2 (ItemPointerSet 2 1) 4 = Ok rel' /\
    rel_pages rel' !! 3 = Some parent' /\
    pd_downlinks parent'
    = [MkInternalItem MinTid 1; MkInternalItem (ItemPointerSet 1 1) 2;
       MkInternalItem (ItemPointerSet 2 1) 4].
Proof.
  destruct (zsbt_insert_downlink_appends two_leaf_relation 2 2
              (MkPage [sample_item 3 big_datum] []
                 (MkOpaque InvalidBlockNumber (ItemPointerSet 1 1) MaxTid 0 0 ZS_BTREE_PAGE_ID))
              3 [] two_leaf_root 4 (ItemPointerSet 2 1) 1)
    as (rel' & leftpage' & parent' & Hrun & _ & _ & _ & Hp & Hdl & _).
  - exact two_leaf_relation_allocated.
  - vm_compute. reflexivity.
  - simpl. lia.
  - exact two_leaf_relation_spine.
  - vm_compute. reflexivity.
  - vm_compute. reflexivity.
  - vm_compute. reflexivity.
  - vm_compute. reflexivity.
  - vm_compute. congruence.
  - simpl. lia.
  - exists rel', parent'. split; [exact Hrun|]. split; [exact Hp|]. exact Hdl.
Defined.

Lemma lor_follow_right_sets flags :
  Z.land (Z.lor flags ZS_FOLLOW_RIGHT) ZS_FOLLOW_RIGHT = ZS_FOLLOW_RIGHT.
Proof.
  apply Z.bits_inj'. intros k Hk. rewrite Z.land_spec, Z.lor_spec.
  destruct (Z.testbit ZS_FOLLOW_RIGHT k), (Z.testbit flags k); done.
Qed.

(** X7.  [zsbt_split_internal] keeps the key ranges of the two halves
    when the downlinks are in strictly increasing order and the new
    downlink goes where the search puts it: the left half's new high
    key and the right half's low key are the split TID, every
    downlink left on the left page has a key below it, every downlink
    on the right page a key at or above it.  The left page keeps its
    low key, links to the right page and is flagged follow-right; the
    right page takes over the old high key and right-link. *)
Theorem zsbt_split_internal_key_ranges origpage rightblkno newkey childblkno :
  let origitems := ZSBtreeInternalPageGetItems origpage in
  let n := ZSBtreeInternalPageGetNumItems origpage in
  let newoff := zsbt_binsrch_internal newkey origitems n + 1 in
  items_strictly_sorted origitems -> 0 < n ->
  exists leftpage rightpage splittid,
    split_internal_pages origpage rightblkno newoff newkey childblkno
    = (leftpage, rightpage, splittid) /\
    zs_hikey (pd_opaque leftpage) = splittid /\
    zs_lokey (pd_opaque rightpage) = splittid /\
    zs_lokey (pd_opaque leftpage) = zs_lokey (pd_opaque origpage) /\
    zs_hikey (pd_opaque rightpage) = zs_hikey (pd_opaque origpage) /\
    zs_next (pd_opaque leftpage) = rightblkno /\
    zs_next (pd_opaque rightpage) = zs_next (pd_opaque origpage) /\
    zs_level (pd_opaque leftpage) = zs_level (pd_opaque origpage) /\
    zs_level (pd_opaque rightpage) = zs_level (pd_opaque origpage) /\
    Z.land (zs_flags (pd_opaque leftpage)) ZS_FOLLOW_RIGHT = ZS_FOLLOW_RIGHT /\
    (forall x, x ∈ pd_downlinks leftpage -> tid_lt (tid x) splittid) /\
    (forall x, x ∈ pd_downlinks rightpage -> tid_le splittid (tid x)).
Proof.
  intros origitems n newoff Hstrict Hn. subst origitems n newoff.
  unfold ZSBtreeInternalPageGetItems, ZSBtreeInternalPageGetNumItems in *.
  set (origitems := pd_downlinks origpage) in *.
  pose proof (items_strictly_sorted_sorted _ Hstrict) as Hsorted.
  unfold split_internal_pages. cbv zeta.
  unfold ZSBtreePageGetOpaque, PageGetTempPageCopySpecial, ZSBtreeInternalPageGetItems,
    ZSBtreeInternalPageGetNumItems. cbn [pd_opaque]. fold origitems.
  pose proof (split_internal_copy_sorted origitems newkey childblkno) as Hcopy.
  cbv zeta in Hcopy. rewrite (Hcopy Hsorted Hn). clear Hcopy.
  pose proof (split_internal_point_range _ Hn) as Hsp.
  set (sp := split_internal_point (Z.of_nat (length origitems))) in *.
  set (splittid := tid (arr_get origitems sp)).
  assert (origitems !! Z.to_nat sp = Some (arr_get origitems sp)) as Hget
    by (apply arr_get_in_range; lia).
  assert (forall x, x ∈ take (Z.to_nat sp) origitems -> tid_lt (tid x) splittid) as Hleft.
  { intros x Hx. apply list_elem_of_lookup_1 in Hx as [i Hi].
    apply lookup_take_Some in Hi as [Hi Hlt]. by apply (Hstrict i (Z.to_nat sp)). }
  assert (forall x, x ∈ drop (Z.to_nat sp) origitems -> tid_le splittid (tid x)) as Hright.
  { intros x Hx. apply list_elem_of_lookup_1 in Hx as [i Hi]. rewrite lookup_drop in Hi.
    destruct i as [|i].
    - rewrite Nat.add_0_r, Hget in Hi. injection Hi as <-. apply tid_le_refl.
    - apply tid_lt_le. apply (Hstrict (Z.to_nat sp) (Z.to_nat sp + S i)%nat); auto. lia. }
  assert (forall (k : nat) (new : ZSBtreeInternalPageItem) l x,
            x ∈ insert_at k new l -> x = new \/ x ∈ l) as Hins.
  { intros k new l x. unfold insert_at. rewrite elem_of_app, elem_of_cons.
    intros [Hx|[->|Hx]]; [right|by left|right].
    - apply list_elem_of_lookup_1 in Hx as [i Hi]. apply lookup_take_Some in Hi as [Hi _].
      by eapply list_elem_of_lookup_2.
    - apply list_elem_of_lookup_1 in Hx as [i Hi]. rewrite lookup_drop in Hi.
      by eapply list_elem_of_lookup_2. }
  destruct (decide (tid_lt newkey splittid)) as [Hlt|Hge];
    eexists _, _, splittid; (split; [reflexivity|]);
    cbn [pd_opaque pd_downlinks zs_hikey zs_lokey zs_next zs_level zs_flags];
    do 8 (split; [done|]); (split; [apply lor_follow_right_sets|]); split; try done.
  - intros x Hx. apply Hins in Hx as [->|Hx]; [done|by apply Hleft].
  - intros x Hx. apply Hins in Hx as [->|Hx]; [|by apply Hright].
    cbn [tid]. by apply tid_le_not_lt.
Qed.

Lemma sample_internal_page_strictly_sorted :
  items_strictly_sorted (pd_downlinks sample_internal_page).
Proof.
  apply items_strictly_sorted_iff. unfold sample_internal_page. cbn [pd_downlinks map].
  repeat (constructor; [|repeat (constructor; [vm_compute; reflexivity|]); constructor]).
  constructor.
Qed.

(** Splitting the page with ten downlinks for an eleventh: the split
    TID is (9,1), the key of the tenth. *)
Lemma zsbt_split_internal_key_ranges_witness :
  exists leftpage rightpage,
    split_internal_pages sample_internal_page 12 10 (ItemPointerSet 10 1) 11
    = (leftpage, rightpage, ItemPointerSet 9 1) /\
    zs_hikey (pd_opaque leftpage) = ItemPointerSet 9 1 /\
    (forall x, x ∈ pd_downlinks leftpage -> tid_lt (tid x) (ItemPointerSet 9 1)).
Proof.
  destruct (zsbt_split_internal_key_ranges sample_internal_page 12 (ItemPointerSet 10 1) 11
              sample_internal_page_strictly_sorted ltac:(vm_compute; reflexivity))
    as (leftpage & rightpage & splittid & Hsplit & Hhi & _ & _ & _ & _ & _ & _ & _ & _ & Hl & _).
  assert (zsbt_binsrch_internal (ItemPointerSet 10 1)
            (ZSBtreeInternalPageGetItems sample_internal_page)
            (ZSBtreeInternalPageGetNumItems sample_internal_page) + 1 = 10) as Hoff
    by (vm_compute; reflexivity).
  rewrite Hoff in Hsplit.
  assert (splittid = ItemPointerSet 9 1) as ->.
  { apply (f_equal snd) in Hsplit. vm_compute in Hsplit. congruence. }
  exists leftpage, rightpage. done.
Defined.


(* ===================================================================== *)
(** * More on leaf compression and leaf insertion *)
(* ===================================================================== *)

(** X8.  Compression is transparent: under the codec contract
    [zsbt_compress_leaf] on a leaf never fails, and the page it leaves
    in the buffer stands for exactly the same uncompressed items, in
    the same order, under the same trailer; it is again a leaf whose
    items fit.  No other page, no root and no block count changes, and
    a false return leaves the relation as it was. *)
Theorem zsbt_compress_leaf_keeps_contents `{ZSCodec} `{!ZSCodecLaws} rel buf origpage :
  rel_pages rel !! buf = Some origpage ->
  leaf_ok origpage ->
  exists success rel' page',
    zsbt_compress_leaf rel buf = Ok (success, rel') /\
    rel_pages rel' !! buf = Some page' /\
    page_contents page' = page_contents origpage /\
    pd_opaque page' = pd_opaque origpage /\
    leaf_ok page' /\
    (success = false -> rel' = rel) /\
    rel_nblocks rel' = rel_nblocks rel /\
    rel_roots rel' = rel_roots rel /\
    forall blk, blk <> buf -> rel_pages rel' !! blk = rel_pages rel !! blk.
Proof.
  intros Hp Hok.
  destruct (zsbt_compress_leaf_contents rel buf origpage Hp Hok)
    as (success & rel' & Hrun & Hcases).
  pose proof (zsbt_compress_leaf_effect _ _ _ _ Hrun) as (orig' & Hp' & Heff).
  assert (success = false -> rel' = rel) as Hfalse by (by intros ->).
  destruct Hcases as [->|(page1 & -> & Hop & Hc & Hok1)].
  - exists success, rel, origpage. done.
  - exists success, (write_page rel buf page1), page1.
    rewrite rel_pages_write, decide_True by done.
    do 8 (split; [done|]).
    intros blk Hne. rewrite rel_pages_write. by rewrite decide_False.
Qed.

Lemma full_leaf_ok `{ZSCodec} : leaf_ok full_leaf.
Proof.
  split; [done|]. split; [done|]. split.
  - repeat constructor; try (vm_compute; reflexivity); intros Hc; vm_compute in Hc; done.
  - vm_compute. congruence.
Qed.

(** Compressing the full leaf with the marking codec. *)
Lemma zsbt_compress_leaf_keeps_contents_witness :
  exists success rel' page',
    @zsbt_compress_leaf marking_codec full_relation 1 = Ok (success, rel') /\
    rel_pages rel' !! 1 = Some page' /\
    @page_contents marking_codec page' = @page_contents marking_codec full_leaf.
Proof.
  destruct (@zsbt_compress_leaf_keeps_contents marking_codec marking_codec_laws
              full_relation 1 full_leaf ltac:(vm_compute; reflexivity) full_leaf_ok)
    as (success & rel' & page' & Hrun & Hp & Hc & _).
  exists success, rel', page'. done.
Defined.

(** X9.  [zsbt_insert_to_leaf] on a page with room for the item: the
    call returns the TID after the last item's, or the page's low key
    when the page is empty; the item goes at the end of the page; the
    leaf is neither compressed nor split, and nothing else in the
    relation changes. *)
Theorem zsbt_insert_to_leaf_with_room `{ZSCodec} fuel rel buf state page :
  rel_pages rel !! buf = Some page ->
  MAXALIGN (t_size (form_item state MinTid)) <= PageGetFreeSpace page ->
  zsbt_insert_to_leaf fuel rel buf state
  = Ok (next_tid_on_leaf page,
        write_page rel buf
          (MkPage (pd_linp page ++ [form_item state (next_tid_on_leaf page)])
             (pd_downlinks page) (pd_opaque page))).
Proof.
  intros Hp Hroom. unfold zsbt_insert_to_leaf, insert_try_compress, ReadBuffer.
  rewrite Hp. cbn [bind].
  set (item := form_item state (next_tid_on_leaf page)).
  assert (t_size item = t_size (form_item state MinTid)) as Hsz by done.
  rewrite <- Hsz in Hroom.
  destruct (Z.ltb_spec (PageGetFreeSpace page) (MAXALIGN (t_size item))); [lia|].
  cbn [bind]. rewrite Hp. cbn [bind].
  destruct (Z.geb_spec (PageGetFreeSpace page) (MAXALIGN (t_size item))); [|lia].
  rewrite PageAddItemExtended_append; [done|].
  apply PageGetFreeSpace_fits; [|lia]. apply MAXALIGN_pos, form_item_size_pos.
Qed.

(** A third small item on the sample leaf gets (0,3). *)
Lemma zsbt_insert_to_leaf_with_room_witness :
  @zsbt_insert_to_leaf refusing_codec 0 sample_relation 1 (MkInsertState 2 [x03] [])
  = Ok (ItemPointerSet 0 3,
        write_page sample_relation 1
          (MkPage [sample_item 1 [x01]; sample_item 2 [x02]; sample_item 3 [x03]] []
             (pd_opaque sample_leaf))).
Proof.
  apply (@zsbt_insert_to_leaf_with_room refusing_codec 0 sample_relation 1
           (MkInsertState 2 [x03] []) sample_leaf).
  - vm_compute. reflexivity.
  - vm_compute. congruence.
Defined.

(** A leaf has no more free space than an empty leaf. *)
Lemma leaf_free_space_le `{ZSCodec} page :
  leaf_ok page -> PageGetFreeSpace page <= PageGetFreeSpace initial_root_page.
Proof.
  intros (_ & Hdl & Hitems & _).
  pose proof (items_bytes_nonneg _ Hitems) as Hnn.
  unfold PageGetFreeSpace, pd_lower, pd_upper. rewrite Hdl.
  cbn [initial_root_page pd_linp pd_downlinks length items_bytes foldr].
  unfold sizeof_ItemIdData, sizeof_ZSBtreeInternalPageItem, SizeOfPageHeaderData, BLCKSZ,
    sizeof_ZSBtreePageOpaque.
  pose proof (MAXALIGN_bounds 24).
  repeat match goal with |- context [?a <? ?b] => destruct (Z.ltb_spec a b) end; lia.
Qed.

(** The copy loop of a split whose new item does not fit on the empty
    right page: the old items are copied, and the new one is refused. *)
Lemma split_leaf_copy_misfit `{ZSCodec} rest : forall i lastleftoff newitem L R,
  i + Z.of_nat (length rest) = lastleftoff + 1 ->
  pd_linp R = [] ->
  pd_upper R - MAXALIGN (t_size newitem) < pd_lower R + sizeof_ItemIdData ->
  Forall item_ok rest ->
  pd_lower L + sizeof_ItemIdData * Z.of_nat (length rest) <= pd_upper L - items_bytes rest ->
  split_leaf_copy rest i lastleftoff newitem false (lastleftoff + 1) L R
  = Err "could not add new item to page on split".
Proof.
  induction rest as [|item rest IH]; intros i lastleftoff newitem L R Hi HR Hmis Hok HfitL.
  - simpl in Hi. cbn [split_leaf_copy].
    replace (i =? lastleftoff + 1) with true by (symmetry; apply Z.eqb_eq; lia).
    unfold PageAddItemExtended, PageGetMaxOffsetNumber, FirstOffsetNumber. rewrite HR.
    cbn [length Z.of_nat Z.add Z.ltb Z.compare Pos.compare Pos.compare_cont].
    by destruct (Z.ltb_spec (pd_upper R - MAXALIGN (t_size newitem))
                   (pd_lower R + sizeof_ItemIdData)); [|lia].
  - cbn [split_leaf_copy]. cbn [length] in Hi.
    replace (i =? lastleftoff + 1) with false by (symmetry; apply Z.eqb_neq; lia).
    replace (i <=? lastleftoff) with true by (symmetry; apply Z.leb_le; lia).
    cbn [bind].
    apply Forall_cons in Hok as [Hitem Hok].
    pose proof (items_bytes_nonneg _ Hok) as Hnn.
    change (items_bytes (item :: rest)) with (MAXALIGN (t_size item) + items_bytes rest) in HfitL.
    cbn [length] in HfitL. unfold sizeof_ItemIdData in *.
    rewrite PageAddItemExtended_append by (unfold sizeof_ItemIdData; lia). cbn [bind].
    apply IH; try done.
    + lia.
    + rewrite pd_lower_append, pd_upper_append. unfold sizeof_ItemIdData. lia.
Qed.

(** A row too large for an empty leaf is refused by a tree that has
    only been appended to. *)
Lemma zsbt_insert_oversize `{ZSCodec} `{!ZSCodecLaws} rel att G leaves up lup d h fuel :
  tree_inv rel att G leaves up lup ->
  PageGetFreeSpace initial_root_page
    < MAXALIGN (t_size (form_item (MkInsertState att d h) MinTid)) ->
  Z.of_nat (length G) + 1 < 2 ^ 30 ->
  (length G + 2 <= fuel)%nat ->
  zsbt_insert fuel rel att d h = Err "could not add new item to page on split".
Proof.
  intros Hinv Hbig Hn Hfuel.
  pose proof Hinv as
    [Ha Hchain Hcont Htids (lastblk & lastpage & Hlast & Hlp & Hunc & Hempty & Hrsp & Hroot)
       (firstblk & Hhead & Hlsp & Hroot') [Hh1 Hh2] Hcount Hlc].
  apply last_Some in Hlast as [init ->].
  assert ((init ++ [lastblk]) !! length init = Some lastblk) as Hidx
    by (by rewrite list_lookup_middle).
  pose proof Hchain as [Hsorted Hpages].
  destruct (Hpages _ _ Hidx) as (p & Hp & Hlok & Hlo & Hnext).
  rewrite Hlp in Hp. injection Hp as <-.
  rewrite length_app in Hlc, Hh2. cbn [length] in Hlc, Hh2.
  pose proof Hlok as (Hlevel & Hdl & Hitems & Hfits).
  unfold zsbt_insert, zsmeta_get_root_for_attribute. rewrite Hroot.
  unfold zsbt_find_insertion_target.
  rewrite (zsbt_descend_rspine rel lastblk lastpage up); try done; [| |lia]; cycle 1.
  { rewrite Hlo. unfold tid_le, ItemPointerCompare, MaxBlockNumber. cbn [ip_blkid ip_posid].
    repeat match goal with |- context [?x <? ?y] => destruct (Z.ltb_spec x y) end; lia. }
  cbn [bind]. unfold zsbt_insert_to_leaf. unfold ReadBuffer at 1. rewrite Hlp. cbn [bind].
  set (state := MkInsertState att d h) in *.
  set (item := form_item state (next_tid_on_leaf lastpage)).
  assert (t_size item = t_size (form_item state MinTid)) as Hsz by done.
  destruct (insert_try_compress_contents rel lastblk lastpage (t_size item) Hlp Hlok)
    as (page1 & -> & Hop1 & Hc1 & Hlok1).
  cbn [bind]. unfold ReadBuffer at 1. rewrite rel_pages_write, decide_True by done.
  cbn [bind].
  pose proof (leaf_free_space_le page1 Hlok1) as Hfree. rewrite <- Hsz in Hbig.
  destruct (Z.geb_spec (PageGetFreeSpace page1) (MAXALIGN (t_size item))); [lia|].
  unfold zsbt_split_leaf. unfold ReadBuffer at 1.
  rewrite rel_pages_write, decide_True by done. cbn [bind].
  unfold zs_getnewbuf, split_leaf_pages. cbv zeta.
  rewrite split_leaf_copy_misfit; [done| | | | |].
  - unfold FirstOffsetNumber, PageGetMaxOffsetNumber. lia.
  - done.
  - unfold PageGetFreeSpace, pd_lower, pd_upper in *.
    cbn [pd_linp pd_downlinks set_opaque PageInit initial_root_page length items_bytes
         foldr] in *.
    unfold sizeof_ItemIdData, sizeof_ZSBtreeInternalPageItem, SizeOfPageHeaderData, BLCKSZ,
      sizeof_ZSBtreePageOpaque in *.
    pose proof (MAXALIGN_bounds 24).
    repeat match type of Hbig with context [?a <? ?b] => destruct (Z.ltb_spec a b) end; lia.
  - apply Hlok1.
  - pose proof (leaf_items_fit page1 Hlok1) as Hl.
    unfold pd_lower, pd_upper in *.
    cbn [pd_linp pd_downlinks set_opaque PageGetTempPageCopySpecial] in *. exact Hl.
Qed.

(** Rows inserted into an empty relation leave a tree that has only
    been appended to. *)
Lemma insert_all_from_empty `{ZSCodec} `{!ZSCodecLaws} att rows fuel :
  Forall (row_fits att) rows -> rows <> [] ->
  Z.of_nat (length rows) < 2 ^ 30 -> (length rows + 1 <= fuel)%nat ->
  exists rel leaves up lup,
    insert_all fuel empty_relation att rows = Ok (nth_tid <$> seq 0 (length rows), rel) /\
    tree_inv rel att (rows_items att 0 rows) leaves up lup.
Proof.
  intros Hfit Hne Hn Hfuel. destruct rows as [|[d h] rows]; [done|].
  destruct (insert_all_tree_inv att ((d, h) :: rows) _ [] [1] [] [] fuel
              (tree_inv_initial att) Hfit)
    as (rel & leaves & up & lup & Hins & Hinv); [simpl in *; lia|simpl in *; lia|].
  exists rel, leaves, up, lup. split; [|exact Hinv].
  cbn [insert_all] in Hins |- *. by rewrite zsbt_insert_empty.
Qed.

(** X10.  A row too large for an empty leaf is refused, whatever has
    been inserted before: after any rows that fit, [zsbt_insert] of
    such a row raises "could not add new item to page on split".  The
    row is offered to the right page of a leaf split and refused
    there; nothing spills it elsewhere. *)
Theorem zsbt_insert_oversize_rejected `{ZSCodec} `{!ZSCodecLaws} att rows d h fuel :
  Forall (row_fits att) rows ->
  Z.of_nat (length rows) + 1 < 2 ^ 30 ->
  (length rows + 2 <= fuel)%nat ->
  PageGetFreeSpace initial_root_page
    < MAXALIGN (t_size (form_item (MkInsertState att d h) MinTid)) ->
  exists tids rel,
    insert_all fuel empty_relation att rows = Ok (tids, rel) /\
    zsbt_insert fuel rel att d h = Err "could not add new item to page on split".
Proof.
  intros Hfit Hn Hfuel Hbig. destruct (decide (rows = [])) as [->|Hne].
  - exists [], empty_relation. split; [done|]. rewrite zsbt_insert_empty.
    eapply zsbt_insert_oversize; [apply tree_inv_initial|done|simpl; lia|simpl in *; lia].
  - destruct (insert_all_from_empty att rows fuel Hfit Hne)
      as (rel & leaves & up & lup & Hins & Hinv); [lia|lia|].
    eexists _, rel. split; [exact Hins|].
    eapply zsbt_insert_oversize; [exact Hinv|done| |]; rewrite rows_items_length; lia.
Qed.

Lemma sample_rows_fit : Forall (row_fits 2) sample_rows.
Proof. repeat constructor; vm_compute; congruence. Qed.

(** After the three sample rows, a row of 9000 bytes is refused. *)
Lemma zsbt_insert_oversize_rejected_witness :
  exists tids rel,
    @insert_all marking_codec 5 empty_relation 2 sample_rows = Ok (tids, rel) /\
    @zsbt_insert marking_codec 5 rel 2 huge_datum []
    = Err "could not add new item to page on split".
Proof.
  apply (@zsbt_insert_oversize_rejected marking_codec marking_codec_laws 2 sample_rows
           huge_datum [] 5).
  - exact sample_rows_fit.
  - vm_compute. reflexivity.
  - simpl. lia.
  - vm_compute. reflexivity.
Defined.


(* ===================================================================== *)
(** * After a sequence of insertions *)
(* ===================================================================== *)

(** [zsbt_get_last_tid] on a tree that has only been appended to. *)
Lemma zsbt_get_last_tid_tree_inv `{ZSCodec} rel att G leaves up lup fuel :
  tree_inv rel att G leaves up lup ->
  Z.of_nat (length G) + 1 < 2 ^ 30 ->
  (length G + 2 <= fuel)%nat ->
  zsbt_get_last_tid fuel rel att = Ok (nth_tid (length G), rel).
Proof.
  intros Hinv Hn Hfuel.
  pose proof Hinv as
    [Ha Hchain Hcont Htids (lastblk & lastpage & Hlast & Hlp & Hunc & Hempty & Hrsp & Hroot)
       (firstblk & Hhead & Hlsp & Hroot') [Hh1 Hh2] Hcount Hlc].
  pose proof (next_tid_tree_inv _ _ _ _ _ _ _ _ Hinv Hlast Hlp) as Htid.
  apply last_Some in Hlast as [init ->].
  assert ((init ++ [lastblk]) !! length init = Some lastblk) as Hidx
    by (by rewrite list_lookup_middle).
  destruct Hchain as [Hsorted Hpages].
  destruct (Hpages _ _ Hidx) as (p & Hp & (Hlevel & _) & Hlo & Hnext).
  rewrite Hlp in Hp. injection Hp as <-.
  rewrite length_app in Hlc, Hh2. cbn [length] in Hlc, Hh2.
  unfold zsbt_get_last_tid, zsmeta_get_root_for_attribute. rewrite Hroot.
  rewrite (zsbt_descend_rspine rel lastblk lastpage up); try done; [| |lia]; cycle 1.
  { rewrite Hlo. unfold tid_le, ItemPointerCompare, MaxBlockNumber. cbn [ip_blkid ip_posid].
    repeat match goal with |- context [?x <? ?y] => destruct (Z.ltb_spec x y) end; lia. }
  cbn [bind]. unfold ReadBuffer. rewrite Hlp. cbn [bind]. by rewrite Htid.
Qed.

(** X11.  [zsbt_get_last_tid] after n rows have been inserted into an
    empty relation returns the TID after the last one handed out,
    which is n + 1 written in base 65536, block first, and leaves the
    relation as it is; the next insertion returns that very TID.  The
    offset part runs through 0 on every block but the first: after
    65535 rows the next TID is (1,0). *)
Theorem zsbt_get_last_tid_after_inserts `{ZSCodec} `{!ZSCodecLaws} att rows fuel :
  Forall (row_fits att) rows -> rows <> [] ->
  Z.of_nat (length rows) + 1 < 2 ^ 30 ->
  (length rows + 2 <= fuel)%nat ->
  let next := ItemPointerSet ((Z.of_nat (length rows) + 1) / 65536)
                ((Z.of_nat (length rows) + 1) mod 65536) in
  exists tids rel,
    insert_all fuel empty_relation att rows = Ok (tids, rel) /\
    zsbt_get_last_tid fuel rel att = Ok (next, rel) /\
    forall d h, row_fits att (d, h) ->
      exists rel', zsbt_insert fuel rel att d h = Ok (next, rel').
Proof.
  intros Hfit Hne Hn Hfuel next.
  destruct (insert_all_from_empty att rows fuel Hfit Hne)
    as (rel & leaves & up & lup & Hins & Hinv); [lia|lia|].
  assert (next = nth_tid (length rows)) as -> by (subst next; rewrite nth_tid_eq; [done|lia]).
  eexists _, rel. split; [exact Hins|]. split.
  - rewrite (zsbt_get_last_tid_tree_inv rel att _ leaves up lup fuel Hinv);
      rewrite rows_items_length; [done|lia|lia].
  - intros d h Hrow.
    destruct (zsbt_insert_tree_inv rel att _ leaves up lup d h fuel Hinv Hrow)
      as (rel' & _ & _ & _ & Hrun & _); rewrite ?rows_items_length; [lia|lia|].
    exists rel'. by rewrite rows_items_length in Hrun.
Qed.

Lemma sample_rows_nonempty : sample_rows <> [].
Proof. done. Qed.

(** After the three sample rows the next TID is (0,4). *)
Lemma zsbt_get_last_tid_after_inserts_witness :
  exists tids rel,
    @insert_all marking_codec 5 empty_relation 2 sample_rows = Ok (tids, rel) /\
    zsbt_get_last_tid 5 rel 2 = Ok (ItemPointerSet 0 4, rel).
Proof.
  destruct (@zsbt_get_last_tid_after_inserts marking_codec marking_codec_laws 2 sample_rows 5
              sample_rows_fit sample_rows_nonempty ltac:(vm_compute; reflexivity)
              ltac:(simpl; lia))
    as (tids & rel & Hins & Hlast & _).
  exists tids, rel. split; [exact Hins|]. exact Hlast.
Defined.

(** X12.  Space: after n rows, n at least 1, have been inserted into an
    empty relation, the relation has at most 2n blocks, the metapage
    included, and every page sits on a block the allocator has handed
    out. *)
Theorem insert_all_block_bound `{ZSCodec} `{!ZSCodecLaws} att rows fuel :
  Forall (row_fits att) rows -> rows <> [] ->
  Z.of_nat (length rows) < 2 ^ 30 ->
  (length rows + 1 <= fuel)%nat ->
  exists tids rel,
    insert_all fuel empty_relation att rows = Ok (tids, rel) /\
    rel_nblocks rel <= 2 * Z.of_nat (length rows) /\
    forall blk page, rel_pages rel !! blk = Some page -> 0 < blk < rel_nblocks rel.
Proof.
  intros Hfit Hne Hn Hfuel.
  destruct (insert_all_from_empty att rows fuel Hfit Hne Hn Hfuel)
    as (rel & leaves & up & lup & Hins & Hinv).
  eexists _, rel. split; [exact Hins|].
  destruct Hinv as
    [Ha Hchain Hcont Htids (lastblk & lastpage & Hlast & Hlp & Hunc & Hempty & Hrsp & Hroot)
       _ _ Hcount Hlc].
  pose proof (spine_slack_nonneg _ _ _ _ _ Hrsp) as Hslack.
  rewrite rows_items_length in Hlc.
  assert (0 < length rows)%nat by (destruct rows; [done|simpl; lia]).
  split; [lia|]. apply Ha.
Qed.

(** The three sample rows take at most six blocks. *)
Lemma insert_all_block_bound_witness :
  exists tids rel,
    @insert_all marking_codec 5 empty_relation 2 sample_rows = Ok (tids, rel) /\
    rel_nblocks rel <= 6.
Proof.
  destruct (@insert_all_block_bound marking_codec marking_codec_laws 2 sample_rows 5
              sample_rows_fit sample_rows_nonempty ltac:(vm_compute; reflexivity)
              ltac:(simpl; lia))
    as (tids & rel & Hins & Hbound & _).
  exists tids, rel. split; [exact Hins|]. exact Hbound.
Defined.





(* ===================================================================== *)
(** * What a scan and the delete probe hand back, on any relation *)
(* ===================================================================== *)

Lemma scan_read_decompressed_hit stream nexttid item rest :
  scan_read_decompressed stream nexttid = Some (item, rest) ->
  tid_le nexttid (t_tid item).
Proof.
  induction stream as [|x stream IH]; [done|]. cbn [scan_read_decompressed].
  destruct (ItemPointerCompare (t_tid x) nexttid >=? 0) eqn:Hc; [|exact IH].
  intros [= <- <-]. by apply tid_compare_ge.
Qed.

Lemma scan_page_items_hit items : forall off nexttid off' item,
  scan_page_items items off nexttid = HitItem off' item ->
  tid_le nexttid (t_tid item) /\ item_is_compressed item = false.
Proof.
  induction items as [|x items IH]; intros off nexttid off' item; [done|].
  cbn [scan_page_items]. destruct (item_is_compressed x) eqn:Hx.
  - destruct (_ >=? _); [done|]. apply IH.
  - destruct (ItemPointerCompare (t_tid x) nexttid >=? 0) eqn:Hc; [|apply IH].
    intros [= <- <-]. split; [by apply tid_compare_ge|done].
Qed.

(** What the loop of [zsbt_scan_next] hands back. *)
Lemma scan_next_loop_out `{ZSMvcc} `{ZSCodec} rel fuel : forall scan scan' out,
  scan_active scan = true ->
  scan_next_loop fuel rel scan = Ok (scan', out) ->
  match out with
  | Some tuple =>
      tid_le (scan_nexttid scan) (st_tid tuple) /\
      scan_nexttid scan' = ItemPointerIncrement (st_tid tuple) /\
      scan_active scan' = true /\
      scan_attno scan' = scan_attno scan /\
      scan_snapshot scan' = scan_snapshot scan
  | None => scan_active scan' = false
  end.
Proof.
  induction fuel as [|fuel IH]; intros scan scan' out Hact Hrun; [done|].
  cbn [scan_next_loop] in Hrun.
  destruct (if scan_has_decompressed scan
            then scan_read_decompressed (scan_decompressor scan) (scan_nexttid scan)
            else None) as [[item stream]|] eqn:Hdrain.
  - injection Hrun as <- <-. cbn [scan_nexttid scan_active scan_attno scan_snapshot].
    rewrite st_tid_decode. repeat split; try done.
    destruct (scan_has_decompressed scan); [|done].
    by eapply scan_read_decompressed_hit.
  - apply bind_Ok in Hrun as (page & Hread & Hrun).
    destruct (scan_page_items (pd_linp page) FirstOffsetNumber (scan_nexttid scan))
      as [it|off it|] eqn:Hwalk.
    + apply IH in Hrun; [|done]. destruct out; exact Hrun.
    + injection Hrun as <- <-. cbn [scan_nexttid scan_active scan_attno scan_snapshot].
      rewrite st_tid_decode. repeat split; try done.
      by apply scan_page_items_hit in Hwalk as [? _].
    + destruct (_ =? _); [done|]. destruct (_ =? _).
      * by injection Hrun as <- <-.
      * apply bind_Ok in Hrun as (npage & _ & Hrun).
        apply IH in Hrun; [|done]. destruct out; exact Hrun.
Qed.

(** X14.  A scan never goes backwards, on any relation and with any
    codec.  When [zsbt_scan_next] hands out a tuple, its TID is at or
    after the cursor's next TID, and the cursor moves to the TID right
    after it, staying active on the same attribute and snapshot.
    When it reports the end, the scan is inactive, and every later
    call reports the end without touching the cursor. *)
Theorem zsbt_scan_next_advances `{ZSMvcc} `{ZSCodec} fuel rel scan scan' out :
  zsbt_scan_next fuel rel scan = Ok (scan', out) ->
  match out with
  | Some tuple =>
      tid_le (scan_nexttid scan) (st_tid tuple) /\
      scan_nexttid scan' = ItemPointerIncrement (st_tid tuple) /\
      scan_active scan' = true /\
      scan_attno scan' = scan_attno scan /\
      scan_snapshot scan' = scan_snapshot scan
  | None =>
      scan_active scan' = false /\
      forall fuel', zsbt_scan_next fuel' rel scan' = Ok (scan', None)
  end.
Proof.
  unfold zsbt_scan_next. destruct (scan_active scan) eqn:Hact; cbn [negb].
  - intros Hrun. pose proof (scan_next_loop_out rel fuel scan scan' out Hact Hrun) as Hout.
    destruct out; [exact Hout|]. split; [exact Hout|].
    intros fuel'. by rewrite Hout.
  - intros [= <- <-]. split; [done|]. intros fuel'. by rewrite Hact.
Qed.

(** The first call of a scan of the sample leaf from (0,2). *)
Lemma zsbt_scan_next_advances_witness :
  exists scan',
    @zsbt_scan_next all_visible refusing_codec 1 sample_relation
      (MkScan 2 None true 1 0 (ItemPointerSet 0 2) false [])
    = Ok (scan', Some (MkScanTuple [x02] (ItemPointerSet 0 2) true)) /\
    scan_nexttid scan' = ItemPointerSet 0 3.
Proof.
  eexists. split; [vm_compute; reflexivity|].
  match goal with
  | |- scan_nexttid ?s = _ =>
      pose proof (@zsbt_scan_next_advances all_visible refusing_codec 1 sample_relation
                    (MkScan 2 None true 1 0 (ItemPointerSet 0 2) false []) s
                    (Some (MkScanTuple [x02] (ItemPointerSet 0 2) true))
                    ltac:(vm_compute; reflexivity)) as (_ & Hnext & _)
  end.
  exact Hnext.
Defined.

(** Where the walk of the delete probe over one page stops. *)
Lemma delete_page_items_hit items : forall off tid off' item,
  delete_page_items items off tid = HitItem off' item ->
  off <= off' /\
  items !! Z.to_nat (off' - off) = Some item /\
  item_is_compressed item = false /\
  tid_le tid (t_tid item) /\
  forall (k : nat) it, (k < Z.to_nat (off' - off))%nat -> items !! k = Some it ->
    tid_lt (item_last_tid it) tid.
Proof.
  induction items as [|x items IH]; intros off tid off' item; [done|].
  cbn [delete_page_items]. unfold item_last_tid in *.
  assert (forall (Hx : tid_lt (if item_is_compressed x then t_lasttid x else t_tid x) tid),
            delete_page_items items (off + 1) tid = HitItem off' item ->
            off <= off' /\ (x :: items) !! Z.to_nat (off' - off) = Some item /\
            item_is_compressed item = false /\ tid_le tid (t_tid item) /\
            forall (k : nat) it, (k < Z.to_nat (off' - off))%nat ->
              (x :: items) !! k = Some it ->
              tid_lt (if item_is_compressed it then t_lasttid it else t_tid it) tid) as Hstep.
  { intros Hx Hrest. apply IH in Hrest as (Hoff & Hget & Hunc & Hle & Hbefore).
    replace (Z.to_nat (off' - off)) with (S (Z.to_nat (off' - (off + 1)))) by lia.
    split; [lia|]. split; [done|]. split; [done|]. split; [done|].
    intros [|k] it Hk; cbn [lookup list_lookup].
    - by intros [= <-].
    - apply Hbefore. lia. }
  destruct (item_is_compressed x) eqn:Hc.
  - destruct (ItemPointerCompare (t_lasttid x) tid >=? 0) eqn:Hcmp; [done|].
    apply Hstep. by apply tid_compare_ge_false.
  - destruct (ItemPointerCompare (t_tid x) tid >=? 0) eqn:Hcmp.
    + intros [= <- <-]. rewrite Z.sub_diag. cbn [Z.to_nat lookup list_lookup].
      split; [lia|]. split; [done|]. split; [done|].
      split; [by apply tid_compare_ge|]. intros k it Hk. lia.
    + apply Hstep. by apply tid_compare_ge_false.
Qed.

Lemma delete_loop_hit rel tid fuel : forall buf buf' off item,
  delete_loop fuel rel buf tid = Ok (TupleDeleteCalled buf' off item) ->
  exists page, rel_pages rel !! buf' = Some page /\
    delete_page_items (pd_linp page) FirstOffsetNumber tid = HitItem off item.
Proof.
  induction fuel as [|fuel IH]; intros buf buf' off item Hrun; [done|].
  cbn [delete_loop] in Hrun. apply bind_Ok in Hrun as (page & Hread & Hrun).
  apply ReadBuffer_Ok in Hread.
  destruct (delete_page_items (pd_linp page) FirstOffsetNumber tid) as [it|o it|] eqn:Hwalk.
  - by eapply IH.
  - injection Hrun as <- <- <-. eauto.
  - destruct (_ =? _); [done|]. destruct (_ =? _); [done|]. by eapply IH.
Qed.

(** X15.  The row the delete probe hands to [zs_tuple_delete], on any
    relation.  When [zsbt_scan_for_tuple_delete] reports a row for
    [tid], it is the item at the reported offset of the reported page,
    it is an uncompressed item, every item before it on that page ends
    below [tid], and its TID is at or above [tid]: the first item at or
    after the target, which need not carry the target TID itself. *)
Theorem zsbt_scan_for_tuple_delete_target fuel rel tid buf off item rel' :
  zsbt_scan_for_tuple_delete fuel rel tid = Ok (TupleDeleteCalled buf off item, rel') ->
  exists page,
    rel_pages rel !! buf = Some page /\
    FirstOffsetNumber <= off /\
    pd_linp page !! Z.to_nat (off - FirstOffsetNumber) = Some item /\
    item_is_compressed item = false /\
    tid_le tid (t_tid item) /\
    forall (k : nat) it, (k < Z.to_nat (off - FirstOffsetNumber))%nat ->
      pd_linp page !! k = Some it -> tid_lt (item_last_tid it) tid.
Proof.
  unfold zsbt_scan_for_tuple_delete.
  destruct (zsmeta_get_root_for_attribute rel 1 false) as [rootblk rel1] eqn:Hroot.
  assert (rel1 = rel) as ->.
  { unfold zsmeta_get_root_for_attribute in Hroot.
    destruct (rel_roots rel !! 1); by injection Hroot as _ <-. }
  destruct (rootblk =? InvalidBlockNumber); [done|].
  intros Hrun. apply bind_Ok in Hrun as (leaf & _ & Hrun).
  apply bind_Ok in Hrun as (outcome & Hloop & Hrun). injection Hrun as -> <-.
  apply delete_loop_hit in Hloop as (page & Hp & Hwalk).
  exists page. split; [done|]. by apply delete_page_items_hit.
Qed.

(** The leaf of [gap_relation] holds rows (0,1) and (0,3); the probe for
    the missing (0,2) stops at the row (0,3). *)
Lemma zsbt_scan_for_tuple_delete_target_witness :
  zsbt_scan_for_tuple_delete 2 gap_relation (ItemPointerSet 0 2)
    = Ok (TupleDeleteCalled 1 2
            (form_item (MkInsertState 1 [x03] sample_header) (ItemPointerSet 0 3)),
          gap_relation) /\
  exists page,
    rel_pages gap_relation !! 1 = Some page /\
    pd_linp page !! 1%nat
      = Some (form_item (MkInsertState 1 [x03] sample_header) (ItemPointerSet 0 3)).
Proof.
  split; [vm_compute; reflexivity|].
  destruct (zsbt_scan_for_tuple_delete_target 2 gap_relation (ItemPointerSet 0 2) 1 2
              (form_item (MkInsertState 1 [x03] sample_header) (ItemPointerSet 0 3))
              gap_relation ltac:(vm_compute; reflexivity))
    as (page & Hp & _ & Hget & _).
  exists page. split; [exact Hp|exact Hget].
Defined.

(* ===================================================================== *)
(** * The root pointers an insertion touches *)
(* ===================================================================== *)

Lemma get_root_roots rel att forupdate :
  (forall b, b <> att ->
     rel_roots (zsmeta_get_root_for_attribute rel att forupdate).2 !! b = rel_roots rel !! b) /\
  (is_Some (rel_roots rel !! att) ->
     is_Some (rel_roots (zsmeta_get_root_for_attribute rel att forupdate).2 !! att)) /\
  rel_nblocks rel <= rel_nblocks (zsmeta_get_root_for_attribute rel att forupdate).2.
Proof.
  unfold zsmeta_get_root_for_attribute. destruct (rel_roots rel !! att) eqn:E.
  - cbn [snd]. rewrite E. split; [done|]. split; [done|lia].
  - destruct forupdate; cbn [zs_getnewbuf snd rel_roots rel_nblocks].
    + split; [|split; [|lia]].
      * intros b Hb. by rewrite lookup_insert_ne.
      * intros _. rewrite lookup_insert_eq. eauto.
    + rewrite E. split; [done|]. split; [done|lia].
Qed.

Lemma zsbt_newroot_roots rel att level key1 blk1 key2 blk2 leftchildbuf rel' :
  zsbt_newroot rel att level key1 blk1 key2 blk2 leftchildbuf = Ok rel' ->
  (forall b, b <> att -> rel_roots rel' !! b = rel_roots rel !! b) /\
  is_Some (rel_roots rel' !! att) /\
  rel_nblocks rel <= rel_nblocks rel'.
Proof.
  unfold zsbt_newroot. cbn [zs_getnewbuf]. intros Hrun.
  apply bind_Ok in Hrun as (leftchildpage & _ & Hrun). injection Hrun as <-.
  cbn [zsmeta_update_root_for_attribute write_page rel_roots rel_nblocks].
  split; [|split; [|lia]].
  - intros b Hb. by rewrite lookup_insert_ne.
  - rewrite lookup_insert_eq. eauto.
Qed.

(** Inserting a downlink, with the splits and the new root it may
    bring about, moves no root pointer but the attribute's own. *)
Lemma zsbt_insert_downlink_roots fuel :
  forall rel att leftbuf rightlokey rightblkno rel',
  zsbt_insert_downlink fuel rel att leftbuf rightlokey rightblkno = Ok rel' ->
  (forall b, b <> att -> rel_roots rel' !! b = rel_roots rel !! b) /\
  is_Some (rel_roots rel' !! att) /\
  rel_nblocks rel <= rel_nblocks rel'.
Proof.
  induction fuel as [|fuel IH]; intros rel att leftbuf rightlokey rightblkno rel';
    [discriminate|].
  cbn [zsbt_insert_downlink]. intros Hrun.
  apply bind_Ok in Hrun as (leftpage & _ & Hrun).
  apply bind_Ok in Hrun as ([[parentbuf itemno] rel2] & Hfind & Hrun).
  apply zsbt_find_downlink_Ok in Hfind as [-> _].
  destruct (get_root_roots rel att true) as (Hothers & _ & Hn).
  pose proof (get_root_for_update rel att) as Hown.
  set (rel2 := (zsmeta_get_root_for_attribute rel att true).2) in *.
  destruct (parentbuf =? InvalidBuffer).
  - apply zsbt_newroot_roots in Hrun as (Ho & Hs & Hn').
    split; [|split; [done|lia]]. intros b Hb. rewrite Ho by done. by apply Hothers.
  - apply bind_Ok in Hrun as (parentpage & _ & Hrun).
    destruct (_ || _); [discriminate|].
    destruct (ZSBtreeInternalPageIsFull parentpage).
    + unfold zsbt_split_internal in Hrun.
      apply bind_Ok in Hrun as (origpage & _ & Hrun). cbn [zs_getnewbuf] in Hrun.
      destruct (split_internal_pages _ _ _ _ _) as [[lp rp] splittid].
      apply bind_Ok in Hrun as (childpage & _ & Hrun).
      apply IH in Hrun as (Ho & Hs & Hn'). cbn [write_page rel_roots rel_nblocks] in Ho, Hn'.
      split; [|split; [done|lia]]. intros b Hb. rewrite Ho by done. by apply Hothers.
    + injection Hrun as <-. cbn [write_page rel_roots rel_nblocks].
      split; [done|]. split; [|lia]. rewrite Hown. eauto.
Qed.

Lemma zsbt_insert_to_leaf_roots `{ZSCodec} fuel rel buf state tid rel' :
  zsbt_insert_to_leaf fuel rel buf state = Ok (tid, rel') ->
  (forall b, b <> attno state -> rel_roots rel' !! b = rel_roots rel !! b) /\
  (is_Some (rel_roots rel !! attno state) -> is_Some (rel_roots rel' !! attno state)) /\
  rel_nblocks rel <= rel_nblocks rel'.
Proof.
  unfold zsbt_insert_to_leaf. intros Hrun.
  apply bind_Ok in Hrun as (page & _ & Hrun).
  apply bind_Ok in Hrun as (rel1 & Htry & Hrun).
  apply insert_try_compress_effect in Htry as (p0 & p1 & _ & _ & _ & ->).
  apply bind_Ok in Hrun as (page1 & _ & Hrun).
  destruct (_ >=? _).
  - destruct (PageAddItemExtended _ _ _ _); [|discriminate].
    injection Hrun as <- <-. cbn [write_page rel_roots rel_nblocks].
    split; [done|]. split; [done|lia].
  - apply bind_Ok in Hrun as (rel2 & Hsplit & Hrun). injection Hrun as <- <-.
    unfold zsbt_split_leaf in Hsplit.
    apply bind_Ok in Hsplit as (origpage & _ & Hsplit). cbn [zs_getnewbuf] in Hsplit.
    apply bind_Ok in Hsplit as ([[lp rp] splittid] & _ & Hsplit).
    apply zsbt_insert_downlink_roots in Hsplit as (Ho & Hs & Hn).
    cbn [write_page rel_roots rel_nblocks] in Ho, Hn.
    split; [done|]. split; [done|lia].
Qed.

(** X16.  An insertion is confined to its own attribute's tree as far
    as the metapage goes: whatever compression, splits and new roots
    [zsbt_insert] goes through, every other attribute's root pointer
    is what it was, the attribute inserted into has a root afterwards,
    and the relation never shrinks. *)
Theorem zsbt_insert_other_roots_kept `{ZSCodec} fuel rel att datum tupleheader tid rel' :
  zsbt_insert fuel rel att datum tupleheader = Ok (tid, rel') ->
  (forall b, b <> att -> rel_roots rel' !! b = rel_roots rel !! b) /\
  is_Some (rel_roots rel' !! att) /\
  rel_nblocks rel <= rel_nblocks rel'.
Proof.
  unfold zsbt_insert.
  destruct (get_root_roots rel att true) as (Hothers & _ & Hn).
  pose proof (get_root_for_update rel att) as Hown.
  destruct (zsmeta_get_root_for_attribute rel att true) as [rootblk rel1].
  cbn [fst snd] in *. intros Hrun.
  apply bind_Ok in Hrun as (buf & _ & Hrun).
  apply zsbt_insert_to_leaf_roots in Hrun as (Ho & Hs & Hn'). cbn [attno] in Ho, Hs.
  split; [|split; [|lia]].
  - intros b Hb. rewrite Ho by done. by apply Hothers.
  - apply Hs. rewrite Hown. eauto.
Qed.

(** Inserting a first row under attribute 1 of [sample_relation], which
    holds a tree for attribute 2 only. *)
Lemma zsbt_insert_other_roots_kept_witness :
  exists tid rel',
    @zsbt_insert refusing_codec 2 sample_relation 1 [x01] sample_header = Ok (tid, rel') /\
    rel_roots rel' !! 2 = rel_roots sample_relation !! 2 /\
    is_Some (rel_roots rel' !! 1).
Proof.
  eexists _, _. split; [vm_compute; reflexivity|].
  match goal with
  | |- rel_roots ?r !! 2 = _ /\ _ =>
      destruct (@zsbt_insert_other_roots_kept refusing_codec 2 sample_relation 1 [x01]
                  sample_header (ItemPointerSet 0 1) r ltac:(vm_compute; reflexivity))
        as (Ho & Hs & _)
  end.
  split; [apply Ho; lia|exact Hs].
Defined.
